(** * House Selector: the data-shaping layer of the map explorer

    A shallow embedding of the TypeScript utilities under [web/src/utils]
    (geojson.ts, schools.ts, loaders.ts, kmz.ts), of the hook [useMapData]
    and of the values [App.tsx] derives from the data, together with the
    properties that the design document states about them and further
    properties of the code.

    Conventions of the embedding.

    - A JavaScript number is an element of [number]: NaN, the two
      infinities, or a finite value carried as a rational.  The finite
      numbers of the program are the binary64 values; a rational that is
      not one (a decimal as it is written) stands for the binary64 value
      nearest to it, ties going to the even significand ([Num.binary64]).
      The arithmetic operators take that value of their operands and round
      their exact result the same way, to an infinity beyond the range
      ([Num.fl64]).  Comparisons, conversions and the functions to or from
      text take the rational as it is carried.  No zero is negative.
    - A JavaScript string is a [string] of ASCII characters; case mapping
      and white space are the ASCII ones.
    - A property value is a JSON scalar ([value]); [VUndefined] is what a
      lookup of an absent key yields.
    - A parsed JSON object (the [properties] of a feature) is the list of
      its own keys and values, in the order [Object.keys] enumerates them.
      Objects that the code itself uses as dictionaries are finite maps or
      insertion-ordered association lists over their own keys.  A lookup
      in such an object also sees the members it inherits from
      [Object.prototype]: [buildMetadata] models them ([inherited]); the
      counters of [summarizeSchools] and the tables that [getMapCenter]
      and the view look up are taken over their own keys only.
    - A function that can throw returns a [result]. *)

From Stdlib Require Import ZArith QArith Qabs Qround Qpower Lqa Ascii.
From Stdlib Require String.
From stdpp Require Import base option list strings sorting gmap.

Set Default Proof Using "Type".

(* ------------------------------------------------------------------ *)
(** * Numbers *)

Module Num.

Inductive number : Type :=
| NaN
| NegInf
| Fin (q : Q)
| PosInf.

Definition zero : number := Fin 0.
Definition one : number := Fin 1.

(** The least magnitude that rounds to an infinity in binary64:
    [2^1024 - 2^970], halfway between the largest double and [2^1024]. *)
Definition overflow_threshold : Q := inject_Z (2 ^ 1024 - 2 ^ 970).

(** [fl q]: the number that a literal of value [q] denotes. *)
Definition fl (q : Q) : number :=
  if Qle_bool overflow_threshold (Qabs q)
  then (if Qle_bool 0 q then PosInf else NegInf)
  else Fin q.

(** ** Rounding to binary64 *)

Definition pow2 (e : Z) : Q := (2 ^ e)%Q.

(** The exponent of a positive rational: the [e] with [2^e <= q < 2^(e+1)]. *)
Definition ilog2 (q : Q) : Z :=
  let e := (Z.log2 (Qnum q) - Z.log2 (Zpos (Qden q)))%Z in
  if Qle_bool (pow2 e) q then e else (e - 1)%Z.

(** The nearest integer, a tie going to the even one. *)
Definition rne (q : Q) : Z :=
  let f := Qfloor q in
  match Qcompare (q - inject_Z f) (1 # 2) with
  | Lt => f
  | Gt => (f + 1)%Z
  | Eq => if Z.even f then f else (f + 1)%Z
  end.

(** The exponent that binary64 gives [q]: its own, and [-1022] throughout
    the subnormal range. *)
Definition expo (q : Q) : Z := Z.max (ilog2 (Qabs q)) (-1022).

(** The distance between the binary64 values around [q]: 52 binary places
    below its exponent. *)
Definition ulp (q : Q) : Q := pow2 (expo q - 52).

(** The binary64 value nearest to [q], ties to even: [q] itself when it is
    one.  (The range is not bounded here; see [fl64].) *)
Definition binary64 (q : Q) : Q :=
  if Qeq_bool q 0 then q else
  let r := (inject_Z (rne (q / ulp q)) * ulp q)%Q in
  if Qeq_bool r q then q else Qred r.

Definition is_binary64 (q : Q) : bool := Qeq_bool (binary64 q) q.

(** [fl64 q]: the result of an operation whose exact result is [q]. *)
Definition fl64 (q : Q) : number :=
  if Qle_bool overflow_threshold (Qabs q)
  then (if Qle_bool 0 q then PosInf else NegInf)
  else Fin (binary64 q).

(** The binary64 number that an operand stands for. *)
Definition stored (n : number) : number :=
  match n with
  | Fin q => fl64 q
  | _ => n
  end.

(** [Number.isNaN], [Number.isFinite] on a value known to be a number. *)
Definition isNaN (n : number) : bool :=
  match n with NaN => true | _ => false end.

Definition isFinite (n : number) : bool :=
  match n with Fin _ => true | _ => false end.

(** [a <= b] as JavaScript evaluates it: false as soon as one is NaN. *)
Definition leb (a b : number) : bool :=
  match a, b with
  | NaN, _ | _, NaN => false
  | NegInf, _ => true
  | _, PosInf => true
  | Fin x, Fin y => Qle_bool x y
  | _, _ => false
  end.

(** Numeric equality ([===] on two numbers). *)
Definition eqb (a b : number) : bool :=
  match a, b with
  | NegInf, NegInf | PosInf, PosInf => true
  | Fin x, Fin y => Qeq_bool x y
  | _, _ => false
  end.

(** [Math.min(a, b)] and [Math.max(a, b)]. *)
Definition min2 (a b : number) : number :=
  match a, b with
  | NaN, _ | _, NaN => NaN
  | _, _ => if leb a b then a else b
  end.

Definition max2 (a b : number) : number :=
  match a, b with
  | NaN, _ | _, NaN => NaN
  | _, _ => if leb a b then b else a
  end.

(** [Math.min(...xs)] and [Math.max(...xs)]: the empty call yields the
    neutral infinity. *)
Definition min_list (xs : list number) : number := foldl min2 PosInf xs.
Definition max_list (xs : list number) : number := foldl max2 NegInf xs.

(** [a + b] and [a / 2]. *)
Definition add (a b : number) : number :=
  match stored a, stored b with
  | NaN, _ | _, NaN => NaN
  | PosInf, NegInf | NegInf, PosInf => NaN
  | PosInf, _ | _, PosInf => PosInf
  | NegInf, _ | _, NegInf => NegInf
  | Fin x, Fin y => fl64 (x + y)
  end.

Definition half (a : number) : number :=
  match stored a with
  | Fin x => fl64 (x / 2)
  | other => other
  end.

(** The order used in statements: [le a b] is [a <= b] on non-NaN numbers. *)
Definition le (a b : number) : Prop := leb a b = true.

End Num.
Export Num(number(..)).

(* ------------------------------------------------------------------ *)
(** * Strings *)

Module Str.

Definition code (c : ascii) : N := N_of_ascii c.

Definition is_lower (c : ascii) : bool := (97 <=? code c)%N && (code c <=? 122)%N.
Definition is_upper (c : ascii) : bool := (65 <=? code c)%N && (code c <=? 90)%N.

Definition upper_char (c : ascii) : ascii :=
  if is_lower c then ascii_of_N (code c - 32) else c.
Definition lower_char (c : ascii) : ascii :=
  if is_upper c then ascii_of_N (code c + 32) else c.

Fixpoint map_chars (f : ascii → ascii) (s : string) : string :=
  match s with
  | EmptyString => EmptyString
  | String c r => String (f c) (map_chars f r)
  end.

(** [s.toUpperCase()], [s.toLowerCase()]. *)
Definition toUpperCase : string → string := map_chars upper_char.
Definition toLowerCase : string → string := map_chars lower_char.

(** White space as [trim] and the numeric conversions see it. *)
Definition is_space : ascii → bool := Ascii.is_space.

Fixpoint trimStart (s : string) : string :=
  match s with
  | String c r => if is_space c then trimStart r else s
  | EmptyString => EmptyString
  end.

Definition trimEnd (s : string) : string := String.rev (trimStart (String.rev s)).

(** [s.trim()]. *)
Definition trim (s : string) : string := trimEnd (trimStart s).

Definition length : string → nat := String.length.

(** [s.startsWith(p)]. *)
Fixpoint startsWith (p s : string) : bool :=
  match p, s with
  | EmptyString, _ => true
  | String a p', String b s' => if decide (a = b) then startsWith p' s' else false
  | String _ _, EmptyString => false
  end.

Fixpoint drop (n : nat) (s : string) : string :=
  match n, s with
  | O, _ => s
  | S n', String _ r => drop n' r
  | S _, EmptyString => EmptyString
  end.

Fixpoint take (n : nat) (s : string) : string :=
  match n, s with
  | S n', String c r => String c (take n' r)
  | _, _ => EmptyString
  end.

(** [s.substring(i, j)] for [i <= j]. *)
Definition substring (i j : nat) (s : string) : string := take (j - i) (drop i s).

(** [s.replace(/c/g, "")] for a single character [c]. *)
Fixpoint removeAll (c : ascii) (s : string) : string :=
  match s with
  | EmptyString => EmptyString
  | String a r => if decide (a = c) then removeAll c r else String a (removeAll c r)
  end.

(** [xs.includes(s)] on an array of strings. *)
Definition includes (xs : list string) (s : string) : bool := bool_decide (s ∈ xs).

Definition digit (c : ascii) : option Z :=
  if (48 <=? code c)%N && (code c <=? 57)%N then Some (Z.of_N (code c) - 48)%Z else None.

(** The longest prefix of decimal digits: its value on top of [acc], how
    many digits it has, and what follows it. *)
Fixpoint digits (s : string) (acc : Z) (n : nat) : Z * nat * string :=
  match s with
  | String c r =>
      match digit c with
      | Some d => digits r (10 * acc + d)%Z (S n)
      | None => (acc, n, s)
      end
  | EmptyString => (acc, n, EmptyString)
  end.

(** An optional sign: [true] for a minus. *)
Definition sign (s : string) : bool * string :=
  match s with
  | String "-" r => (true, r)
  | String "+" r => (false, r)
  | _ => (false, s)
  end.

Definition negate_if (neg : bool) (n : number) : number :=
  match n with
  | Fin q => Fin (if neg then - q else q)
  | PosInf => if neg then NegInf else PosInf
  | NegInf => if neg then PosInf else NegInf
  | NaN => NaN
  end.

(** [parseInt(s, 10)]: leading white space, a sign, then as many decimal
    digits as there are; NaN when there is none. *)
Definition parseInt10 (s : string) : number :=
  let '(neg, r) := sign (trimStart s) in
  let '(v, n, _) := digits r 0 0 in
  match n with
  | O => NaN
  | S _ => negate_if neg (Num.fl (inject_Z v))
  end.

(** [m * 10^e] as an exact rational. *)
Definition scale10 (m e : Z) : Q :=
  if (0 <=? e)%Z then inject_Z (m * 10 ^ e) else Qmake m (Z.to_pos (10 ^ (- e))).

(** A digit of radix [b] (2, 8 or 16). *)
Definition radix_digit (b : Z) (c : ascii) : option Z :=
  let n := Z.of_N (code c) in
  let d := if (48 <=? n)%Z && (n <=? 57)%Z then Some (n - 48)%Z
           else if (97 <=? n)%Z && (n <=? 102)%Z then Some (n - 87)%Z
           else if (65 <=? n)%Z && (n <=? 70)%Z then Some (n - 55)%Z
           else None in
  match d with
  | Some v => if (v <? b)%Z then Some v else None
  | None => None
  end.

Fixpoint radix_digits (b : Z) (s : string) (acc : Z) : option Z :=
  match s with
  | EmptyString => Some acc
  | String c r =>
      match radix_digit b c with
      | Some d => radix_digits b r (b * acc + d)%Z
      | None => None
      end
  end.

(** [0x..], [0o..], [0b..]: at least one digit, nothing else. *)
Definition nonDecimal (b : Z) (r : string) : number :=
  match r with
  | EmptyString => NaN
  | _ => match radix_digits b r 0 with
         | Some v => Num.fl (inject_Z v)
         | None => NaN
         end
  end.

(** The exponent part of a decimal literal, which must end the string:
    [Some 0] when there is none. *)
Definition exponent (r : string) : option Z :=
  match r with
  | EmptyString => Some 0%Z
  | String c r' =>
      if decide (c = "e"%char ∨ c = "E"%char) then
        let '(neg, r'') := sign r' in
        match digits r'' 0 0 with
        | (v, S _, EmptyString) => Some (if neg then - v else v)%Z
        | _ => None
        end
      else None
  end.

(** An unsigned decimal literal: [Infinity], or digits with an optional
    fraction, or a fraction alone, each with an optional exponent. *)
Definition unsignedDecimal (s : string) : number :=
  if decide (s = "Infinity") then PosInf else
  let '(i, ni, r1) := digits s 0 0 in
  match r1 with
  | String "." r2 =>
      let '(m, nf, r3) := digits r2 i 0 in
      match (ni + nf)%nat, exponent r3 with
      | S _, Some e => Num.fl (scale10 m (e - Z.of_nat nf))
      | _, _ => NaN
      end
  | _ =>
      match ni, exponent r1 with
      | S _, Some e => Num.fl (scale10 i e)
      | _, _ => NaN
      end
  end.

(** [Number(s)] on a string: white space around an optional numeric
    literal; the empty literal is zero, anything unparseable NaN. *)
Definition StringToNumber (s : string) : number :=
  match trim s with
  | EmptyString => Num.zero
  | String "0" (String "x" r) | String "0" (String "X" r) => nonDecimal 16 r
  | String "0" (String "o" r) | String "0" (String "O" r) => nonDecimal 8 r
  | String "0" (String "b" r) | String "0" (String "B" r) => nonDecimal 2 r
  | t => let '(neg, r) := sign t in negate_if neg (unsignedDecimal r)
  end.

Definition digit_char (d : Z) : ascii := ascii_of_N (Z.to_N (48 + d)).

(** The decimal digits of a natural number, most significant first. *)
Fixpoint nat_digits (fuel : nat) (n : Z) (acc : string) : string :=
  match fuel with
  | O => acc
  | S f =>
      let acc' := String (digit_char (n mod 10)) acc in
      if (n <? 10)%Z then acc' else nat_digits f (n / 10) acc'
  end.

Definition Z_digits (n : Z) : string := nat_digits (S (Z.to_nat (Z.log2 n))) n "".

(** The digits after the decimal point of [r / d], until the remainder
    vanishes (at most [fuel] of them). *)
Fixpoint fraction_digits (fuel : nat) (r d : Z) : string :=
  match fuel with
  | O => EmptyString
  | S f =>
      if (r =? 0)%Z then EmptyString
      else String (digit_char (10 * r / d)) (fraction_digits f ((10 * r) mod d) d)
  end.

(** [String(n)] in plain decimal notation, which is what the engine
    prints for integers below [1e21] and for short decimal fractions. *)
Definition NumberToString (n : number) : string :=
  match n with
  | NaN => "NaN"
  | PosInf => "Infinity"
  | NegInf => "-Infinity"
  | Fin q =>
      let a := Z.abs (Qnum q) in
      let d := Zpos (Qden q) in
      let frac := fraction_digits 20 (a mod d) d in
      (if (Qnum q <? 0)%Z then "-" else "") +:+ Z_digits (a / d) +:+
      (match frac with EmptyString => "" | _ => "." +:+ frac end)
  end.

End Str.

(* ------------------------------------------------------------------ *)
(** * Values and exceptions *)

Inductive value : Type :=
| VUndefined
| VNull
| VBool (b : bool)
| VNum (n : number)
| VStr (s : string).

(** Truthiness, as [!v], [v || d] and [if (v)] test it. *)
Definition truthy (v : value) : bool :=
  match v with
  | VUndefined | VNull => false
  | VBool b => b
  | VNum NaN => false
  | VNum (Fin q) => negb (Qeq_bool q 0)
  | VNum _ => true
  | VStr s => negb (bool_decide (s = ""))
  end.

(** [v || d]. *)
Definition or_else (v d : value) : value := if truthy v then v else d.

(** [v == null]. *)
Definition is_nullish (v : value) : bool :=
  match v with VUndefined | VNull => true | _ => false end.

(** [String(v)]. *)
Definition ToString (v : value) : string :=
  match v with
  | VUndefined => "undefined"
  | VNull => "null"
  | VBool b => if b then "true" else "false"
  | VNum n => Str.NumberToString n
  | VStr s => s
  end.

(** [Number(v)]. *)
Definition ToNumber (v : value) : number :=
  match v with
  | VUndefined => NaN
  | VNull => Num.zero
  | VBool b => if b then Num.one else Num.zero
  | VNum n => n
  | VStr s => Str.StringToNumber s
  end.

(** [Number.isFinite(v)]: no coercion, only a finite number passes. *)
Definition Number_isFinite (v : value) : bool :=
  match v with VNum n => Num.isFinite n | _ => false end.

(** [a === b]. *)
Definition strict_eq (a b : value) : bool :=
  match a, b with
  | VUndefined, VUndefined | VNull, VNull => true
  | VBool x, VBool y => bool_decide (x = y)
  | VNum x, VNum y => Num.eqb x y
  | VStr x, VStr y => bool_decide (x = y)
  | _, _ => false
  end.

(** The equality of [Set] membership: [===] except that NaN equals itself. *)
Definition same_value_zero (a b : value) : bool :=
  match a, b with
  | VNum NaN, VNum NaN => true
  | _, _ => strict_eq a b
  end.

Inductive error : Type :=
| TypeError (msg : string)
| Error (msg : string).

Inductive result (A : Type) : Type :=
| Ok (a : A)
| Throw (e : error).
Arguments Ok {A} a.
Arguments Throw {A} e.

Global Instance result_ret : MRet result := @Ok.
Global Instance result_bind : MBind result := λ A B f r,
  match r with Ok a => f a | Throw e => Throw e end.
Global Instance result_fmap : FMap result := λ A B f r,
  match r with Ok a => Ok (f a) | Throw e => Throw e end.

Definition returns {A} (r : result A) : Prop := ∃ a, r = Ok a.

(** [v.toUpperCase()] and [v.toLowerCase()] on a value of unknown type: a
    method of strings only. *)
Definition call_toUpperCase (v : value) : result string :=
  match v with
  | VStr s => Ok (Str.toUpperCase s)
  | _ => Throw (TypeError "toUpperCase is not a function")
  end.

Definition call_toLowerCase (v : value) : result string :=
  match v with
  | VStr s => Ok (Str.toLowerCase s)
  | _ => Throw (TypeError "toLowerCase is not a function")
  end.

(* ------------------------------------------------------------------ *)
(** * The data model (types.ts and the GeoJSON typings) *)

(** [Properties = Record<string, any>]: own keys in enumeration order. *)
Abbreviation Properties := (list (string * value)).

(** [props[key]]. *)
Fixpoint get (props : Properties) (key : string) : value :=
  match props with
  | [] => VUndefined
  | (k, v) :: rest => if decide (k = key) then v else get rest key
  end.

(** [props[key] = v]: an existing key keeps its place, a new one goes last. *)
Fixpoint set (props : Properties) (key : string) (v : value) : Properties :=
  match props with
  | [] => [(key, v)]
  | (k, w) :: rest =>
      if decide (k = key) then (k, v) :: rest else (k, w) :: set rest key v
  end.

(** [Object.keys(props)]. *)
Definition keys (props : Properties) : list string := props.*1.

Definition Position := list number.

#[warnings="-register-all"]
Inductive Geometry : Type :=
| Point (coordinates : Position)
| MultiPoint (coordinates : list Position)
| LineString (coordinates : list Position)
| MultiLineString (coordinates : list (list Position))
| Polygon (coordinates : list (list Position))
| MultiPolygon (coordinates : list (list (list Position)))
| GeometryCollection (geometries : list Geometry)
| OtherGeometry (type : string).

Record GeoFeature : Type := mkFeature {
  geometry : option Geometry;
  properties : option Properties
}.

(** A [FeatureCollection]; [features] may be missing from a payload that
    was only cast to the type. *)
Record GeoCollection : Type := mkCollection {
  ctype : string;
  features : option (list GeoFeature)
}.

Definition FeatureCollection (fs : list GeoFeature) : GeoCollection :=
  {| ctype := "FeatureCollection"; features := Some fs |}.

(** [feature.properties || {}]. *)
Definition props_of (feature : GeoFeature) : Properties :=
  default [] (properties feature).

(** [data.features || []] and [data?.features?.length]. *)
Definition features_of (data : GeoCollection) : list GeoFeature :=
  default [] (features data).

Definition features_length (data : option GeoCollection) : nat :=
  match data with
  | Some d => length (features_of d)
  | None => 0
  end.

Definition BBox : Type := number * number * number * number.

Record MapMetadata : Type := mkMetadata {
  states : list string;
  sa2ByState : list (string * list value);
  totalBounds : option BBox;
  stateCenters : list (string * (number * number));
  propertyNames : list string;
  count : nat;
  iradRange : option (number * number);
  seifaColumns : list string
}.

Record TransitLayers : Type := mkTransit {
  train : option GeoCollection;
  bus : option GeoCollection;
  other : option GeoCollection;
  all : option GeoCollection
}.

Record SchoolsSummary : Type := mkSchoolsSummary {
  schools_count : nat;
  sectorCounts : gmap string nat;
  remoteCounts : gmap string nat;
  stageCounts : gmap string nat
}.

Record CatchmentsSummary : Type := mkCatchmentsSummary {
  catchments_count : nat;
  levels : gmap string nat
}.

Record ArcgisManifestEntry : Type := mkEntry { name : string; file : string }.
Record ArcgisManifest : Type := mkManifest { layers : list ArcgisManifestEntry }.

(** The snapshot of one load.  The interface also declares [stops], which
    the loader never sets. *)
Record MapData : Type := mkMapData {
  sa1 : GeoCollection;
  metadata : MapMetadata;
  transit : TransitLayers;
  schools : option GeoCollection;
  schoolsSummary : option SchoolsSummary;
  schoolsWarning : option string;
  rankingWarning : option string;
  catchments : gmap string GeoCollection;
  catchmentsSummary : option CatchmentsSummary;
  catchmentsWarning : option string;
  transitWarning : option string;
  seifaWarning : option string;
  arcgisManifest : ArcgisManifest
}.

(* ------------------------------------------------------------------ *)
(** * geojson.ts *)

(** An entry of the [points] accumulator: what was pushed, a position
    whose components may be [undefined] ([None]). *)
Definition Entry := list (option number).

Definition entry_of (coord : Position) : Entry := Some <$> coord.

(** [flattenCoords(geometry, points)] on a geometry that is not null: the
    accumulator after the pushes. *)
Fixpoint flattenGeometry (g : Geometry) (points : list Entry) : list Entry :=
  match g with
  | Point coordinates =>
      let lon := coordinates !! 0%nat in
      let lat := coordinates !! 1%nat in
      points ++ [[lon; lat]]
  | MultiPoint coordinates | LineString coordinates =>
      foldl (λ pts coord, pts ++ [entry_of coord]) points coordinates
  | MultiLineString coordinates | Polygon coordinates =>
      foldl (λ pts ring,
               foldl (λ pts coord, pts ++ [entry_of coord]) pts ring)
            points coordinates
  | MultiPolygon coordinates =>
      foldl (λ pts polygon,
               foldl (λ pts ring,
                        foldl (λ pts coord, pts ++ [entry_of coord]) pts ring)
                     pts polygon)
            points coordinates
  | GeometryCollection geometries =>
      foldl (λ pts geom, flattenGeometry geom pts) points geometries
  | OtherGeometry _ => points
  end.

Definition flattenCoords (geometry : option Geometry) (points : list Entry) : list Entry :=
  match geometry with
  | None => points
  | Some g => flattenGeometry g points
  end.

(** [Number.isFinite] on a destructured component. *)
Definition finite_component (c : option number) : bool :=
  match c with Some n => Num.isFinite n | None => false end.

(** The four running extremes of [computeBounds]. *)
Definition bounds_init : BBox := (PosInf, PosInf, NegInf, NegInf).

Definition bounds_step (acc : BBox) (p : Entry) : BBox :=
  let '(minLon, minLat, maxLon, maxLat) := acc in
  match mjoin (p !! 0%nat), mjoin (p !! 1%nat) with
  | Some lon, Some lat =>
      if Num.isFinite lon && Num.isFinite lat
      then (Num.min2 minLon lon, Num.min2 minLat lat,
            Num.max2 maxLon lon, Num.max2 maxLat lat)
      else acc
  | _, _ => acc
  end.

(** [computeBounds(collection)], called on a collection or on an array. *)
Definition computeBounds (collection : GeoCollection + list GeoFeature) : option BBox :=
  let features :=
    match collection with
    | inr fs => fs
    | inl c => features_of c
    end in
  let points := foldl (λ pts feature, flattenCoords (geometry feature) pts) [] features in
  match points with
  | [] => None
  | _ =>
      let '(minLon, minLat, maxLon, maxLat) := foldl bounds_step bounds_init points in
      if negb (Num.isFinite minLon) || negb (Num.isFinite minLat)
         || negb (Num.isFinite maxLon) || negb (Num.isFinite maxLat)
      then None
      else Some (minLon, minLat, maxLon, maxLat)
  end.

(** [set.add(x)] on a [Set] kept as the list of its elements in insertion
    order. *)
Definition set_add_string (x : string) (s : list string) : list string :=
  if bool_decide (x ∈ s) then s else s ++ [x].

Definition set_add_value (x : value) (s : list value) : list value :=
  if existsb (same_value_zero x) s then s else s ++ [x].

(** A dictionary object kept as the list of its entries in insertion
    order, which is the order [Object.keys] and [Object.entries] follow for
    keys that are names (a key that reads as an array index would come
    first). *)
Fixpoint dict_get {A} (d : list (string * A)) (key : string) : option A :=
  match d with
  | [] => None
  | (k, a) :: rest => if decide (k = key) then Some a else dict_get rest key
  end.

Fixpoint dict_set {A} (d : list (string * A)) (key : string) (a : A) : list (string * A) :=
  match d with
  | [] => [(key, a)]
  | (k, b) :: rest =>
      if decide (k = key) then (k, a) :: rest else (k, b) :: dict_set rest key a
  end.

(** [xs.sort()] with the default comparator: elements are compared through
    their string conversion, code unit by code unit, and the sort is
    stable. *)
Fixpoint sort_insert {A} (key : A → string) (x : A) (sorted : list A) : list A :=
  match sorted with
  | [] => [x]
  | y :: rest =>
      if String.leb (key y) (key x) then y :: sort_insert key x rest
      else x :: y :: rest
  end.

Definition sort_by {A} (key : A → string) (xs : list A) : list A :=
  foldl (λ sorted x, sort_insert key x sorted) [] xs.

Definition sort_strings : list string → list string := sort_by id.
Definition sort_values : list value → list value := sort_by ToString.

(** [Number(x.toFixed(6))]. *)
Definition round6 (x : number) : number :=
  match x with
  | Fin q =>
      if Qle_bool (inject_Z (10 ^ 21)) (Qabs q) then x
      else
        let n := Qfloor (Qabs q * inject_Z (10 ^ 6) + (1 # 2)) in
        Fin (Qmake (if Qle_bool 0 q then n else - n) (Z.to_pos (10 ^ 6)))
  | _ => x
  end.

(** The accumulators of [buildMetadata]'s first pass. *)
Record MetaAcc : Type := mkAcc {
  acc_propertyNames : list string;
  acc_sa2ByState : list (string * list value);
  acc_iradValues : list number
}.

(** The names every object inherits from [Object.prototype]: a lookup
    [object[name]] finds a function (or, for [__proto__], the prototype
    itself) when [name] is one of them and not an own key. *)
Definition Object_prototype_names : list string :=
  ["constructor"; "__defineGetter__"; "__defineSetter__"; "hasOwnProperty";
   "__lookupGetter__"; "__lookupSetter__"; "isPrototypeOf"; "propertyIsEnumerable";
   "toString"; "valueOf"; "__proto__"; "toLocaleString"].

Definition inherited (key : string) : bool := Str.includes Object_prototype_names key.

(** One turn of the first loop.  A state named like an inherited member is
    never given a set of its own, since [sa2ByState[state]] is then truthy
    from the start; and [sa2ByState[state].add(sa2)] throws, the member
    having no [add]. *)
Definition meta_step (acc : MetaAcc) (feature : GeoFeature) : result MetaAcc :=
  let props := props_of feature in
  let propertyNames := foldl (λ s name, set_add_string name s) (acc_propertyNames acc) (keys props) in
  let state := get props "STE_NAME21" in
  let sa2 := get props "SA2_NAME21" in
  sa2ByState ←
    (if truthy state then
       let key := ToString state in
       if inherited key then
         if truthy sa2 then Throw (TypeError "sa2ByState[state].add is not a function")
         else Ok (acc_sa2ByState acc)
       else
         let d := match dict_get (acc_sa2ByState acc) key with
                  | None => dict_set (acc_sa2ByState acc) key []
                  | Some _ => acc_sa2ByState acc
                  end in
         Ok (if truthy sa2
             then dict_set d key (set_add_value sa2 (default [] (dict_get d key)))
             else d)
     else Ok (acc_sa2ByState acc));
  let decile := ToNumber (get props "IRAD_decile") in
  let iradValues :=
    if negb (Num.isNaN decile) then acc_iradValues acc ++ [decile]
    else acc_iradValues acc in
  Ok (mkAcc propertyNames sa2ByState iradValues).

(** The first loop: it stops at the first exception. *)
Fixpoint meta_loop (acc : MetaAcc) (fs : list GeoFeature) : result MetaAcc :=
  match fs with
  | [] => Ok acc
  | f :: rest => acc' ← meta_step acc f; meta_loop acc' rest
  end.

(** The second pass: the centre of each state's bounds. *)
Definition center_step (data : GeoCollection)
    (stateCenters : list (string * (number * number))) (entry : string * list value)
    : list (string * (number * number)) :=
  let state := entry.1 in
  let subset :=
    filter (λ feature, strict_eq (get (props_of feature) "STE_NAME21") (VStr state) = true)
           (features_of data) in
  match computeBounds (inr subset) with
  | Some (minLon, minLat, maxLon, maxLat) =>
      dict_set stateCenters state
        (round6 (Num.half (Num.add minLat maxLat)),
         round6 (Num.half (Num.add minLon maxLon)))
  | None => stateCenters
  end.

Definition seifa_prefixes : list string := ["IRSD_"; "IRAD_"; "IER_"; "IEO_"].

Definition is_seifa_column (name : string) : bool :=
  existsb (λ prefix, Str.startsWith prefix name) seifa_prefixes
  || bool_decide (name = "URP").

Definition buildMetadata (data : GeoCollection) : result MapMetadata :=
  acc ← meta_loop (mkAcc [] [] []) (features_of data);
  let stateCenters := foldl (center_step data) [] (acc_sa2ByState acc) in
  let seifaColumns := filter (λ name, is_seifa_column name = true) (acc_propertyNames acc) in
  Ok {| states := sort_strings (acc_sa2ByState acc).*1;
        sa2ByState := prod_map id sort_values <$> acc_sa2ByState acc;
        totalBounds := computeBounds (inl data);
        stateCenters := stateCenters;
        propertyNames := acc_propertyNames acc;
        count := length (features_of data);
        iradRange :=
          match acc_iradValues acc with
          | [] => None
          | vs => Some (Num.min_list vs, Num.max_list vs)
          end;
        seifaColumns := seifaColumns |}.

(* ------------------------------------------------------------------ *)
(** * schools.ts *)

(** [normalize] of [computeStage]: [(value || "").toUpperCase()]. *)
Definition normalize (v : value) : result string :=
  call_toUpperCase (or_else v (VStr "")).

(** [toInt] of [computeStage]; [None] is its [null]. *)
Definition toInt (v : string) : option number :=
  if Str.startsWith "Y" v && bool_decide (3 ≤ Str.length v) then
    let parsed := Str.parseInt10 (Str.substring 1 3 v) in
    if Num.isNaN parsed then None else Some parsed
  else None.

Definition kinder_codes : list string := ["KIN"; "PP"; "P"].

(** [n <= 6] and [n >= 7] on a parsed year. *)
Definition year_le_6 (n : number) : bool := Num.leb n (Fin 6).
Definition year_ge_7 (n : number) : bool := Num.leb (Fin 7) n.

Definition computeStage (lowYear highYear : value) : result string :=
  low ← normalize lowYear;
  high ← normalize highYear;
  let lowNum := toInt low in
  let highNum := toInt high in
  let hasPrimary := false in
  let hasSecondary := false in
  let hasPrimary :=
    if Str.includes kinder_codes low || Str.includes kinder_codes high
    then true else hasPrimary in
  let '(hasPrimary, hasSecondary) :=
    match lowNum with
    | Some n => (if year_le_6 n then true else hasPrimary,
                 if year_ge_7 n then true else hasSecondary)
    | None => (hasPrimary, hasSecondary)
    end in
  let '(hasPrimary, hasSecondary) :=
    match highNum with
    | Some n => (if year_le_6 n then true else hasPrimary,
                 if year_ge_7 n then true else hasSecondary)
    | None => (hasPrimary, hasSecondary)
    end in
  if hasPrimary && hasSecondary then Ok "combined"
  else if hasPrimary then Ok "primary"
  else if hasSecondary then Ok "secondary"
  else Ok "other".

(** The callback of [ensureSchoolStages]: the feature as it is after the
    two assignments.  The source assigns into the feature object and
    returns that same object, so the features of the result are the
    features of the input, in the state described here. *)
Definition ensure_stage (feature : GeoFeature) : result GeoFeature :=
  let props := props_of feature in
  if negb (truthy (get props "stage")) then
    stage ← computeStage (get props "lowyear") (get props "highyear");
    Ok {| geometry := geometry feature;
          properties := Some (set props "stage" (VStr stage)) |}
  else
    Ok {| geometry := geometry feature; properties := Some props |}.

Definition ensureSchoolStages (collection : option GeoCollection)
    : result (option GeoCollection) :=
  match collection with
  | None => Ok None
  | Some c =>
      mutated ← match features c with
                | Some fs => Some <$> mapM ensure_stage fs
                | None => Ok None
                end;
      Ok (Some {| ctype := ctype c; features := Some (default [] mutated) |})
  end.

(** [counts[key] = (counts[key] || 0) + 1]. *)
Definition bump (key : string) (counts : gmap string nat) : gmap string nat :=
  <[key := default 0 (counts !! key) + 1]> counts.

Definition stageCounts_init : gmap string nat :=
  <["other" := 0]> (<["combined" := 0]> (<["secondary" := 0]> (<["primary" := 0]> ∅))).

Definition summary_step (acc : SchoolsSummary) (feature : GeoFeature) : result SchoolsSummary :=
  let props := props_of feature in
  let sector := Str.trim (ToString (or_else (get props "sector") (VStr ""))) in
  let sectorCounts :=
    if bool_decide (sector ≠ "") then bump sector (sectorCounts acc) else sectorCounts acc in
  let remote := Str.trim (ToString (or_else (get props "remotearea") (VStr ""))) in
  let remoteCounts :=
    if bool_decide (remote ≠ "") then bump remote (remoteCounts acc) else remoteCounts acc in
  stage ← call_toLowerCase (or_else (get props "stage") (VStr "other"));
  let stageCounts :=
    match stageCounts acc !! stage with
    | Some n => <[stage := n + 1]> (stageCounts acc)
    | None => <["other" := default 0 (stageCounts acc !! "other") + 1]> (stageCounts acc)
    end in
  Ok {| schools_count := schools_count acc;
        sectorCounts := sectorCounts;
        remoteCounts := remoteCounts;
        stageCounts := stageCounts |}.

(** The loop of [summarizeSchools]: it stops at the first exception. *)
Fixpoint summary_loop (acc : SchoolsSummary) (fs : list GeoFeature) : result SchoolsSummary :=
  match fs with
  | [] => Ok acc
  | f :: rest => acc' ← summary_step acc f; summary_loop acc' rest
  end.

Definition summarizeSchools (collection : option GeoCollection)
    : result (option SchoolsSummary) :=
  match features_length collection, collection with
  | S _, Some c =>
      Some <$> summary_loop
        {| schools_count := length (features_of c);
           sectorCounts := ∅; remoteCounts := ∅;
           stageCounts := stageCounts_init |}
        (features_of c)
  | _, _ => Ok None
  end.

Definition parsePercentile (v : value) : option number :=
  if is_nullish v then None else
  match v with
  | VNum n => if Num.isFinite n then Some n else None
  | VStr s =>
      let cleaned := Str.trim (Str.removeAll "%" s) in
      if bool_decide (cleaned = "") then None else
      let parsed := Str.StringToNumber cleaned in
      if Num.isFinite parsed then Some parsed else None
  | _ => None
  end.

(* ------------------------------------------------------------------ *)
(** * loaders.ts *)

(** What one [fetch] of an asset can come to. *)
Inductive Fetch (T : Type) : Type :=
| Rejected                      (* the request itself failed *)
| NotOk (statusText : string)   (* a response whose [ok] is false *)
| Unparseable                   (* the body is not JSON *)
| Json (payload : option T).    (* the parsed body; [None] is JSON [null] *)
Arguments Rejected {T}.
Arguments NotOk {T} statusText.
Arguments Unparseable {T}.
Arguments Json {T} payload.

Definition fetchJson {T} (response : Fetch T) : option T :=
  match response with
  | Json payload => payload
  | _ => None
  end.

Definition route_type_keys : list string := ["ROUTETYPE"; "RouteType"; "route_type"].

(** [routeType] of [groupTransitLayers]. *)
Definition routeType (feature : GeoFeature) : string :=
  let props := props_of feature in
  let fix first (ks : list string) : string :=
    match ks with
    | [] => ""
    | key :: rest =>
        if negb (is_nullish (get props key))
        then Str.toLowerCase (Str.trim (ToString (get props key)))
        else first rest
    end in
  first route_type_keys.

Definition no_layers : TransitLayers :=
  {| train := None; bus := None; other := None; all := None |}.

(** [if (c.features.length) layers.k = c]. *)
Definition layer_if_any (c : GeoCollection) : option GeoCollection :=
  match features_of c with
  | [] => None
  | _ => Some c
  end.

Definition groupTransitLayers (data : option GeoCollection) : TransitLayers :=
  match features_length data, data with
  | S _, Some data =>
      let makeCollection (predicate : GeoFeature → bool) : GeoCollection :=
        FeatureCollection (filter (λ f, predicate f = true) (features_of data)) in
      let train := makeCollection (λ feature, bool_decide (routeType feature = "train")) in
      let bus := makeCollection (λ feature,
                   Str.includes ["standard"; "cat"; "school"] (routeType feature)) in
      let other := makeCollection (λ feature,
                   negb (Str.includes ["train"; "standard"; "cat"; "school"] (routeType feature))) in
      let layers_train := layer_if_any train in
      let layers_bus := layer_if_any bus in
      let layers_other := layer_if_any other in
      {| train := layers_train; bus := layers_bus; other := layers_other;
         all := match layers_train, layers_bus, layers_other with
                | None, None, None => Some data
                | _, _, _ => None
                end |}
  | _, _ => no_layers
  end.

Record CatchmentsResult : Type := mkCatchments {
  cr_layers : gmap string GeoCollection;
  cr_summary : option CatchmentsSummary;
  cr_warning : option string
}.

(** [collect(level)] of [summarizeCatchments]. *)
Definition collect (data : GeoCollection) (level : string)
    (layers : gmap string GeoCollection) : gmap string GeoCollection :=
  let features :=
    filter (λ feature, strict_eq (get (props_of feature) "catchment_level") (VStr level) = true)
           (features_of data) in
  match features with
  | [] => layers
  | _ => <[level := FeatureCollection features]> layers
  end.

Definition summarizeCatchments (data : option GeoCollection) : CatchmentsResult :=
  match features_length data, data with
  | S _, Some data =>
      let layers := collect data "other" (collect data "high" (collect data "primary" ∅)) in
      {| cr_layers := layers;
         cr_summary := Some {| catchments_count := length (features_of data);
                               levels := (λ layer, length (features_of layer)) <$> layers |};
         cr_warning := None |}
  | _, _ =>
      {| cr_layers := ∅; cr_summary := None;
         cr_warning := Some "Catchment GeoJSON not found or empty." |}
  end.

Definition loadArcgisManifest (response : Fetch ArcgisManifest) : ArcgisManifest :=
  match fetchJson response with
  | None => {| layers := [] |}
  | Some manifest => manifest
  end.

(** The five requests of one load, each with what it came to. *)
Record Assets : Type := mkAssets {
  SA1_FILE : Fetch GeoCollection;
  TRANSIT_FILE : Fetch GeoCollection;
  SCHOOLS_FILE : Fetch GeoCollection;
  CATCHMENTS_FILE : Fetch GeoCollection;
  ARCGIS_MANIFEST : Fetch ArcgisManifest
}.

Definition ranking_warning : string :=
  "Ranking attributes missing from processed schools GeoJSON. Re-run scripts/prep_geojson.py --schools with the ranking XML.".

(** [loadMapData()]: none of the five promises rejects, so the order in
    which they settle does not show; what follows the [await] is
    sequential. *)
Definition loadMapData (assets : Assets) : result MapData :=
  let sa1 := fetchJson (SA1_FILE assets) in
  let transitSource := fetchJson (TRANSIT_FILE assets) in
  let schools := fetchJson (SCHOOLS_FILE assets) in
  let catchmentsSource := fetchJson (CATCHMENTS_FILE assets) in
  let arcgisManifest := loadArcgisManifest (ARCGIS_MANIFEST assets) in
  match sa1 with
  | None => Throw (Error "SA1 dataset is required. Ensure assets are generated under /assets.")
  | Some sa1 =>
      metadata ← buildMetadata sa1;
      let transit := groupTransitLayers transitSource in
      stagedSchools ← ensureSchoolStages schools;
      schoolsSummary ← summarizeSchools stagedSchools;
      let c := summarizeCatchments catchmentsSource in
      let rankingWarning :=
        match features_length stagedSchools, stagedSchools with
        | S _, Some s =>
            let hasRanking :=
              existsb (λ feature,
                         match properties feature with
                         | Some props => negb (is_nullish (get props "ranking_rank"))
                         | None => false
                         end) (features_of s) in
            if negb hasRanking then Some ranking_warning else None
        | _, _ => None
        end in
      Ok {| sa1 := sa1;
            metadata := metadata;
            transit := transit;
            schools := stagedSchools;
            schoolsSummary := schoolsSummary;
            catchments := cr_layers c;
            catchmentsSummary := cr_summary c;
            catchmentsWarning := cr_warning c;
            transitWarning :=
              match transitSource with
              | Some _ => None
              | None => Some "Transit GeoJSON missing from assets."
              end;
            schoolsWarning :=
              match stagedSchools with
              | Some _ => None
              | None => Some "Schools GeoJSON missing from assets."
              end;
            rankingWarning := rankingWarning;
            seifaWarning :=
              match seifaColumns metadata with
              | [] => Some "SEIFA fields missing from SA1 GeoJSON."
              | _ => None
              end;
            arcgisManifest := arcgisManifest |}
  end.

(* ------------------------------------------------------------------ *)
(** * geojson.ts, continued: map centre, tooltip fields, colour ramp *)

(** [s.endsWith(suffix)]. *)
Definition endsWith (suffix s : string) : bool :=
  bool_decide (String.length suffix ≤ String.length s
               ∧ Str.drop (String.length s - String.length suffix) s = suffix).

Definition STATE_CAPITALS : list (string * (number * number)) :=
  [("Australian Capital Territory", (Fin (-352931 # 10000), Fin (1491269 # 10000)));
   ("New South Wales", (Fin (-338678 # 10000), Fin (15121 # 100)));
   ("Northern Territory", (Fin (-124381 # 10000), Fin (1308411 # 10000)));
   ("Queensland", (Fin (-274678 # 10000), Fin (1530281 # 10000)));
   ("South Australia", (Fin (-349275 # 10000), Fin (1386 # 10)));
   ("Tasmania", (Fin (-428806 # 10000), Fin (147325 # 1000)));
   ("Victoria", (Fin (-378142 # 10000), Fin (1449631 # 10000)));
   ("Western Australia", (Fin (-319559 # 10000), Fin (1158606 # 10000)))].

(** The centre of the continent, the last resort of [getMapCenter]. *)
Definition DEFAULT_CENTER : number * number :=
  (Fin (-252744 # 10000), Fin (1337751 # 10000)).

(** [getMapCenter(meta, state)].  The capitals and the centres are looked
    up among the own keys of the two tables: a state named like a member
    every object inherits ([inherited]) is outside this definition. *)
Definition getMapCenter (meta : MapMetadata) (state : option string) : number * number :=
  let rest :=
    match totalBounds meta with
    | Some (minLon, minLat, maxLon, maxLat) =>
        (Num.half (Num.add minLat maxLat), Num.half (Num.add minLon maxLon))
    | None => DEFAULT_CENTER
    end in
  match state with
  | Some s =>
      if bool_decide (s ≠ "") then
        match dict_get STATE_CAPITALS s with
        | Some capital => capital
        | None =>
            match dict_get (stateCenters meta) s with
            | Some computed => computed
            | None => rest
            end
        end
      else rest
  | None => rest
  end.

Definition SCORE_SUFFIXES : list string := ["_score"; "_Score"].

Definition SEIFA_DISPLAY : list (string * string) :=
  [("IRSD_score", "IRSD score"); ("IRSD_decile", "IRSD decile");
   ("IRAD_score", "IRAD score"); ("IRAD_decile", "IRAD decile");
   ("IER_score", "IER score"); ("IER_decile", "IER decile");
   ("IEO_score", "IEO score"); ("IEO_decile", "IEO decile");
   ("URP", "URP")].

Record TooltipFields : Type := mkTooltip {
  fields : list string;
  aliases : list string
}.

(** [add] of [buildTooltipFields]. *)
Definition add_pick (propertyNames : list string) (picks : list (string * string))
    (field label : string) : list (string * string) :=
  if Str.includes propertyNames field then picks ++ [(field, label)] else picks.

Definition buildTooltipFields (propertyNames : list string) (extra : option (list string))
    : TooltipFields :=
  let add := add_pick propertyNames in
  let picks := add [] "SA1_NAME21" "SA1:" in
  let picks := add picks "SA2_NAME21" "SA2:" in
  let picks := add picks "SA3_NAME21" "SA3:" in
  let picks := add picks "STE_NAME21" "State:" in
  let picks :=
    match extra with
    | Some extra =>
        foldl (λ picks field,
                 if existsb (λ suffix, endsWith suffix field) SCORE_SUFFIXES then picks
                 else
                   let alias := default (field +:+ ":") (dict_get SEIFA_DISPLAY field) in
                   add picks field alias)
              picks extra
    | None => picks
    end in
  let picks :=
    match picks, propertyNames with
    | [], fallback :: _ => picks ++ [(fallback, fallback +:+ ":")]
    | _, _ => picks
    end in
  let picks :=
    match picks with
    | [] => picks ++ [("SA1_CODE21", "SA1 code:")]
    | _ => picks
    end in
  {| fields := picks.*1; aliases := picks.*2 |}.

(** Arithmetic of the colour ramp: binary64 operations on the values the
    operands stand for.  A zero is taken as positive where its sign would
    show (a division by it). *)
Module NumOps.

(** [a - b]. *)
Definition sub (a b : number) : number :=
  match Num.stored a, Num.stored b with
  | NaN, _ | _, NaN => NaN
  | PosInf, PosInf | NegInf, NegInf => NaN
  | PosInf, _ | _, NegInf => PosInf
  | NegInf, _ | _, PosInf => NegInf
  | Fin x, Fin y => Num.fl64 (x - y)
  end.

(** The sign of a number that is not NaN: [Lt], [Eq] or [Gt]. *)
Definition sgn (a : number) : comparison :=
  match a with
  | NegInf => Lt
  | PosInf => Gt
  | Fin x => (x ?= 0)%Q
  | NaN => Eq
  end.

Definition signed_inf (s1 s2 : comparison) : number :=
  match s1, s2 with
  | Lt, Lt | Gt, Gt => PosInf
  | Lt, Gt | Gt, Lt => NegInf
  | _, _ => NaN
  end.

(** [a * b]. *)
Definition mul (a b : number) : number :=
  match Num.stored a, Num.stored b with
  | NaN, _ | _, NaN => NaN
  | Fin x, Fin y => Num.fl64 (x * y)
  | a', b' => signed_inf (sgn a') (sgn b')
  end.

(** [a / b]. *)
Definition div (a b : number) : number :=
  match Num.stored a, Num.stored b with
  | NaN, _ | _, NaN => NaN
  | Fin x, Fin y =>
      if Qeq_bool y 0 then signed_inf (sgn (Fin x)) Gt else Num.fl64 (x / y)
  | Fin _, _ => Fin 0
  | a', Fin y => signed_inf (sgn a') (if Qeq_bool y 0 then Gt else sgn (Fin y))
  | _, _ => NaN
  end.

(** [Math.round(a)]: the nearest integer, a half going up. *)
Definition round (a : number) : number :=
  match a with
  | Fin x => Fin (inject_Z (Qfloor (x + (1 # 2))))
  | _ => a
  end.

End NumOps.

Definition hex_char (d : Z) : ascii :=
  if (d <? 10)%Z then ascii_of_N (Z.to_N (48 + d)) else ascii_of_N (Z.to_N (87 + d)).

(** The hexadecimal digits of a natural number, most significant first. *)
Fixpoint hex_digits (fuel : nat) (n : Z) (acc : string) : string :=
  match fuel with
  | O => acc
  | S f =>
      let acc' := String (hex_char (n mod 16)) acc in
      if (n <? 16)%Z then acc' else hex_digits f (n / 16) acc'
  end.

(** [n.toString(16)] on a number whose value is an integer, which is what
    a rounded channel is. *)
Definition toString16 (n : number) : string :=
  match n with
  | NaN => "NaN"
  | PosInf => "Infinity"
  | NegInf => "-Infinity"
  | Fin q =>
      let a := Qfloor (Qabs q) in
      (if Qle_bool 0 q then "" else "-") +:+ hex_digits (S (Z.to_nat (Z.log2 a))) a ""
  end.

(** [s.padStart(2, "0")]. *)
Definition padStart2 (s : string) : string :=
  match String.length s with
  | 0 => "00"
  | 1 => "0" +:+ s
  | _ => s
  end.

Definition Rgb : Type := number * number * number.

Definition interpolateColor (a b : Rgb) (t : number) : Rgb :=
  let channel (value target : number) : number :=
    NumOps.round (Num.add value (NumOps.mul (NumOps.sub target value) t)) in
  let '(a0, a1, a2) := a in
  let '(b0, b1, b2) := b in
  (channel a0 b0, channel a1 b1, channel a2 b2).

Definition GRADIENT_red : Rgb := (Fin 215, Fin 48, Fin 39).
Definition GRADIENT_yellow : Rgb := (Fin 254, Fin 224, Fin 139).
Definition GRADIENT_green : Rgb := (Fin 26, Fin 152, Fin 80).

Definition NO_DATA_COLOR : string := "#b0bec5".

(** The two halves of the gradient: red to yellow up to a half, yellow to
    green above it. *)
Definition ramp (ratio : number) : Rgb :=
  if Num.leb ratio (Fin (1 # 2)) then
    let local := NumOps.div ratio (Fin (1 # 2)) in
    interpolateColor GRADIENT_red GRADIENT_yellow local
  else
    let local := NumOps.div (NumOps.sub ratio (Fin (1 # 2))) (Fin (1 # 2)) in
    interpolateColor GRADIENT_yellow GRADIENT_green local.

(** The colour string of three channels. *)
Definition rgb_hex (rgb : Rgb) : string :=
  let '(r, g, b) := rgb in
  "#" +:+ padStart2 (toString16 r) +:+ padStart2 (toString16 g) +:+ padStart2 (toString16 b).

Definition colorForIradDecile (decile : value) (range : option (number * number)) : string :=
  match range with
  | None => NO_DATA_COLOR
  | Some (min, max) =>
      if is_nullish decile then NO_DATA_COLOR else
      let value := ToNumber decile in
      if Num.isNaN value then NO_DATA_COLOR else
      let ratio :=
        if Num.eqb min max then Fin (1 # 2)
        else Num.min2 (Fin 1)
               (Num.max2 (Fin 0) (NumOps.div (NumOps.sub value min) (NumOps.sub max min))) in
      rgb_hex (ramp ratio)
  end.

(* ------------------------------------------------------------------ *)
(** * schools.ts, continued: display helpers *)

(** [Number.isInteger(n)]. *)
Definition Number_isInteger (n : number) : bool :=
  match n with
  | Fin q => Qeq_bool (inject_Z (Qfloor q)) q
  | _ => false
  end.

(** [Math.trunc(n)]. *)
Definition Math_trunc (n : number) : number :=
  match n with
  | Fin q => Fin (inject_Z (Z.quot (Qnum q) (Zpos (Qden q))))
  | _ => n
  end.

(** The digits of [n], padded with zeros on the left to [width]. *)
Definition padded_digits (width : nat) (n : Z) : string :=
  let s := Str.Z_digits n in
  String.string_of_list_ascii (replicate (width - String.length s) "0"%char) +:+ s.

(** [n.toFixed(2)]: below [1e21] the nearest multiple of a hundredth, a
    half going away from zero, written with two decimals. *)
Definition toFixed2 (n : number) : string :=
  match n with
  | Fin q =>
      if Qle_bool (inject_Z (10 ^ 21)) (Qabs q) then Str.NumberToString n
      else
        let m := padded_digits 3 (Qfloor (Qabs q * inject_Z 100 + (1 # 2))) in
        let k := String.length m in
        (if Qle_bool 0 q then "" else "-")
        +:+ Str.take (k - 2) m +:+ "." +:+ Str.drop (k - 2) m
  | _ => Str.NumberToString n
  end.

(** [text || null] on a string. *)
Definition nonempty (text : string) : option string :=
  if bool_decide (text = "") then None else Some text.

Definition formatValue (v : value) : option string :=
  if is_nullish v then None else
  match v with
  | VNum n =>
      if negb (Num.isFinite n) then None
      else if Number_isInteger n then Some (Str.NumberToString n)
      else Some (toFixed2 n)
  | _ => nonempty (Str.trim (ToString v))
  end.

Definition formatSchoolCode (v : value) : option string :=
  if is_nullish v then None else
  match v with
  | VNum n => Some (Str.NumberToString (Math_trunc n))
  | _ =>
      let numeric := Str.StringToNumber (Str.trim (ToString v)) in
      if negb (Num.isNaN numeric) then Some (Str.NumberToString (Math_trunc numeric))
      else nonempty (Str.trim (ToString v))
  end.

(* ------------------------------------------------------------------ *)
(** * loaders.ts, continued: the ArcGIS query *)

(** [fetchArcgisGeojson] requests the URL made of a target, a question mark
    and the serialised parameters; these two parts are modelled here. *)

(** [s.replace(/\/?$/, "")]: the leftmost match is the final slash when
    there is one, and the empty end of the string otherwise. *)
Definition strip_final_slash (s : string) : string :=
  if endsWith "/" s then Str.take (String.length s - 1) s else s.

(** The [target] of [fetchArcgisGeojson]. *)
Definition query_target (url : string) : string :=
  if endsWith "/query" (Str.trim url) then Str.trim url
  else strip_final_slash (Str.trim url) +:+ "/query".

(** The characters [URLSearchParams] leaves as they are. *)
Definition form_safe (c : ascii) : bool :=
  let n := Str.code c in
  ((48 <=? n) && (n <=? 57) || (65 <=? n) && (n <=? 90) || (97 <=? n) && (n <=? 122)
   || (n =? 42) || (n =? 45) || (n =? 46) || (n =? 95))%N.

Definition upper_hex_char (d : N) : ascii :=
  if (d <? 10)%N then ascii_of_N (48 + d) else ascii_of_N (55 + d).

Definition form_encode_char (c : ascii) : string :=
  if form_safe c then String c ""
  else if decide (c = " "%char) then "+"
  else String "%" (String (upper_hex_char (Str.code c / 16))
                     (String (upper_hex_char (Str.code c mod 16)) "")).

(** The serialisation of one name or value of a [URLSearchParams]. *)
Fixpoint form_encode (s : string) : string :=
  match s with
  | EmptyString => EmptyString
  | String c r => form_encode_char c +:+ form_encode r
  end.

(** [new URLSearchParams({ where, outFields, f: "geojson" }).toString()]. *)
Definition query_params (where_ outFields : string) : string :=
  form_encode "where" +:+ "=" +:+ form_encode where_ +:+ "&"
  +:+ form_encode "outFields" +:+ "=" +:+ form_encode outFields +:+ "&"
  +:+ form_encode "f" +:+ "=" +:+ form_encode "geojson".

(* ------------------------------------------------------------------ *)
(** * kmz.ts *)

(** An uploaded file: its name, what [JSZip.loadAsync] makes of its bytes
    (the entries of the archive, name and text, in archive order, or the
    error it rejects with) and what [file.text()] makes of them. *)
Record File : Type := mkFile {
  file_name : string;
  file_archive : result (list (string * string));
  file_text : string
}.

(** [parseKmlText(text)], given the converter of the KML library: [None]
    is a falsy result. *)
Definition parseKmlText (kmlToGeojson : string → option GeoCollection) (text : string)
    : result GeoCollection :=
  match kmlToGeojson text with
  | Some geojson =>
      match features geojson with
      | Some _ => Ok geojson
      | None => Throw (Error "KML document did not contain features.")
      end
  | None => Throw (Error "KML document did not contain features.")
  end.

(** [extractKmlFromKmz(file)]: the text of the first entry whose name ends
    in [.kml], whatever the case. *)
Definition extractKmlFromKmz (file : File) : result string :=
  zip ← file_archive file;
  match filter (λ entry, endsWith ".kml" (Str.toLowerCase entry.1) = true) zip with
  | kmlEntry :: _ => Ok kmlEntry.2
  | [] => Throw (Error "KMZ archive does not contain a KML file.")
  end.

Definition loadKmzLayer (kmlToGeojson : string → option GeoCollection) (file : File)
    : result GeoCollection :=
  let name := Str.toLowerCase (file_name file) in
  if endsWith ".kmz" name then
    kmlText ← extractKmlFromKmz file;
    parseKmlText kmlToGeojson kmlText
  else if endsWith ".kml" name then
    parseKmlText kmlToGeojson (file_text file)
  else Throw (Error "Only KMZ or KML files are supported.").

(* ------------------------------------------------------------------ *)
(** * hooks/useMapData.ts *)

Record MapDataState : Type := mkState {
  loading : bool;
  error_message : option string;
  data : option MapData
}.

(** The message of a caught error. *)
Definition message_of (e : error) : string :=
  match e with
  | TypeError msg | Error msg => msg
  end.

(** One mounted instance of the hook: the flag its effect closes over and
    the state it has published. *)
Record Hook : Type := mkHook {
  cancelled : bool;
  published : MapDataState
}.

(** What can happen to a mounted hook: the promise of [loadMapData]
    settles, or the effect is cleaned up. *)
Inductive HookEvent : Type :=
| Settled (outcome : result MapData)
| Cleanup.

Definition mount : Hook :=
  {| cancelled := false;
     published := {| loading := true; error_message := None; data := None |} |}.

Definition hook_step (h : Hook) (ev : HookEvent) : Hook :=
  match ev with
  | Settled (Ok d) =>
      if negb (cancelled h)
      then {| cancelled := cancelled h;
              published := {| loading := false; error_message := None; data := Some d |} |}
      else h
  | Settled (Throw e) =>
      if negb (cancelled h)
      then {| cancelled := cancelled h;
              published := {| loading := false; error_message := Some (message_of e);
                              data := None |} |}
      else h
  | Cleanup => {| cancelled := true; published := published h |}
  end.

Definition hook_run (h : Hook) (evs : list HookEvent) : Hook := foldl hook_step h evs.

(* ------------------------------------------------------------------ *)
(** * App.tsx: the derived values of the view *)


(** The state the selector starts on. *)
Definition defaultState (states : list string) : option string :=
  match states with
  | [] => None
  | first :: _ =>
      Some (if Str.includes states "Western Australia" then "Western Australia" else first)
  end.

(** [filteredSa1]: the polygons of the selected state. *)
Definition filteredSa1 (sa1 : GeoCollection) (selectedState : option string) : GeoCollection :=
  match features sa1 with
  | Some fs =>
      FeatureCollection
        (filter (λ feature,
                   match selectedState with
                   | Some s =>
                       if bool_decide (s = "") then true
                       else strict_eq (get (props_of feature) "STE_NAME21") (VStr s)
                   | None => true
                   end = true) fs)
  | None => sa1
  end.




(** The name under which [handleKmzUpload] lists a layer:
    [file.name.replace(/\\.(kmz|kml)$/i, "") || file.name].  The pattern
    is a backslash, any character but a line break, and the extension. *)
Definition kmz_pattern_matches (tail : string) : bool :=
  match tail with
  | String c0 (String c1 ext) =>
      bool_decide (c0 = "\"%char)
      && negb (bool_decide (c1 = "010"%char ∨ c1 = "013"%char))
      && Str.includes ["kmz"; "kml"] (Str.toLowerCase ext)
  | _ => false
  end.

Definition kmz_layer_name (file_name : string) : string :=
  let n := String.length file_name in
  let baseName :=
    if bool_decide (5 ≤ n) && kmz_pattern_matches (Str.drop (n - 5) file_name)
    then Str.take (n - 5) file_name else file_name in
  if bool_decide (baseName = "") then file_name else baseName.

(* ------------------------------------------------------------------ *)
(** * Notions used in the statements *)

(** ** Bounds *)

(** The positions of a geometry in traversal order, as a value rather than
    as pushes onto an accumulator. *)
Fixpoint positions (g : Geometry) : list Entry :=
  match g with
  | Point coordinates => [[coordinates !! 0%nat; coordinates !! 1%nat]]
  | MultiPoint coordinates | LineString coordinates => entry_of <$> coordinates
  | MultiLineString coordinates | Polygon coordinates => entry_of <$> concat coordinates
  | MultiPolygon coordinates => entry_of <$> concat (concat coordinates)
  | GeometryCollection geometries => concat (map positions geometries)
  | OtherGeometry _ => []
  end.

Definition feature_positions (f : GeoFeature) : list Entry :=
  match geometry f with
  | Some g => positions g
  | None => []
  end.

(** The features [computeBounds] looks at. *)
Definition bounds_features (collection : GeoCollection + list GeoFeature) : list GeoFeature :=
  match collection with
  | inr fs => fs
  | inl c => features_of c
  end.

(** A coordinate pair both of whose components are finite numbers. *)
Definition finite_pair (p : Entry) : option (Q * Q) :=
  match mjoin (p !! 0%nat), mjoin (p !! 1%nat) with
  | Some (Fin lon), Some (Fin lat) => Some (lon, lat)
  | _, _ => None
  end.

Definition finite_pairs (collection : GeoCollection + list GeoFeature) : list (Q * Q) :=
  omap finite_pair (bounds_features collection ≫= feature_positions).

(** [box] is the envelope of the pairs [ps]: each side bounds every pair
    and is the coordinate of one of them. *)
Definition envelope (ps : list (Q * Q)) (box : Q * Q * Q * Q) : Prop :=
  let '(minLon, minLat, maxLon, maxLat) := box in
  (∀ lon lat, (lon, lat) ∈ ps →
     (minLon <= lon)%Q ∧ (lon <= maxLon)%Q ∧ (minLat <= lat)%Q ∧ (lat <= maxLat)%Q) ∧
  minLon ∈ ps.*1 ∧ maxLon ∈ ps.*1 ∧ minLat ∈ ps.*2 ∧ maxLat ∈ ps.*2.

Definition fin_box (box : Q * Q * Q * Q) : BBox :=
  let '(a, b, c, d) := box in (Fin a, Fin b, Fin c, Fin d).

(** What the loop of [computeBounds] maintains once it has seen the finite
    pairs [ps]: the initial infinities, or the envelope of [ps]. *)
Definition bounds_inv (ps : list (Q * Q)) (acc : BBox) : Prop :=
  match ps with
  | [] => acc = bounds_init
  | _ :: _ => ∃ box, acc = fin_box box ∧ envelope ps box
  end.

(** ** School stages *)

(** A year code as [computeStage] is typed to receive it: a string, or
    [null] when the bound is unknown. *)
Definition code_value (c : option string) : value :=
  match c with
  | Some s => VStr s
  | None => VNull
  end.

(** The bound as the classification reads it: upper-cased, blank when
    unknown. *)
Definition bound_code (c : option string) : string := Str.toUpperCase (default "" c).

(** The kindergarten and pre-primary codes. *)
Definition kindergarten_codes : list string := ["KIN"; "PP"; "P"].

(** The bound is a kindergarten or pre-primary code. *)
Definition kinder_bound (c : option string) : bool :=
  bool_decide (bound_code c ∈ kindergarten_codes).

(** The decimal digits, in order; the value of a digit is its place. *)
Definition decimal_digits : list ascii :=
  ["0"; "1"; "2"; "3"; "4"; "5"; "6"; "7"; "8"; "9"]%char.

Definition digit_value (c : ascii) : option Z :=
  (λ found : nat * ascii, Z.of_nat found.1) <$> list_find (λ d, d = c) decimal_digits.

(** The number that the two characters after the [Y] are read as, the way
    a whole number is read off the front of a text: two digits; one digit
    and something else; or a blank or a sign, and one digit. *)
Definition year_of_chars (c1 c2 : ascii) : option Z :=
  match digit_value c1, digit_value c2 with
  | Some d1, Some d2 => Some (10 * d1 + d2)%Z
  | Some d1, None => Some d1
  | None, Some d2 =>
      if Ascii.is_space c1 || bool_decide (c1 = "+"%char) then Some d2
      else if bool_decide (c1 = "-"%char) then Some (- d2)%Z
      else None
  | None, None => None
  end.

(** The year of a Y-coded bound: the letter [Y], in either case, and at
    least two more characters that read as a number. *)
Definition year_bound (c : option string) : option Z :=
  match c with
  | Some (String y (String c1 (String c2 _))) =>
      if bool_decide (y = "Y"%char ∨ y = "y"%char) then year_of_chars c1 c2 else None
  | _ => None
  end.

(** A primary bound: a kindergarten or pre-primary code, or a year at
    most 6.  A secondary bound: a year at least 7. *)
Definition primary_bound (c : option string) : bool :=
  kinder_bound c || match year_bound c with Some y => (y <=? 6)%Z | None => false end.

Definition secondary_bound (c : option string) : bool :=
  match year_bound c with Some y => (7 <=? y)%Z | None => false end.

(** The test that a number read by [toInt] is the whole number [y]. *)
Definition same_year (n : option number) (y : option Z) : bool :=
  match n, y with
  | None, None => true
  | Some (Fin (Qmake m 1)), Some y => (m =? y)%Z
  | _, _ => false
  end.

Definition stage_of (primary secondary : bool) : string :=
  if primary && secondary then "combined"
  else if primary then "primary"
  else if secondary then "secondary"
  else "other".

(** A value on which [normalize] does not throw: a string, or anything
    falsy. *)
Definition string_or_falsy (v : value) : bool :=
  match v with
  | VStr _ => true
  | _ => negb (truthy v)
  end.

(** The year codes of a feature that needs a stage are strings or blank. *)
Definition year_codes_typed (f : GeoFeature) : Prop :=
  truthy (get (props_of f) "stage") = false →
  string_or_falsy (get (props_of f) "lowyear") = true
  ∧ string_or_falsy (get (props_of f) "highyear") = true.

(** The frame condition as the design document words it, with "carries a
    [stage] property" read as the presence of the key. *)
Definition ensureStages_keeps_carried_stage (c : GeoCollection) : Prop :=
  ∃ fs', ensureSchoolStages (Some c) = Ok (Some (mkCollection (ctype c) (Some fs')))
    ∧ length fs' = length (features_of c)
    ∧ ∀ i f f', features_of c !! i = Some f → fs' !! i = Some f' →
        (∀ k, k ≠ "stage" → get (props_of f') k = get (props_of f) k)
        ∧ ("stage" ∈ keys (props_of f) →
             get (props_of f') "stage" = get (props_of f) "stage")
        ∧ ("stage" ∉ keys (props_of f) →
             ∃ s, computeStage (get (props_of f) "lowyear") (get (props_of f) "highyear") = Ok s
                  ∧ get (props_of f') "stage" = VStr s).

(** What [ensureSchoolStages] does to one feature. *)
Definition staged (f f' : GeoFeature) : Prop :=
  geometry f' = geometry f
  ∧ (∀ k, k ≠ "stage" → get (props_of f') k = get (props_of f) k)
  ∧ (truthy (get (props_of f) "stage") = true → props_of f' = props_of f)
  ∧ (truthy (get (props_of f) "stage") = false →
       ∃ s, computeStage (get (props_of f) "lowyear") (get (props_of f) "highyear") = Ok s
            ∧ get (props_of f') "stage" = VStr s).

(** A school whose [stage] is present and blank. *)
Definition blank_stage_school : GeoFeature :=
  mkFeature None (Some [("stage", VStr ""); ("lowyear", VStr "PP"); ("highyear", VStr "Y06")]).

(** ** Transit and catchment layers *)

(** The feature has no value, or [null], under each route-type key. *)
Definition no_route_type (f : GeoFeature) : Prop :=
  Forall (λ key, is_nullish (get (props_of f) key) = true) route_type_keys.

(** The fallback as the design document words it: a feed without route
    types comes back as the single group [all]. *)
Definition untyped_feed_falls_back_to_all (data : GeoCollection) : Prop :=
  Forall no_route_type (features_of data) →
  let layers := groupTransitLayers (Some data) in
  (∃ c, all layers = Some c ∧ features_of c = features_of data)
  ∧ train layers = None ∧ bus layers = None ∧ other layers = None.

(** A feed of one line that has no properties at all. *)
Definition untyped_feed : GeoCollection :=
  FeatureCollection [mkFeature (Some (LineString [[Fin 115; Fin (-32)]; [Fin 116; Fin (-32)]])) None].

(** [catchment_level === level]. *)
Definition has_level (level : string) (f : GeoFeature) : bool :=
  strict_eq (get (props_of f) "catchment_level") (VStr level).

Definition catchment_levels : list string := ["primary"; "high"; "other"].

(** The group of a level: its features in feed order, or no entry at all
    when there is none. *)
Definition level_group (data : GeoCollection) (level : string) : option GeoCollection :=
  match filter (λ f, has_level level f = true) (features_of data) with
  | [] => None
  | fs => Some (FeatureCollection fs)
  end.

(** ** Percentages *)

(** The text [parsePercentile] converts: every percent sign removed, then
    the surrounding white space. *)
Definition cleaned (s : string) : string := Str.trim (Str.removeAll "%" s).

(** A text that converts to a finite number. *)
Definition numeric (t : string) : Prop :=
  t ≠ "" ∧ Num.isFinite (Str.StringToNumber t) = true.

(** The strings obtained from [s] by removing one of its percent signs. *)
Fixpoint without_one_percent (s : string) : list string :=
  match s with
  | EmptyString => []
  | String c r =>
      (if decide (c = "%"%char) then [r] else []) ++ (String c <$> without_one_percent r)
  end.

(** The reading of the design document: [s] is numeric once an optional
    percent sign and the surrounding white space are stripped. *)
Definition numeric_after_optional_percent (s : string) : bool :=
  existsb (λ t, negb (bool_decide (Str.trim t = ""))
                && Num.isFinite (Str.StringToNumber (Str.trim t)))
          (s :: without_one_percent s).

(** ... and everything else yields [null]. *)
Definition null_unless_one_percent (s : string) : Prop :=
  numeric_after_optional_percent s = false → parsePercentile (VStr s) = None.

(** ** School summaries *)

(** The features of a collection that may be [null]. *)
Definition collection_features (collection : option GeoCollection) : list GeoFeature :=
  match collection with
  | Some c => features_of c
  | None => []
  end.

(** The key a feature is counted under in [sectorCounts] and in
    [remoteCounts]; blank when the property is absent, falsy or white
    space. *)
Definition sector_key (f : GeoFeature) : string :=
  Str.trim (ToString (or_else (get (props_of f) "sector") (VStr ""))).

Definition remote_key (f : GeoFeature) : string :=
  Str.trim (ToString (or_else (get (props_of f) "remotearea") (VStr ""))).

Definition stage_names : list string := ["primary"; "secondary"; "combined"; "other"].

(** The [stage] of the feature is a string, or falsy. *)
Definition stage_typed (f : GeoFeature) : Prop :=
  string_or_falsy (get (props_of f) "stage") = true.

(** What the loop of [summarizeSchools] maintains over the features [fs]. *)
Definition summary_inv (fs : list GeoFeature) (acc : SchoolsSummary) : Prop :=
  (∀ k, k ∈ stage_names → is_Some (stageCounts acc !! k))
  ∧ (∀ k, is_Some (sectorCounts acc !! k) → k ≠ "" ∧ ∃ f, f ∈ fs ∧ sector_key f = k)
  ∧ (∀ k, is_Some (remoteCounts acc !! k) → k ≠ "" ∧ ∃ f, f ∈ fs ∧ remote_key f = k).

(** ** Metadata *)

(** The order of the default [sort]: by string conversion. *)
Definition by_string {A} (key : A → string) : relation A :=
  λ a b, String.le (key a) (key b).

(** The key under which a feature is grouped: the string of its state,
    when it has one and that string is not the name of a member every
    object inherits. *)
Definition state_key_of (f : GeoFeature) : option string :=
  let state := get (props_of f) "STE_NAME21" in
  if truthy state && negb (inherited (ToString state)) then Some (ToString state) else None.

(** A polygon on which [buildMetadata] throws: its state is named like an
    inherited member, and it has an SA2 name. *)
Definition metadata_throws (f : GeoFeature) : bool :=
  let state := get (props_of f) "STE_NAME21" in
  truthy state && inherited (ToString state) && truthy (get (props_of f) "SA2_NAME21").

(** No polygon of the list is one on which [buildMetadata] throws. *)
Definition metadata_safe (fs : list GeoFeature) : Prop :=
  Forall (λ f, metadata_throws f = false) fs.

Definition state_keys (fs : list GeoFeature) : list string := omap state_key_of fs.

(** What [buildMetadata] reads in a feature for the colour ramp. *)
Definition decile (f : GeoFeature) : number := ToNumber (get (props_of f) "IRAD_decile").

(** The values it keeps. *)
Definition irad_values (fs : list GeoFeature) : list number :=
  filter (λ n, Num.isNaN n = false) (decile <$> fs).

(** An area whose decile is [null], and one whose decile is 5. *)
Definition null_decile_area : GeoFeature :=
  mkFeature None (Some [("SA1_CODE21", VStr "50101100101"); ("IRAD_decile", VNull)]).

Definition decile_5_area : GeoFeature :=
  mkFeature None (Some [("SA1_CODE21", VStr "50101100102"); ("IRAD_decile", VNum (Fin 5))]).

(** ** Loading *)

(** The warning strings of a snapshot. *)
Definition warnings (m : MapData) : list string :=
  omap id [schoolsWarning m; rankingWarning m; catchmentsWarning m;
           transitWarning m; seifaWarning m].

(** The stage and year codes of the schools feed are strings or blank. *)
Definition schools_typed (schools : option GeoCollection) : Prop :=
  Forall (λ f, stage_typed f ∧ year_codes_typed f) (collection_features schools).

(** The policy as the design document words it: the load fails exactly
    when the primary dataset is missing, and every other dataset that is
    missing leaves a warning in the snapshot. *)
Definition fails_only_without_primary_and_warns (assets : Assets) : Prop :=
  ((∃ e, loadMapData assets = Throw e) ↔ fetchJson (SA1_FILE assets) = None)
  ∧ ∀ m, loadMapData assets = Ok m →
      (fetchJson (TRANSIT_FILE assets) = None → is_Some (transitWarning m))
      ∧ (fetchJson (SCHOOLS_FILE assets) = None → is_Some (schoolsWarning m))
      ∧ (fetchJson (CATCHMENTS_FILE assets) = None → is_Some (catchmentsWarning m))
      ∧ (fetchJson (ARCGIS_MANIFEST assets) = None → warnings m ≠ []).

(** Four datasets in good order, and a manifest that could not be fetched. *)
Definition assets_without_manifest : Assets :=
  {| SA1_FILE := Json (Some (FeatureCollection
       [mkFeature (Some (Point [Fin 115; Fin (-32)]))
                  (Some [("STE_NAME21", VStr "Western Australia");
                         ("SA2_NAME21", VStr "Perth"); ("IRAD_decile", VNum (Fin 7))])]));
     TRANSIT_FILE := Json (Some (FeatureCollection
       [mkFeature None (Some [("ROUTETYPE", VStr "Train")])]));
     SCHOOLS_FILE := Json (Some (FeatureCollection
       [mkFeature None (Some [("stage", VStr "primary"); ("ranking_rank", VNum (Fin 3))])]));
     CATCHMENTS_FILE := Json (Some (FeatureCollection
       [mkFeature None (Some [("catchment_level", VStr "primary")])]));
     ARCGIS_MANIFEST := NotOk "Not Found" |}.

(** The same, with a school whose low year is the number 7 and the
    manifest in place. *)
Definition assets_with_numeric_year : Assets :=
  {| SA1_FILE := SA1_FILE assets_without_manifest;
     TRANSIT_FILE := TRANSIT_FILE assets_without_manifest;
     SCHOOLS_FILE := Json (Some (FeatureCollection
       [mkFeature None (Some [("lowyear", VNum (Fin 7)); ("highyear", VNum (Fin 12))])]));
     CATCHMENTS_FILE := CATCHMENTS_FILE assets_without_manifest;
     ARCGIS_MANIFEST := Json (Some {| layers := [] |}) |}.

(** The same, with the manifest in place and a polygon whose state is named
    like a member every object inherits. *)
Definition assets_with_inherited_state : Assets :=
  {| SA1_FILE := Json (Some (FeatureCollection
       [mkFeature (Some (Point [Fin 115; Fin (-32)]))
                  (Some [("STE_NAME21", VStr "constructor"); ("SA2_NAME21", VStr "Perth")])]));
     TRANSIT_FILE := TRANSIT_FILE assets_without_manifest;
     SCHOOLS_FILE := SCHOOLS_FILE assets_without_manifest;
     CATCHMENTS_FILE := CATCHMENTS_FILE assets_without_manifest;
     ARCGIS_MANIFEST := Json (Some {| layers := [] |}) |}.

(** ** Further notions: layers *)

(** The features of a layer of a mapping, none when the key is absent. *)
Definition layer_features (layer : option GeoCollection) : list GeoFeature :=
  match layer with
  | Some c => features_of c
  | None => []
  end.

(** The group a feature belongs to by its route type. *)
Definition transit_class (f : GeoFeature) : string :=
  if bool_decide (routeType f = "train") then "train"
  else if Str.includes ["standard"; "cat"; "school"] (routeType f) then "bus"
  else "other".

(** The features of a feed that fall in a group, in feed order. *)
Definition of_class (k : string) (fs : list GeoFeature) : list GeoFeature :=
  filter (λ f, transit_class f = k) fs.

(** ** Further notions: metadata and warnings *)

(** Some feature of the collection has a property of that name. *)
Definition has_property (fs : list GeoFeature) (k : string) : Prop :=
  ∃ f, f ∈ fs ∧ k ∈ keys (props_of f).

(** No school of the feed has a ranking. *)
Definition unranked (fs : list GeoFeature) : Prop :=
  Forall (λ f, is_nullish (get (props_of f) "ranking_rank") = true) fs.

(** ** Further notions: boxes and centres *)

(** The box [inner] lies within the box [outer]. *)
Definition bbox_within (inner outer : BBox) : Prop :=
  let '(minLon, minLat, maxLon, maxLat) := inner in
  let '(minLon', minLat', maxLon', maxLat') := outer in
  Num.leb minLon' minLon = true ∧ Num.leb minLat' minLat = true
  ∧ Num.leb maxLon maxLon' = true ∧ Num.leb maxLat maxLat' = true.

(** The polygons whose state is exactly the string [s]. *)
Definition state_features (data : GeoCollection) (s : string) : list GeoFeature :=
  filter (λ feature, strict_eq (get (props_of feature) "STE_NAME21") (VStr s) = true)
         (features_of data).

(** The centre [buildMetadata] records for a box: latitude first, each
    coordinate rounded to six decimals. *)
Definition center_of_box (box : BBox) : number * number :=
  let '(minLon, minLat, maxLon, maxLat) := box in
  (round6 (Num.half (Num.add minLat maxLat)), round6 (Num.half (Num.add minLon maxLon))).

(** The centre [getMapCenter] computes from a box: latitude first, not
    rounded. *)
Definition midpoint_of_box (box : BBox) : number * number :=
  let '(minLon, minLat, maxLon, maxLat) := box in
  (Num.half (Num.add minLat maxLat), Num.half (Num.add minLon maxLon)).

(** ** Further notions: histograms *)


(** The entry of a histogram for a key counted [n] times: none for zero. *)
Definition tally_entry (n : nat) : option nat :=
  match n with
  | O => None
  | S _ => Some n
  end.



(** How many features have the catchment level [level]. *)
Definition level_size (fs : list GeoFeature) (level : string) : nat :=
  length (filter (λ f, has_level level f = true) fs).

(** The feature has one of the three catchment levels. *)
Definition levelled (f : GeoFeature) : bool :=
  has_level "primary" f || has_level "high" f || has_level "other" f.

(** The text has no white space in front. *)
Definition starts_clean (s : string) : bool :=
  match s with
  | EmptyString => true
  | String c _ => negb (Str.is_space c)
  end.

(** Every character of the text satisfies [p]. *)
Fixpoint all_chars (p : ascii → bool) (s : string) : bool :=
  match s with
  | EmptyString => true
  | String c r => p c && all_chars p r
  end.

(** How often the character [c] occurs in the text. *)
Fixpoint count_char (c : ascii) (s : string) : nat :=
  match s with
  | EmptyString => 0
  | String a r => (if decide (a = c) then 1 else 0) + count_char c r
  end.

(** The characters an encoded name or value is made of. *)
Definition encoded_char (c : ascii) : bool :=
  form_safe c || bool_decide (c = "+"%char) || bool_decide (c = "%"%char).

(** The field name ends in one of the score suffixes. *)
Definition score_field (field : string) : bool :=
  existsb (λ suffix, endsWith suffix field) SCORE_SUFFIXES.

(** The labels [SEIFA_DISPLAY] has for the score columns. *)
Definition score_labels : list string :=
  ["IRSD score"; "IRAD score"; "IER score"; "IEO score"].

(** A pick of [buildTooltipFields] made by its [add]. *)
Definition pick_ok (propertyNames : list string) (pick : string * string) : Prop :=
  pick.1 ∈ propertyNames ∧ score_field pick.1 = false ∧ pick.2 ∉ score_labels.

(** ** Colours *)

(** A lower-case hexadecimal digit. *)
Definition is_hex (c : ascii) : bool :=
  let n := Str.code c in
  ((48 <=? n) && (n <=? 57) || (97 <=? n) && (n <=? 102))%N.

(** A colour written [#rrggbb]. *)
Definition hex_colour (s : string) : bool :=
  match s with
  | String "#" r => bool_decide (String.length r = 6) && all_chars is_hex r
  | _ => false
  end.

(** The two hexadecimal digits of a channel. *)
Definition hex_byte (z : Z) : bool :=
  match padStart2 (toString16 (Fin (inject_Z z))) with
  | String c1 (String c2 EmptyString) => is_hex c1 && is_hex c2
  | _ => false
  end.

(** ** The percentile slider *)



(** ** The state selector *)

(** The state of every polygon is a string, or falsy. *)
Definition states_typed (data : GeoCollection) : Prop :=
  Forall (λ f, string_or_falsy (get (props_of f) "STE_NAME21") = true) (features_of data).

(** ** The hook *)

(** The three shapes of the state the hook publishes: still loading, the
    data, or the message of the error. *)
Definition state_shape (st : MapDataState) : Prop :=
  (loading st = true ∧ data st = None ∧ error_message st = None)
  ∨ (loading st = false ∧ is_Some (data st) ∧ error_message st = None)
  ∨ (loading st = false ∧ data st = None ∧ is_Some (error_message st)).

(** The state published for an outcome of the load. *)
Definition state_of (outcome : result MapData) : MapDataState :=
  match outcome with
  | Ok d => {| loading := false; error_message := None; data := Some d |}
  | Throw e => {| loading := false; error_message := Some (message_of e); data := None |}
  end.

(** The event is not a clean-up. *)
Definition is_settled (ev : HookEvent) : bool :=
  match ev with
  | Settled _ => true
  | Cleanup => false
  end.

(** ** The tooltip of the polygons *)



(** ** The SA2 names of a state *)

(** What [buildMetadata] reads as the SA2 name of a polygon. *)
Definition sa2_of (f : GeoFeature) : value := get (props_of f) "SA2_NAME21".

(** The SA2 names [vs] gathered for the state key [k] over the polygons
    [seen]: each is the name of a polygon of that state, each polygon of
    that state with a name has it in the list, and no name is there
    twice. *)
Definition sa2_names (seen : list GeoFeature) (k : string) (vs : list value) : Prop :=
  NoDup vs
  ∧ (∀ v, v ∈ vs →
       ∃ f, f ∈ seen ∧ state_key_of f = Some k ∧ truthy (sa2_of f) = true ∧ sa2_of f = v)
  ∧ (∀ f, f ∈ seen → state_key_of f = Some k → truthy (sa2_of f) = true →
       existsb (same_value_zero (sa2_of f)) vs = true).

(** The dictionary [d] holds the SA2 names of the polygons [seen], state
    by state. *)
Definition sa2_inv (seen : list GeoFeature) (d : list (string * list value)) : Prop :=
  ∀ k, match dict_get d k with
       | None => k ∉ state_keys seen
       | Some vs => k ∈ state_keys seen ∧ sa2_names seen k vs
       end.

(** A decimal digit. *)
Definition is_decimal (c : ascii) : bool :=
  ((48 <=? Str.code c) && (Str.code c <=? 57))%N.

(* ------------------------------------------------------------------ *)
(** * Properties of the bounds utilities *)

Section geometry_induction.
Variable P : Geometry → Prop.
Hypothesis HPoint : ∀ c, P (Point c).
Hypothesis HMultiPoint : ∀ c, P (MultiPoint c).
Hypothesis HLineString : ∀ c, P (LineString c).
Hypothesis HMultiLineString : ∀ c, P (MultiLineString c).
Hypothesis HPolygon : ∀ c, P (Polygon c).
Hypothesis HMultiPolygon : ∀ c, P (MultiPolygon c).
Hypothesis HCollection : ∀ gs, Forall P gs → P (GeometryCollection gs).
Hypothesis HOther : ∀ t, P (OtherGeometry t).

(** Induction over geometries, with the members of a collection covered. *)
Lemma Geometry_nested_ind : ∀ g, P g.
Proof using All.
  fix IH 1. intros [c|c|c|c|c|c|gs|t].
  - apply HPoint.
  - apply HMultiPoint.
  - apply HLineString.
  - apply HMultiLineString.
  - apply HPolygon.
  - apply HMultiPolygon.
  - apply HCollection. induction gs as [|g gs IHgs]; constructor.
    + apply IH.
    + apply IHgs.
  - apply HOther.
Qed.
End geometry_induction.

Lemma foldl_push {A B} (f : A → B) (l : list A) (pts : list B) :
  foldl (λ pts x, pts ++ [f x]) pts l = pts ++ (f <$> l).
Proof.
  revert pts. induction l as [|x l IH]; intros pts; simpl.
  - by rewrite app_nil_r.
  - rewrite IH. by rewrite <- app_assoc.
Qed.

Lemma foldl_push_rings {A B} (f : A → B) (rings : list (list A)) (pts : list B) :
  foldl (λ pts ring, foldl (λ pts x, pts ++ [f x]) pts ring) pts rings
  = pts ++ (f <$> concat rings).
Proof.
  revert pts. induction rings as [|r rings IH]; intros pts; simpl.
  - by rewrite app_nil_r.
  - rewrite IH, foldl_push, fmap_app. by rewrite <- app_assoc.
Qed.

Lemma foldl_push_polygons {A B} (f : A → B) (polys : list (list (list A))) (pts : list B) :
  foldl (λ pts polygon,
           foldl (λ pts ring, foldl (λ pts x, pts ++ [f x]) pts ring) pts polygon)
        pts polys
  = pts ++ (f <$> concat (concat polys)).
Proof.
  revert pts. induction polys as [|p polys IH]; intros pts; simpl.
  - by rewrite app_nil_r.
  - rewrite IH, foldl_push_rings, concat_app, fmap_app. by rewrite <- app_assoc.
Qed.

(** [flattenCoords] only appends, and what it appends is [positions]. *)
Lemma flattenGeometry_positions (g : Geometry) (pts : list Entry) :
  flattenGeometry g pts = pts ++ positions g.
Proof.
  revert pts. induction g as [c|c|c|c|c|c|gs IH|t] using Geometry_nested_ind;
    intros pts; simpl.
  - done.
  - apply foldl_push.
  - apply foldl_push.
  - apply foldl_push_rings.
  - apply foldl_push_rings.
  - apply foldl_push_polygons.
  - revert pts. induction IH as [|g gs Hg _ IHgs]; intros pts; simpl.
    + by rewrite app_nil_r.
    + rewrite IHgs, Hg. by rewrite <- app_assoc.
  - by rewrite app_nil_r.
Qed.

Lemma flattenCoords_positions (f : GeoFeature) (pts : list Entry) :
  flattenCoords (geometry f) pts = pts ++ feature_positions f.
Proof.
  unfold flattenCoords, feature_positions. destruct (geometry f).
  - apply flattenGeometry_positions.
  - by rewrite app_nil_r.
Qed.

Lemma flatten_features (fs : list GeoFeature) (pts : list Entry) :
  foldl (λ pts feature, flattenCoords (geometry feature) pts) pts fs
  = pts ++ (fs ≫= feature_positions).
Proof.
  revert pts. induction fs as [|f fs IH]; intros pts; simpl.
  - by rewrite app_nil_r.
  - rewrite IH, flattenCoords_positions. by rewrite <- app_assoc.
Qed.

Lemma bounds_step_skip (acc : BBox) (p : Entry) :
  finite_pair p = None → bounds_step acc p = acc.
Proof.
  unfold finite_pair, bounds_step. destruct acc as [[[a b] c] d].
  destruct (mjoin (p !! 0%nat)) as [[| |lon|]|], (mjoin (p !! 1%nat)) as [[| |lat|]|];
    simpl; congruence.
Qed.

Lemma bounds_step_pair (acc : BBox) (p : Entry) (lon lat : Q) :
  finite_pair p = Some (lon, lat) →
  bounds_step acc p =
    (Num.min2 acc.1.1.1 (Fin lon), Num.min2 acc.1.1.2 (Fin lat),
     Num.max2 acc.1.2 (Fin lon), Num.max2 acc.2 (Fin lat)).
Proof.
  unfold finite_pair, bounds_step. destruct acc as [[[a b] c] d].
  destruct (mjoin (p !! 0%nat)) as [[| |lon'|]|], (mjoin (p !! 1%nat)) as [[| |lat'|]|];
    simpl; congruence.
Qed.

Lemma min2_fin (a b : Q) :
  Num.min2 (Fin a) (Fin b) = Fin (if Qle_bool a b then a else b).
Proof. simpl. by destruct (Qle_bool a b). Qed.

Lemma max2_fin (a b : Q) :
  Num.max2 (Fin a) (Fin b) = Fin (if Qle_bool a b then b else a).
Proof. simpl. by destruct (Qle_bool a b). Qed.

Lemma Qle_bool_false (a b : Q) : Qle_bool a b = false → (b <= a)%Q.
Proof.
  intros H. destruct (Qlt_le_dec b a) as [Hlt|Hle].
  - by apply Qlt_le_weak.
  - apply Qle_bool_iff in Hle. congruence.
Qed.

Lemma envelope_single (lon lat : Q) : envelope [(lon, lat)] (lon, lat, lon, lat).
Proof.
  unfold envelope. split.
  - intros x y Hin. apply list_elem_of_singleton in Hin. injection Hin as -> ->.
    repeat split; apply Qle_refl.
  - simpl. repeat split; apply list_elem_of_singleton; reflexivity.
Qed.

Lemma envelope_snoc (ps : list (Q * Q)) (a b c d lon lat : Q) :
  envelope ps (a, b, c, d) →
  envelope (ps ++ [(lon, lat)])
    (if Qle_bool a lon then a else lon, if Qle_bool b lat then b else lat,
     if Qle_bool c lon then lon else c, if Qle_bool d lat then lat else d).
Proof.
  unfold envelope. intros (Hall & Ha & Hc & Hb & Hd).
  assert (Hmono : ∀ (x : Q) (l : list Q) (y : Q), x ∈ l → x ∈ l ++ [y]).
  { intros. apply elem_of_app. by left. }
  assert (Hlast : ∀ (l : list Q) (y : Q), y ∈ l ++ [y]).
  { intros. apply elem_of_app. right. by apply list_elem_of_singleton. }
  split.
  - intros x y Hin. apply elem_of_app in Hin as [Hin|Hin].
    + destruct (Hall x y Hin) as (H1 & H2 & H3 & H4).
      destruct (Qle_bool a lon) eqn:Ea, (Qle_bool b lat) eqn:Eb,
               (Qle_bool c lon) eqn:Ec, (Qle_bool d lat) eqn:Ed;
        try apply Qle_bool_iff in Ea; try apply Qle_bool_iff in Eb;
        try apply Qle_bool_iff in Ec; try apply Qle_bool_iff in Ed;
        try apply Qle_bool_false in Ea; try apply Qle_bool_false in Eb;
        try apply Qle_bool_false in Ec; try apply Qle_bool_false in Ed;
        repeat split; lra.
    + apply list_elem_of_singleton in Hin. injection Hin as -> ->.
      destruct (Qle_bool a lon) eqn:Ea, (Qle_bool b lat) eqn:Eb,
               (Qle_bool c lon) eqn:Ec, (Qle_bool d lat) eqn:Ed;
        try apply Qle_bool_iff in Ea; try apply Qle_bool_iff in Eb;
        try apply Qle_bool_iff in Ec; try apply Qle_bool_iff in Ed;
        try apply Qle_bool_false in Ea; try apply Qle_bool_false in Eb;
        try apply Qle_bool_false in Ec; try apply Qle_bool_false in Ed;
        repeat split; lra.
  - rewrite !fmap_app. simpl.
    repeat split.
    + destruct (Qle_bool a lon); auto.
    + destruct (Qle_bool c lon); auto.
    + destruct (Qle_bool b lat); auto.
    + destruct (Qle_bool d lat); auto.
Qed.

Lemma bounds_inv_step (ps : list (Q * Q)) (acc : BBox) (p : Entry) :
  bounds_inv ps acc → bounds_inv (ps ++ omap finite_pair [p]) (bounds_step acc p).
Proof.
  intros Hinv. simpl. destruct (finite_pair p) as [[lon lat]|] eqn:Hp.
  - rewrite (bounds_step_pair _ _ _ _ Hp). destruct ps as [|q ps].
    + simpl in Hinv. subst acc. simpl.
      exists (lon, lat, lon, lat). split; [done|apply envelope_single].
    + destruct Hinv as ([[[a b] c] d] & -> & Henv).
      change ((q :: ps) ++ [(lon, lat)]) with (q :: (ps ++ [(lon, lat)])).
      cbn [bounds_inv fin_box fst snd]. rewrite !min2_fin, !max2_fin.
      eexists (_, _, _, _). split; [reflexivity|].
      by apply (envelope_snoc (q :: ps)).
  - rewrite (bounds_step_skip _ _ Hp). by rewrite app_nil_r.
Qed.

Lemma bounds_inv_fold (pts : list Entry) (ps : list (Q * Q)) (acc : BBox) :
  bounds_inv ps acc → bounds_inv (ps ++ omap finite_pair pts) (foldl bounds_step acc pts).
Proof.
  revert ps acc. induction pts as [|p pts IH]; intros ps acc Hinv; simpl.
  - by rewrite app_nil_r.
  - apply (bounds_inv_step _ _ p) in Hinv. apply IH in Hinv.
    simpl in Hinv. destruct (finite_pair p); simpl in *.
    + by rewrite <- app_assoc in Hinv.
    + by rewrite app_nil_r in Hinv.
Qed.

(** C7. [computeBounds] is total; it is [null] exactly when the collection
    (an empty one included) has no coordinate pair with two finite
    components, and otherwise it is the min/max envelope
    [minLon, minLat, maxLon, maxLat] of the finite pairs, so that one
    finite point gives the degenerate box with min equal to max on both
    axes. *)
Theorem computeBounds_envelope (collection : GeoCollection + list GeoFeature) :
  match finite_pairs collection with
  | [] => computeBounds collection = None
  | ps => ∃ box, computeBounds collection = Some (fin_box box) ∧ envelope ps box
  end
  ∧ computeBounds (inr []) = None
  ∧ ∀ (lon lat : Q) (props : option Properties),
      computeBounds (inr [mkFeature (Some (Point [Fin lon; Fin lat])) props])
      = Some (Fin lon, Fin lat, Fin lon, Fin lat).
Proof.
  split; [|split].
  - unfold computeBounds, finite_pairs.
    fold (bounds_features collection). rewrite flatten_features. simpl.
    set (pts := bounds_features collection ≫= feature_positions).
    pose proof (bounds_inv_fold pts [] bounds_init eq_refl) as Hinv. simpl in Hinv.
    destruct (omap finite_pair pts) as [|q ps] eqn:Hps.
    + simpl in Hinv. rewrite Hinv. simpl. by destruct pts.
    + destruct Hinv as ([[[a b] c] d] & Hfold & Henv). rewrite Hfold. simpl.
      destruct pts; [done|]. by exists (a, b, c, d).
  - reflexivity.
  - intros lon lat props. reflexivity.
Qed.

Lemma computeBounds_witness :
  ∃ box,
    computeBounds
      (inr [mkFeature (Some (LineString [[Fin 1; Fin 5]; [PosInf; Fin 0]; [Fin (-2); Fin 7]])) None;
            mkFeature (Some (Point [Fin 3])) None])
    = Some (fin_box box)
    ∧ envelope [(1, 5); (-2, 7)]%Q box.
Proof.
  exact (proj1 (computeBounds_envelope
    (inr [mkFeature (Some (LineString [[Fin 1; Fin 5]; [PosInf; Fin 0]; [Fin (-2); Fin 7]])) None;
          mkFeature (Some (Point [Fin 3])) None]))).
Defined.

(* ------------------------------------------------------------------ *)
(** * Properties of the school classification *)

Lemma normalize_code (c : option string) : normalize (code_value c) = Ok (bound_code c).
Proof.
  destruct c as [s|]; [|reflexivity].
  unfold normalize, or_else, bound_code. simpl.
  destruct s; reflexivity.
Qed.

Lemma normalize_returns (v : value) :
  string_or_falsy v = true → ∃ s, normalize v = Ok s.
Proof.
  unfold normalize, or_else. destruct v as [| |b|n|s]; intros H.
  - simpl. eauto.
  - simpl. eauto.
  - destruct b; [done|simpl; eauto].
  - cbn [string_or_falsy] in H. destruct (truthy (VNum n)); [done|simpl; eauto].
  - destruct (truthy (VStr s)); simpl; eauto.
Qed.

Lemma normalize_throws (v : value) :
  string_or_falsy v = false → ∃ e, normalize v = Throw e.
Proof.
  unfold normalize, or_else. destruct v as [| |b|n|s]; intros H; try done.
  - destruct b; [simpl; eauto|done].
  - cbn [string_or_falsy] in H. destruct (truthy (VNum n)); [simpl; eauto|done].
Qed.

(** Once both bounds are normalised, [computeStage] is the decision table. *)
Lemma computeStage_table (lowYear highYear : value) (low high : string) :
  normalize lowYear = Ok low → normalize highYear = Ok high →
  computeStage lowYear highYear =
    Ok (stage_of
          (Str.includes kinder_codes low || Str.includes kinder_codes high
           || match toInt low with Some n => year_le_6 n | None => false end
           || match toInt high with Some n => year_le_6 n | None => false end)
          (match toInt low with Some n => year_ge_7 n | None => false end
           || match toInt high with Some n => year_ge_7 n | None => false end)).
Proof.
  intros Hl Hh. unfold computeStage. rewrite Hl, Hh. simpl.
  destruct (Str.includes kinder_codes low), (Str.includes kinder_codes high),
    (toInt low) as [n|], (toInt high) as [m|]; simpl;
    try destruct (year_le_6 n); try destruct (year_ge_7 n);
    try destruct (year_le_6 m); try destruct (year_ge_7 m); reflexivity.
Qed.

Lemma computeStage_returns (lowYear highYear : value) :
  string_or_falsy lowYear = true → string_or_falsy highYear = true →
  ∃ s, computeStage lowYear highYear = Ok s.
Proof.
  intros [low Hl]%normalize_returns [high Hh]%normalize_returns.
  rewrite (computeStage_table _ _ _ _ Hl Hh). eauto.
Qed.

Lemma computeStage_throws (lowYear highYear : value) :
  string_or_falsy lowYear = false ∨ string_or_falsy highYear = false →
  ∃ e, computeStage lowYear highYear = Throw e.
Proof.
  unfold computeStage. intros [H|H].
  - apply normalize_throws in H as [e He]. rewrite He. simpl. eauto.
  - apply normalize_throws in H as [e He]. rewrite He.
    destruct (normalize lowYear); simpl; eauto.
Qed.

Lemma map_chars_length (f : ascii → ascii) (s : string) :
  String.length (Str.map_chars f s) = String.length s.
Proof. induction s as [|c s IH]; [done|]. cbn. by rewrite IH. Qed.

Lemma same_year_eq (n : option number) (y : option Z) :
  same_year n y = true → n = (λ y, Fin (inject_Z y)) <$> y.
Proof.
  destruct n as [[| |[m [d|d|]]|]|], y as [y|]; try done.
  cbn. by intros ->%Z.eqb_eq.
Qed.

Lemma ascii_in_range (c : ascii) : ∃ n, In n (seq 0 256) ∧ c = ascii_of_nat n.
Proof.
  exists (nat_of_ascii c). split; [|by rewrite ascii_nat_embedding].
  apply in_seq. pose proof (nat_ascii_bounded c). lia.
Qed.

(** Only the two characters after the [Y] count. *)
Lemma toInt_Y (c1 c2 : ascii) (rest : string) :
  toInt (String "Y" (String c1 (String c2 rest))) = toInt (String "Y" (String c1 (String c2 ""))).
Proof.
  unfold toInt. cbn [Str.startsWith Str.length String.length].
  rewrite !decide_True by done. by rewrite !bool_decide_eq_true_2 by lia.
Qed.

(** What [toInt] reads after a [Y], for every pair of characters. *)
Lemma toInt_chars (c1 c2 : ascii) (rest : string) :
  toInt (String "Y" (String (Str.upper_char c1) (String (Str.upper_char c2) rest)))
  = (λ y, Fin (inject_Z y)) <$> year_of_chars c1 c2.
Proof.
  rewrite toInt_Y. apply same_year_eq.
  assert (Hall :
    forallb (λ n1,
      forallb (λ n2,
        same_year
          (toInt (String "Y" (String (Str.upper_char (ascii_of_nat n1))
                                (String (Str.upper_char (ascii_of_nat n2)) ""))))
          (year_of_chars (ascii_of_nat n1) (ascii_of_nat n2)))
        (seq 0 256))
      (seq 0 256) = true) by (vm_compute; reflexivity).
  destruct (ascii_in_range c1) as (n1 & Hn1 & ->), (ascii_in_range c2) as (n2 & Hn2 & ->).
  rewrite forallb_forall in Hall. specialize (Hall n1 Hn1).
  rewrite forallb_forall in Hall. exact (Hall n2 Hn2).
Qed.

Lemma upper_char_Y (y : ascii) :
  Str.upper_char y = "Y"%char ↔ y = "Y"%char ∨ y = "y"%char.
Proof.
  split.
  - destruct y as [[] [] [] [] [] [] [] []]; vm_compute; intros H; try discriminate H; auto.
  - by intros [-> | ->].
Qed.

(** The year [toInt] reads in a bound is the year of the bound. *)
Lemma toInt_bound (c : option string) :
  toInt (bound_code c) = (λ y, Fin (inject_Z y)) <$> year_bound c.
Proof.
  assert (Hshort : ∀ s, String.length s < 3 → toInt (Str.toUpperCase s) = None).
  { intros s Hs. unfold toInt, Str.length, Str.toUpperCase.
    rewrite map_chars_length, (bool_decide_eq_false_2 (3 ≤ String.length s)) by lia.
    by rewrite andb_false_r. }
  destruct c as [[|y [|c1 [|c2 rest]]]|]; try (apply Hshort; cbn; lia).
  change (bound_code (Some (String y (String c1 (String c2 rest)))))
    with (String (Str.upper_char y)
            (String (Str.upper_char c1)
               (String (Str.upper_char c2) (Str.toUpperCase rest)))).
  unfold year_bound. case_bool_decide as Hy.
  - rewrite (proj2 (upper_char_Y y) Hy). apply toInt_chars.
  - unfold toInt. cbn [Str.startsWith]. rewrite decide_False; [done|].
    intros Heq. by apply Hy, upper_char_Y.
Qed.

Lemma year_le_6_Z (v : Z) : year_le_6 (Fin (inject_Z v)) = (v <=? 6)%Z.
Proof.
  unfold year_le_6, Num.leb, Qle_bool. cbn [Qnum Qden inject_Z].
  by rewrite !Z.mul_1_r.
Qed.

Lemma year_ge_7_Z (v : Z) : year_ge_7 (Fin (inject_Z v)) = (7 <=? v)%Z.
Proof.
  unfold year_ge_7, Num.leb, Qle_bool. cbn [Qnum Qden inject_Z].
  by rewrite !Z.mul_1_r.
Qed.

(** C4. On typed bounds (a string, or [null]) [computeStage] examines both
    bounds independently: "primary" when some bound is a kindergarten or
    pre-primary code or a Y-coded year at most 6, "secondary" when some
    bound is a Y-coded year at least 7, "combined" when both hold and
    "other" otherwise; the four examples of the design document included.
    The year of a bound is read off its text by [year_bound] and compared
    as a whole number. *)
Theorem computeStage_decision (low high : option string) :
  computeStage (code_value low) (code_value high)
  = Ok (stage_of (primary_bound low || primary_bound high)
                 (secondary_bound low || secondary_bound high))
  ∧ computeStage (VStr "PP") (VStr "Y06") = Ok "primary"
  ∧ computeStage (VStr "Y07") (VStr "Y12") = Ok "secondary"
  ∧ computeStage (VStr "PP") (VStr "Y12") = Ok "combined"
  ∧ computeStage VNull VNull = Ok "other".
Proof.
  split; [|repeat split; reflexivity].
  rewrite (computeStage_table _ _ _ _ (normalize_code low) (normalize_code high)).
  rewrite !toInt_bound.
  unfold primary_bound, secondary_bound, kinder_bound.
  change (Str.includes kinder_codes (bound_code low))
    with (bool_decide (bound_code low ∈ kindergarten_codes)).
  change (Str.includes kinder_codes (bound_code high))
    with (bool_decide (bound_code high ∈ kindergarten_codes)).
  destruct (bool_decide (bound_code low ∈ kindergarten_codes)),
    (bool_decide (bound_code high ∈ kindergarten_codes)),
    (year_bound low) as [n|], (year_bound high) as [m|]; cbn [fmap option_fmap option_map];
    rewrite ?year_le_6_Z, ?year_ge_7_Z;
    try destruct (n <=? 6)%Z; try destruct (m <=? 6)%Z;
    try destruct (7 <=? n)%Z; try destruct (7 <=? m)%Z; reflexivity.
Qed.

Lemma get_set_eq (props : Properties) (k : string) (v : value) :
  get (set props k v) k = v.
Proof.
  induction props as [|[k' w] props IH]; simpl.
  - by rewrite decide_True.
  - destruct (decide (k' = k)) as [->|Hne]; simpl.
    + by rewrite decide_True.
    + by rewrite decide_False.
Qed.

Lemma get_set_ne (props : Properties) (k k' : string) (v : value) :
  k ≠ k' → get (set props k v) k' = get props k'.
Proof.
  intros Hne. induction props as [|[k0 w] props IH]; simpl.
  - by rewrite decide_False.
  - destruct (decide (k0 = k)) as [->|Hne0]; simpl.
    + by rewrite !decide_False.
    + destruct (decide (k0 = k')); [done|apply IH].
Qed.

Lemma ensure_stage_staged (f : GeoFeature) :
  year_codes_typed f → ∃ f', ensure_stage f = Ok f' ∧ staged f f'.
Proof.
  intros Htyped. unfold ensure_stage, staged.
  destruct (truthy (get (props_of f) "stage")) eqn:Hstage; simpl.
  - eexists. split; [reflexivity|]. simpl. repeat split; done.
  - destruct (Htyped Hstage) as [Hl Hh].
    destruct (computeStage_returns _ _ Hl Hh) as [s Hs]. rewrite Hs. simpl.
    eexists. split; [reflexivity|]. simpl. repeat split; try done.
    + intros k Hk. unfold props_of at 1. simpl. by apply get_set_ne.
    + exists s. split; [done|]. unfold props_of at 1. simpl. apply get_set_eq.
Qed.

Lemma mapM_result {A B} (f : A → result B) (R : A → B → Prop) (l : list A) :
  Forall (λ x, ∃ y, f x = Ok y ∧ R x y) l →
  ∃ k, mapM f l = Ok k ∧ Forall2 R l k.
Proof.
  induction 1 as [|x l (y & Hy & HR) _ (k & Hk & HF)]; simpl.
  - exists []. split; [reflexivity|constructor].
  - rewrite Hy. simpl. rewrite Hk. simpl. exists (y :: k). split; [reflexivity|].
    by constructor.
Qed.

(** C3, as the code has it.  When the year codes of the features that need
    a stage are strings or blank, [ensureSchoolStages] returns a collection
    with as many features in the same order; a feature whose [stage] is
    truthy keeps all its properties, and one whose [stage] is absent or
    falsy (null, the empty string) gets the stage that [computeStage] gives
    for its [lowyear] and [highyear], every other property unchanged. *)
Theorem ensureSchoolStages_frame (c : GeoCollection) :
  Forall year_codes_typed (features_of c) →
  ∃ fs', ensureSchoolStages (Some c) = Ok (Some (mkCollection (ctype c) (Some fs')))
    ∧ length fs' = length (features_of c)
    ∧ Forall2 staged (features_of c) fs'.
Proof.
  intros Htyped. unfold ensureSchoolStages, features_of in *.
  destruct (features c) as [fs|]; simpl in *.
  - destruct (mapM_result ensure_stage staged fs) as (fs' & Hfs' & HF).
    { eapply Forall_impl; [exact Htyped|]. apply ensure_stage_staged. }
    rewrite Hfs'. simpl. exists fs'. split; [done|]. split; [|done].
    symmetry. by eapply Forall2_length.
  - exists []. repeat split. constructor.
Qed.

Lemma ensureSchoolStages_frame_witness :
  ∃ fs', ensureSchoolStages
           (Some (FeatureCollection
                    [mkFeature None (Some [("stage", VStr "K-12")]);
                     mkFeature None (Some [("lowyear", VStr "Y07"); ("highyear", VStr "Y12")])]))
         = Ok (Some (mkCollection "FeatureCollection" (Some fs')))
    ∧ length fs' = 2
    ∧ Forall2 staged
        [mkFeature None (Some [("stage", VStr "K-12")]);
         mkFeature None (Some [("lowyear", VStr "Y07"); ("highyear", VStr "Y12")])] fs'.
Proof.
  apply (ensureSchoolStages_frame
           (FeatureCollection
              [mkFeature None (Some [("stage", VStr "K-12")]);
               mkFeature None (Some [("lowyear", VStr "Y07"); ("highyear", VStr "Y12")])])).
  repeat constructor; intros H; vm_compute in H; try discriminate H; split; reflexivity.
Defined.

(** C3, as worded, fails: a school whose [stage] is present but empty does
    not keep it. *)
Lemma ensureSchoolStages_blank_stage_overwritten :
  "stage" ∈ keys (props_of blank_stage_school)
  ∧ ensureSchoolStages (Some (FeatureCollection [blank_stage_school]))
    = Ok (Some (FeatureCollection
                  [mkFeature None (Some [("stage", VStr "primary");
                                         ("lowyear", VStr "PP"); ("highyear", VStr "Y06")])]))
  ∧ ¬ ensureStages_keeps_carried_stage (FeatureCollection [blank_stage_school]).
Proof.
  split; [by left|]. split; [reflexivity|].
  intros (fs' & Heq & _ & H).
  vm_compute in Heq. injection Heq as <-.
  destruct (H 0%nat _ _ eq_refl eq_refl) as (_ & Hkeep & _).
  assert (Hin : "stage" ∈ keys (props_of blank_stage_school)) by (by left).
  specialize (Hkeep Hin). vm_compute in Hkeep. discriminate Hkeep.
Qed.

(* ------------------------------------------------------------------ *)
(** * Properties of the layer groupings *)

Lemma routeType_untyped (f : GeoFeature) : no_route_type f → routeType f = "".
Proof.
  unfold no_route_type, routeType, route_type_keys. intros H.
  inversion H as [|? ? H1 H']; subst. inversion H' as [|? ? H2 H'']; subst.
  inversion H'' as [|? ? H3 _]; subst.
  by rewrite H1, H2, H3.
Qed.

Lemma filter_all {A} (P : A → Prop) `{∀ x, Decision (P x)} (l : list A) :
  Forall P l → filter P l = l.
Proof.
  induction 1 as [|x l Hx _ IH]; [done|].
  rewrite filter_cons_True by done. by rewrite IH.
Qed.

Lemma filter_none {A} (P : A → Prop) `{∀ x, Decision (P x)} (l : list A) :
  Forall (λ x, ¬ P x) l → filter P l = [].
Proof.
  induction 1 as [|x l Hx _ IH]; [done|].
  by rewrite filter_cons_False.
Qed.

Lemma layer_if_any_collection (l : list GeoFeature) :
  layer_if_any (FeatureCollection l)
  = match l with [] => None | _ => Some (FeatureCollection l) end.
Proof. by destruct l. Qed.

(** The three groups of [groupTransitLayers] cover a feed that has
    features, so its fallback assignment is never reached. *)
Lemma groupTransitLayers_all_unreachable (data : option GeoCollection) :
  all (groupTransitLayers data) = None.
Proof.
  unfold groupTransitLayers.
  destruct data as [d|]; [|done]. simpl.
  destruct (features_of d) as [|f fs] eqn:Hfs; [done|]. simpl.
  rewrite !layer_if_any_collection.
  set (P1 := λ f0 : GeoFeature, bool_decide (routeType f0 = "train") = true).
  set (P2 := λ f0 : GeoFeature, Str.includes ["standard"; "cat"; "school"] (routeType f0) = true).
  set (P3 := λ f0 : GeoFeature,
         negb (Str.includes ["train"; "standard"; "cat"; "school"] (routeType f0)) = true).
  destruct (filter P1 (f :: fs)) as [|] eqn:E1; [|done].
  destruct (filter P2 (f :: fs)) as [|] eqn:E2; [|done].
  destruct (filter P3 (f :: fs)) as [|] eqn:E3; [|done].
  exfalso.
  assert (H1 : ¬ P1 f).
  { intros ?. eapply (filter_nil_not_elem_of P1); [exact E1|done|by left]. }
  assert (H2 : ¬ P2 f).
  { intros ?. eapply (filter_nil_not_elem_of P2); [exact E2|done|by left]. }
  assert (H3 : ¬ P3 f).
  { intros ?. eapply (filter_nil_not_elem_of P3); [exact E3|done|by left]. }
  unfold P1, P2, P3, Str.includes in *.
  apply H3. apply negb_true_iff, bool_decide_eq_false. intros Hin.
  apply elem_of_cons in Hin as [Hin|Hin].
  - apply H1. by apply bool_decide_eq_true.
  - apply H2. by apply bool_decide_eq_true.
Qed.

(** C1, as the code has it.  A feed none of whose features has a route
    type under any of the three keys comes back as the single group
    [other], with every feature in feed order and no [train], [bus] or
    [all] group; an empty feed comes back as the empty mapping. *)
Theorem groupTransitLayers_untyped (data : GeoCollection) :
  Forall no_route_type (features_of data) →
  groupTransitLayers (Some data) =
    match features_of data with
    | [] => no_layers
    | fs => {| train := None; bus := None;
               other := Some (FeatureCollection fs); all := None |}
    end.
Proof.
  intros Hno. unfold groupTransitLayers, features_length.
  destruct (features_of data) as [|f fs] eqn:Hfs; [done|]. simpl.
  rewrite !layer_if_any_collection.
  rewrite (filter_none (λ f0, bool_decide (routeType f0 = "train") = true)).
  2:{ eapply Forall_impl; [exact Hno|]. intros x Hx. by rewrite (routeType_untyped x Hx). }
  rewrite (filter_none (λ f0, Str.includes ["standard"; "cat"; "school"] (routeType f0) = true)).
  2:{ eapply Forall_impl; [exact Hno|]. intros x Hx. by rewrite (routeType_untyped x Hx). }
  rewrite (filter_all (λ f0, negb (Str.includes ["train"; "standard"; "cat"; "school"]
                                     (routeType f0)) = true)).
  2:{ eapply Forall_impl; [exact Hno|]. intros x Hx. by rewrite (routeType_untyped x Hx). }
  reflexivity.
Qed.

Lemma groupTransitLayers_untyped_witness :
  groupTransitLayers (Some untyped_feed) =
    {| train := None; bus := None;
       other := Some (FeatureCollection (features_of untyped_feed)); all := None |}.
Proof.
  apply (groupTransitLayers_untyped untyped_feed).
  repeat constructor.
Defined.

(** C1, as worded, fails: a feed of one feature without properties comes
    back under [other], not under [all]. *)
Lemma groupTransitLayers_no_all_fallback :
  Forall no_route_type (features_of untyped_feed)
  ∧ all (groupTransitLayers (Some untyped_feed)) = None
  ∧ other (groupTransitLayers (Some untyped_feed)) = Some untyped_feed
  ∧ ¬ untyped_feed_falls_back_to_all untyped_feed.
Proof.
  assert (Hno : Forall no_route_type (features_of untyped_feed)) by repeat constructor.
  split; [exact Hno|]. split; [reflexivity|]. split; [reflexivity|].
  intros Hclaim. destruct (Hclaim Hno) as ((c & Hall & _) & _).
  vm_compute in Hall. discriminate Hall.
Qed.

Lemma collect_lookup (data : GeoCollection) (level k : string)
    (layers : gmap string GeoCollection) :
  collect data level layers !! k =
    if decide (level = k)
    then match level_group data level with
         | Some c => Some c
         | None => layers !! k
         end
    else layers !! k.
Proof.
  unfold collect, level_group, has_level.
  destruct (filter _ (features_of data)) as [|f fs].
  - by destruct (decide (level = k)).
  - destruct (decide (level = k)) as [->|Hne].
    + by rewrite lookup_insert_eq.
    + by rewrite lookup_insert_ne.
Qed.

Lemma has_level_inj (l1 l2 : string) (f : GeoFeature) :
  has_level l1 f = true → has_level l2 f = true → l1 = l2.
Proof.
  unfold has_level. destruct (get (props_of f) "catchment_level"); simpl; try done.
  intros H1%bool_decide_eq_true H2%bool_decide_eq_true. congruence.
Qed.

(** C8. The mapping of [summarizeCatchments] has, for each of the levels
    [primary], [high] and [other], the features whose [catchment_level] is
    exactly that level, in feed order, and no entry for a level without
    features (nor for anything else); the groups are disjoint.  So a feed
    of [primary] features only comes back under the single key [primary]. *)
Theorem summarizeCatchments_groups (data : GeoCollection) :
  let layers := cr_layers (summarizeCatchments (Some data)) in
  (∀ level, layers !! level =
      if bool_decide (level ∈ catchment_levels) then level_group data level else None)
  ∧ (∀ level c, layers !! level = Some c → features_of c ≠ [])
  ∧ (∀ l1 l2 f, has_level l1 f = true → has_level l2 f = true → l1 = l2)
  ∧ (∀ f fs, features_of data = f :: fs →
       Forall (λ f, has_level "primary" f = true) (f :: fs) →
       layers !! "primary" = Some (FeatureCollection (f :: fs))
       ∧ layers !! "high" = None ∧ layers !! "other" = None
       ∧ dom layers = {["primary"]}).
Proof.
  intros layers.
  assert (Hlookup : ∀ level, layers !! level =
            if bool_decide (level ∈ catchment_levels) then level_group data level else None).
  { intros level. subst layers. unfold summarizeCatchments, features_length.
    destruct (features_of data) as [|f fs] eqn:Hfs; simpl.
    - rewrite lookup_empty. unfold level_group. rewrite Hfs. by case_bool_decide.
    - rewrite !collect_lookup, lookup_empty. unfold catchment_levels.
      destruct (decide ("other" = level)) as [<-|H1]; [by destruct (level_group data "other")|].
      destruct (decide ("high" = level)) as [<-|H2]; [by destruct (level_group data "high")|].
      destruct (decide ("primary" = level)) as [<-|H3];
        [by destruct (level_group data "primary")|].
      rewrite bool_decide_eq_false_2; [done|].
      rewrite !elem_of_cons, elem_of_nil. intros [?|[?|[?|[]]]]; congruence. }
  split; [exact Hlookup|]. split; [|split; [apply has_level_inj|]].
  - intros level c. rewrite Hlookup. case_bool_decide; [|done].
    unfold level_group. destruct (filter _ _) eqn:E; [done|].
    intros [= <-]. done.
  - intros f fs Hfs Hall.
    assert (Hp : level_group data "primary" = Some (FeatureCollection (f :: fs))).
    { unfold level_group. rewrite Hfs. by rewrite filter_all. }
    assert (Hn : ∀ level, level ≠ "primary" → level_group data level = None).
    { intros level Hne. unfold level_group. rewrite Hfs. rewrite filter_none; [done|].
      eapply Forall_impl; [exact Hall|]. intros x Hx Hx'. apply Hne.
      by apply (has_level_inj _ _ x). }
    split; [|split; [|split]].
    + rewrite Hlookup. by rewrite bool_decide_eq_true_2 by (by left).
    + rewrite Hlookup. case_bool_decide; [by apply Hn|done].
    + rewrite Hlookup. case_bool_decide; [by apply Hn|done].
    + apply set_eq. intros k. rewrite elem_of_dom, Hlookup, elem_of_singleton.
      case_bool_decide as Hk.
      * destruct (decide (k = "primary")) as [->|Hne].
        -- rewrite Hp. split; [done|eauto].
        -- rewrite (Hn k Hne). split; [by intros [? ?]|done].
      * split; [by intros [? ?]|]. intros ->. exfalso. apply Hk. by left.
Qed.

Lemma summarizeCatchments_groups_witness :
  let data := FeatureCollection
                [mkFeature None (Some [("catchment_level", VStr "primary"); ("name", VStr "A")]);
                 mkFeature None (Some [("name", VStr "B"); ("catchment_level", VStr "primary")])] in
  let layers := cr_layers (summarizeCatchments (Some data)) in
  layers !! "primary" = Some data
  ∧ layers !! "high" = None ∧ layers !! "other" = None
  ∧ dom layers = {["primary"]}.
Proof.
  intros data layers.
  apply (proj2 (proj2 (proj2 (summarizeCatchments_groups data))) _ _ eq_refl).
  repeat constructor.
Defined.

(* ------------------------------------------------------------------ *)
(** * Properties of the percentage parser *)

Lemma append_cons (c : ascii) (a b : string) : String c a +:+ b = String c (a +:+ b).
Proof. reflexivity. Qed.

Lemma append_nil (b : string) : "" +:+ b = b.
Proof. reflexivity. Qed.

(** A percent sign changes nothing, wherever it stands. *)
Lemma removeAll_percent (a b : string) :
  Str.removeAll "%" (a +:+ String "%" b) = Str.removeAll "%" (a +:+ b).
Proof.
  induction a as [|c a IH].
  - reflexivity.
  - rewrite !append_cons. cbn [Str.removeAll]. by rewrite IH.
Qed.


(** C9, as the code has it.  [parsePercentile] is total: a finite number is
    returned as it is; a string is returned as the number it converts to
    once every percent sign (wherever it stands) and the surrounding white
    space are removed, when that text is not empty and converts to a finite
    number; everything else is [null].  In particular "87.5%" gives 87.5,
    the empty string gives null and 42 gives 42. *)
Theorem parsePercentile_cases :
  (∀ n, parsePercentile (VNum n) = if Num.isFinite n then Some n else None)
  ∧ (∀ s, numeric (cleaned s) →
          parsePercentile (VStr s) = Some (Str.StringToNumber (cleaned s)))
  ∧ (∀ s, ¬ numeric (cleaned s) → parsePercentile (VStr s) = None)
  ∧ (∀ v, (∀ n, v ≠ VNum n) → (∀ s, v ≠ VStr s) → parsePercentile v = None)
  ∧ (∀ a b, parsePercentile (VStr (a +:+ "%" +:+ b)) = parsePercentile (VStr (a +:+ b)))
  ∧ parsePercentile (VStr "87.5%") = Some (Fin (875 # 10))
  ∧ parsePercentile (VStr "") = None
  ∧ parsePercentile (VNum (Fin 42)) = Some (Fin 42).
Proof.
  split; [|split; [|split; [|split; [|split; [|repeat split; reflexivity]]]]].
  - intros n. reflexivity.
  - intros s [Hne Hfin]. unfold parsePercentile, cleaned in *. simpl.
    rewrite bool_decide_eq_false_2 by done. by rewrite Hfin.
  - intros s Hnot. unfold parsePercentile, numeric, cleaned in *. simpl.
    case_bool_decide as Hc; [done|].
    destruct (Num.isFinite _) eqn:Hfin; [|done]. exfalso. by apply Hnot.
  - intros v Hn Hs. destruct v as [| |b|n|s]; try done.
    + by destruct (Hn n).
    + by destruct (Hs s).
  - intros a b. change ("%" +:+ b) with (String "%" b).
    unfold parsePercentile. cbn [is_nullish]. by rewrite removeAll_percent.
Qed.

Lemma parsePercentile_cases_witness :
  parsePercentile (VStr " 12.5 %") = Some (Str.StringToNumber "12.5").
Proof.
  apply (proj1 (proj2 parsePercentile_cases) " 12.5 %").
  split; [done|reflexivity].
Defined.

(** C9, as worded, fails: with two percent signs the string is not numeric
    after one is stripped, and yet it is parsed. *)
Lemma parsePercentile_strips_every_percent :
  numeric_after_optional_percent "5%%" = false
  ∧ parsePercentile (VStr "5%%") = Some (Fin 5)
  ∧ ¬ null_unless_one_percent "5%%".
Proof.
  split; [reflexivity|]. split; [reflexivity|].
  intros H. specialize (H eq_refl). vm_compute in H. discriminate H.
Qed.

(* ------------------------------------------------------------------ *)
(** * Properties of the school summary *)

Lemma bump_is_Some (key k : string) (counts : gmap string nat) :
  is_Some (bump key counts !! k) → k = key ∨ is_Some (counts !! k).
Proof.
  unfold bump. destruct (decide (key = k)) as [->|Hne]; [by left|].
  rewrite lookup_insert_ne by done. by right.
Qed.

Lemma summary_step_inv (fs : list GeoFeature) (acc acc' : SchoolsSummary) (f : GeoFeature) :
  f ∈ fs → summary_inv fs acc → summary_step acc f = Ok acc' →
  summary_inv fs acc' ∧ schools_count acc' = schools_count acc.
Proof.
  intros Hf (Hstage & Hsector & Hremote). unfold summary_step.
  fold (sector_key f). fold (remote_key f).
  destruct (call_toLowerCase _) as [stage|e]; simpl; [|done].
  intros [= <-]. cbn [stageCounts sectorCounts remoteCounts schools_count].
  split; [|done]. split; [|split]; cbn [stageCounts sectorCounts remoteCounts].
  - intros k Hk. specialize (Hstage k Hk).
    destruct (stageCounts acc !! stage) eqn:E.
    + destruct (decide (stage = k)) as [->|Hne].
      * rewrite lookup_insert_eq. eauto.
      * by rewrite lookup_insert_ne.
    + destruct (decide ("other" = k)) as [<-|Hne].
      * rewrite lookup_insert_eq. eauto.
      * by rewrite lookup_insert_ne.
  - intros k. case_bool_decide as Hs; [|apply Hsector].
    intros [->|H]%bump_is_Some; [|by apply Hsector]. eauto.
  - intros k. case_bool_decide as Hs; [|apply Hremote].
    intros [->|H]%bump_is_Some; [|by apply Hremote]. eauto.
Qed.

Lemma summary_loop_inv (fs rest : list GeoFeature) (acc s : SchoolsSummary) :
  rest ⊆ fs → summary_inv fs acc → summary_loop acc rest = Ok s →
  summary_inv fs s ∧ schools_count s = schools_count acc.
Proof.
  revert acc. induction rest as [|f rest IH]; intros acc Hsub Hinv; simpl.
  - by intros [= <-].
  - destruct (summary_step acc f) as [acc'|e] eqn:Hstep; simpl; [|done].
    intros Hloop.
    destruct (summary_step_inv fs acc acc' f) as [Hinv' Hcount]; [|done..|].
    { apply Hsub. by left. }
    destruct (IH acc') as [Hinv'' Hcount'']; [|done..|].
    { intros x Hx. apply Hsub. by right. }
    split; [done|congruence].
Qed.

Lemma summary_loop_returns (rest : list GeoFeature) (acc : SchoolsSummary) :
  Forall stage_typed rest → ∃ s, summary_loop acc rest = Ok s.
Proof.
  intros Htyped. revert acc. induction Htyped as [|f rest Hf _ IH]; intros acc; simpl.
  - eauto.
  - assert (∃ acc', summary_step acc f = Ok acc') as [acc' ->].
    { unfold summary_step, stage_typed, or_else in *.
      destruct (get (props_of f) "stage") as [| |b|n|s0]; simpl in *; eauto.
      - destruct b; [done|simpl; eauto].
      - destruct (match n with NaN => false | Fin q => negb (Qeq_bool q 0) | _ => true end);
          [done|simpl; eauto].
      - destruct (negb (bool_decide (s0 = ""))); simpl; eauto. }
    simpl. apply IH.
Qed.

Lemma summary_inv_init (fs : list GeoFeature) (n : nat) :
  summary_inv fs {| schools_count := n; sectorCounts := ∅; remoteCounts := ∅;
                    stageCounts := stageCounts_init |}.
Proof.
  split; [|split]; simpl.
  - intros k Hk. unfold stage_names in Hk. rewrite !elem_of_cons, elem_of_nil in Hk.
    destruct Hk as [->|[->|[->|[->|[]]]]]; by eexists.
  - intros k [? H]. by rewrite lookup_empty in H.
  - intros k [? H]. by rewrite lookup_empty in H.
Qed.

(** C10. [summarizeSchools] gives [null], and no summary, for a collection
    that is [null] or has no feature; it gives a summary for every other
    collection whose stages are strings or blank; and a summary it gives
    counts the features, has the four stage keys [primary], [secondary],
    [combined] and [other], and has under [sectorCounts] and [remoteCounts]
    only keys that are the trimmed, non-blank value of some feature. *)
Theorem summarizeSchools_summary (collection : option GeoCollection) :
  match collection_features collection with
  | [] => summarizeSchools collection = Ok None
  | fs =>
      (Forall stage_typed fs → ∃ s, summarizeSchools collection = Ok (Some s))
      ∧ ∀ r, summarizeSchools collection = Ok r →
          ∃ s, r = Some s
            ∧ schools_count s = length fs
            ∧ (∀ k, k ∈ stage_names → is_Some (stageCounts s !! k))
            ∧ (∀ k, is_Some (sectorCounts s !! k) →
                 k ≠ "" ∧ ∃ f, f ∈ fs ∧ sector_key f = k)
            ∧ (∀ k, is_Some (remoteCounts s !! k) →
                 k ≠ "" ∧ ∃ f, f ∈ fs ∧ remote_key f = k)
  end.
Proof.
  unfold summarizeSchools, features_length, collection_features.
  destruct collection as [c|]; [|done].
  destruct (features_of c) as [|f fs] eqn:Hfs; [done|]. simpl.
  split.
  - intros Htyped.
    destruct (summary_loop_returns (f :: fs)
                {| schools_count := S (length fs); sectorCounts := ∅; remoteCounts := ∅;
                   stageCounts := stageCounts_init |} Htyped) as [s Hs].
    simpl in Hs. rewrite Hs. simpl. eauto.
  - intros r.
    destruct (summary_step _ f) as [acc'|e] eqn:Hstep; simpl; [|done].
    destruct (summary_loop acc' fs) as [s|e] eqn:Hloop; simpl; [|done].
    intros [= <-]. exists s. split; [done|].
    destruct (summary_loop_inv (f :: fs) (f :: fs)
                {| schools_count := S (length fs); sectorCounts := ∅; remoteCounts := ∅;
                   stageCounts := stageCounts_init |} s) as [(H1 & H2 & H3) Hcount].
    + done.
    + apply summary_inv_init.
    + simpl. rewrite Hstep. simpl. exact Hloop.
    + simpl in Hcount. done.
Qed.

Lemma summarizeSchools_summary_witness :
  ∃ s, summarizeSchools
         (Some (FeatureCollection
                  [mkFeature None (Some [("sector", VStr " Government "); ("stage", VStr "Primary")]);
                   mkFeature None (Some [("sector", VStr "  "); ("stage", VStr "K-10")])]))
       = Ok (Some s).
Proof.
  apply (proj1 (summarizeSchools_summary
    (Some (FeatureCollection
             [mkFeature None (Some [("sector", VStr " Government "); ("stage", VStr "Primary")]);
              mkFeature None (Some [("sector", VStr "  "); ("stage", VStr "K-10")])])))).
  repeat constructor.
Defined.

(* ------------------------------------------------------------------ *)
(** * Properties of the metadata builder *)

Section sorting.
Context {A : Type} (key : A → string).

Lemma leb_false_le (a b : string) : String.leb a b = false → String.le b a.
Proof.
  intros H. destruct (total String.le a b) as [Hab|Hba]; [|done].
  unfold String.le in Hab. rewrite H in Hab. done.
Qed.

Lemma sort_insert_perm (x : A) (l : list A) : sort_insert key x l ≡ₚ x :: l.
Proof.
  induction l as [|y l IH]; simpl; [done|].
  destruct (String.leb (key y) (key x)); [|done].
  rewrite IH. apply Permutation_swap.
Qed.

Lemma sort_insert_HdRel (a x : A) (l : list A) :
  by_string key a x → HdRel (by_string key) a l →
  HdRel (by_string key) a (sort_insert key x l).
Proof.
  intros Hax Hal. destruct l as [|y l]; simpl.
  - by constructor.
  - destruct (String.leb (key y) (key x)); constructor; [|done].
    by inversion Hal.
Qed.

Lemma sort_insert_Sorted (x : A) (l : list A) :
  Sorted (by_string key) l → Sorted (by_string key) (sort_insert key x l).
Proof.
  induction 1 as [|y l Hl IH Hhd]; simpl.
  - by repeat constructor.
  - destruct (String.leb (key y) (key x)) eqn:E.
    + constructor; [done|]. apply sort_insert_HdRel; [|done].
      unfold by_string, String.le. by rewrite E.
    + constructor; [by constructor|]. constructor. by apply leb_false_le.
Qed.

Lemma sort_by_spec (l : list A) :
  Sorted (by_string key) (sort_by key l) ∧ sort_by key l ≡ₚ l.
Proof.
  unfold sort_by.
  cut (∀ acc, Sorted (by_string key) acc →
         Sorted (by_string key) (foldl (λ sorted x, sort_insert key x sorted) acc l)
         ∧ foldl (λ sorted x, sort_insert key x sorted) acc l ≡ₚ acc ++ l).
  { intros H. apply (H []). constructor. }
  induction l as [|x l IH]; intros acc Hacc; simpl.
  - by rewrite app_nil_r.
  - destruct (IH (sort_insert key x acc)) as [HS HP]; [by apply sort_insert_Sorted|].
    split; [done|]. rewrite HP, sort_insert_perm. simpl. apply Permutation_middle.
Qed.

End sorting.

Lemma sort_strings_spec (l : list string) :
  Sorted String.le (sort_strings l) ∧ sort_strings l ≡ₚ l.
Proof. apply (sort_by_spec id). Qed.

(** Sorting forgets the order of its input. *)
Lemma sort_strings_perm (l k : list string) : l ≡ₚ k → sort_strings l = sort_strings k.
Proof.
  intros Hlk.
  destruct (sort_strings_spec l) as [Hl Pl], (sort_strings_spec k) as [Hk Pk].
  apply (Sorted_unique String.le); [done..|]. by rewrite Pl, Pk.
Qed.

Lemma dict_get_None {A} (d : list (string * A)) (k : string) :
  dict_get d k = None ↔ k ∉ d.*1.
Proof.
  induction d as [|[k' a] d IH]; simpl.
  - split; [intros _; apply not_elem_of_nil|done].
  - rewrite not_elem_of_cons. destruct (decide (k' = k)) as [->|Hne].
    + split; [done|]. by intros [? _].
    + rewrite IH. split; [by intros ?; split|by intros [_ ?]].
Qed.

Lemma set_add_string_cons (k k' : string) (s : list string) :
  set_add_string k (k' :: s) =
    if decide (k' = k) then k' :: s else k' :: set_add_string k s.
Proof.
  unfold set_add_string. destruct (decide (k' = k)) as [->|Hne].
  - by rewrite bool_decide_eq_true_2 by (by left).
  - destruct (decide (k ∈ s)) as [Hin|Hin].
    + by rewrite !bool_decide_eq_true_2 by (done || by right).
    + rewrite !bool_decide_eq_false_2; [done..|].
      rewrite not_elem_of_cons. split; [congruence|done].
Qed.

Lemma dict_set_keys {A} (d : list (string * A)) (k : string) (a : A) :
  (dict_set d k a).*1 = set_add_string k d.*1.
Proof.
  induction d as [|[k' b] d IH].
  - reflexivity.
  - cbn [dict_set]. rewrite fmap_cons. cbn [fst]. rewrite set_add_string_cons.
    destruct (decide (k' = k)); [done|]. rewrite fmap_cons. cbn [fst]. by rewrite IH.
Qed.

Lemma set_add_string_elem (k : string) (s : list string) :
  k ∈ s → set_add_string k s = s.
Proof. intros H. unfold set_add_string. by rewrite bool_decide_eq_true_2. Qed.

Lemma set_add_string_spec (k : string) (s : list string) :
  NoDup s → NoDup (set_add_string k s) ∧ ∀ x, x ∈ set_add_string k s ↔ x = k ∨ x ∈ s.
Proof.
  intros Hs. unfold set_add_string. case_bool_decide as Hin.
  - split; [done|]. intros x. split; [by right|]. by intros [->|].
  - split.
    + apply NoDup_app. split; [done|]. split; [|apply NoDup_singleton].
      intros x Hx ->%list_elem_of_singleton. done.
    + intros x. rewrite elem_of_app, list_elem_of_singleton. tauto.
Qed.

(** ** The first loop *)

Lemma meta_step_throws (acc : MetaAcc) (f : GeoFeature) :
  metadata_throws f = true →
  meta_step acc f = Throw (TypeError "sa2ByState[state].add is not a function").
Proof.
  unfold metadata_throws, meta_step. cbv zeta.
  intros [[Hstate Hinh]%andb_true_iff Hsa2]%andb_true_iff.
  by rewrite Hstate, Hinh, Hsa2.
Qed.

Lemma meta_step_returns (acc : MetaAcc) (f : GeoFeature) :
  metadata_throws f = false → ∃ acc', meta_step acc f = Ok acc'.
Proof.
  unfold metadata_throws, meta_step. cbv zeta. intros Hsafe.
  destruct (truthy (get (props_of f) "STE_NAME21")); [|by eexists].
  destruct (inherited _); [|by eexists].
  destruct (truthy (get (props_of f) "SA2_NAME21")); [done|by eexists].
Qed.

Lemma meta_step_safe (acc acc' : MetaAcc) (f : GeoFeature) :
  meta_step acc f = Ok acc' → metadata_throws f = false.
Proof.
  intros Hstep. destruct (metadata_throws f) eqn:Hthrows; [|done].
  by rewrite (meta_step_throws acc f Hthrows) in Hstep.
Qed.

(** An invariant of the turns that return is an invariant of the loop. *)
Lemma meta_loop_inv (P : list GeoFeature → MetaAcc → Prop) (fs seen : list GeoFeature)
    (acc acc' : MetaAcc) :
  (∀ seen acc f acc', P seen acc → meta_step acc f = Ok acc' → P (seen ++ [f]) acc') →
  P seen acc → meta_loop acc fs = Ok acc' → P (seen ++ fs) acc'.
Proof.
  intros Hstep. revert seen acc. induction fs as [|f fs IH]; intros seen acc Hacc; cbn [meta_loop].
  - intros [= <-]. by rewrite app_nil_r.
  - destruct (meta_step acc f) as [acc1|e] eqn:Hf; cbn [mbind result_bind]; [|done].
    intros Hloop. rewrite (assoc_L (++) seen [f] fs : seen ++ f :: fs = (seen ++ [f]) ++ fs).
    apply (IH (seen ++ [f]) acc1); [|done]. by apply (Hstep seen acc).
Qed.

Lemma meta_loop_returns (fs : list GeoFeature) (acc : MetaAcc) :
  metadata_safe fs ↔ ∃ acc', meta_loop acc fs = Ok acc'.
Proof.
  revert acc. induction fs as [|f fs IH]; intros acc; cbn [meta_loop].
  - split; [by eexists|]. intros _. constructor.
  - split.
    + intros [Hf Hfs]%Forall_cons. destruct (meta_step_returns acc f Hf) as [acc1 ->].
      cbn [mbind result_bind]. by apply IH.
    + intros [acc' Hloop]. destruct (meta_step acc f) as [acc1|e] eqn:Hf;
        cbn [mbind result_bind] in Hloop; [|done].
      constructor; [by apply (meta_step_safe acc acc1)|]. apply (IH acc1). by exists acc'.
Qed.

(** A polygon with a state named like an inherited member and an SA2 name
    makes [buildMetadata] throw; without such a polygon it returns. *)
Lemma buildMetadata_returns (data : GeoCollection) :
  metadata_safe (features_of data) ↔ returns (buildMetadata data).
Proof.
  rewrite (meta_loop_returns (features_of data) (mkAcc [] [] [])).
  unfold returns, buildMetadata. split.
  - intros [acc ->]. cbn [mbind result_bind]. by eexists.
  - intros [md Hmd]. destruct (meta_loop _ _) as [acc|e]; [by eexists|done].
Qed.

(** The members of the metadata in terms of what the first loop gathered. *)
Lemma buildMetadata_fields (data : GeoCollection) (md : MapMetadata) :
  buildMetadata data = Ok md →
  ∃ acc, meta_loop (mkAcc [] [] []) (features_of data) = Ok acc
    ∧ states md = sort_strings (acc_sa2ByState acc).*1
    ∧ sa2ByState md = (prod_map id sort_values <$> acc_sa2ByState acc)
    ∧ totalBounds md = computeBounds (inl data)
    ∧ stateCenters md = foldl (center_step data) [] (acc_sa2ByState acc)
    ∧ propertyNames md = acc_propertyNames acc
    ∧ count md = length (features_of data)
    ∧ iradRange md = match acc_iradValues acc with
                     | [] => None
                     | vs => Some (Num.min_list vs, Num.max_list vs)
                     end
    ∧ seifaColumns md = filter (λ name, is_seifa_column name = true) (acc_propertyNames acc).
Proof.
  unfold buildMetadata. destruct (meta_loop _ _) as [acc|e]; cbn [mbind result_bind]; [|done].
  intros [= <-]. exists acc. by repeat split.
Qed.

(** The keys of [sa2ByState] after one feature. *)
Lemma meta_step_keys (acc acc' : MetaAcc) (f : GeoFeature) :
  meta_step acc f = Ok acc' →
  (acc_sa2ByState acc').*1 =
    match state_key_of f with
    | Some k => set_add_string k (acc_sa2ByState acc).*1
    | None => (acc_sa2ByState acc).*1
    end.
Proof.
  unfold meta_step, state_key_of. cbv zeta.
  destruct (truthy (get (props_of f) "STE_NAME21")); [|by intros [= <-]].
  destruct (inherited (ToString (get (props_of f) "STE_NAME21"))); cbn [andb negb].
  { destruct (truthy (get (props_of f) "SA2_NAME21")); [done|by intros [= <-]]. }
  cbn [mbind result_bind]. intros [= <-]. cbn [acc_sa2ByState].
  set (k := ToString (get (props_of f) "STE_NAME21")).
  set (d := match dict_get (acc_sa2ByState acc) k with
            | None => dict_set (acc_sa2ByState acc) k []
            | Some _ => acc_sa2ByState acc
            end).
  assert (Hd : d.*1 = set_add_string k (acc_sa2ByState acc).*1).
  { subst d. destruct (dict_get (acc_sa2ByState acc) k) eqn:E.
    - rewrite set_add_string_elem; [done|].
      destruct (decide (k ∈ (acc_sa2ByState acc).*1)) as [|Hn]; [done|].
      apply dict_get_None in Hn. congruence.
    - apply dict_set_keys. }
  destruct (truthy (get (props_of f) "SA2_NAME21")); [|done].
  rewrite dict_set_keys, <- Hd. apply set_add_string_elem. rewrite Hd.
  unfold set_add_string. case_bool_decide; [done|].
  apply elem_of_app. right. by apply list_elem_of_singleton.
Qed.

Lemma state_keys_snoc (seen : list GeoFeature) (f : GeoFeature) :
  state_keys (seen ++ [f]) = state_keys seen ++ match state_key_of f with
                                                 | Some k => [k]
                                                 | None => []
                                                 end.
Proof. unfold state_keys. rewrite omap_app. cbn. by destruct (state_key_of f). Qed.

Lemma meta_loop_keys (fs : list GeoFeature) (acc acc' : MetaAcc) :
  meta_loop acc fs = Ok acc' →
  (acc_sa2ByState acc').*1
  = foldl (λ s k, set_add_string k s) (acc_sa2ByState acc).*1 (state_keys fs).
Proof.
  intros Hloop.
  apply (meta_loop_inv
           (λ seen a, (acc_sa2ByState a).*1
                      = foldl (λ s k, set_add_string k s) (acc_sa2ByState acc).*1
                              (state_keys seen)) fs [] acc acc'); [|done..].
  intros seen a f a' Ha Hstep. rewrite (meta_step_keys a a' f Hstep), Ha, state_keys_snoc.
  rewrite foldl_app. by destruct (state_key_of f).
Qed.

Lemma add_all_spec (ks s : list string) :
  NoDup s →
  NoDup (foldl (λ s k, set_add_string k s) s ks)
  ∧ ∀ x, x ∈ foldl (λ s k, set_add_string k s) s ks ↔ x ∈ s ∨ x ∈ ks.
Proof.
  revert s. induction ks as [|k ks IH]; intros s Hs; simpl.
  - split; [done|]. intros x. rewrite elem_of_nil. tauto.
  - destruct (set_add_string_spec k s Hs) as [Hnd Hin].
    destruct (IH _ Hnd) as [Hnd' Hin']. split; [done|].
    intros x. rewrite Hin', Hin, elem_of_cons. tauto.
Qed.

(** The states found are the distinct state keys of the features. *)
Lemma buildMetadata_state_keys (data : GeoCollection) (md : MapMetadata) :
  buildMetadata data = Ok md →
  ∃ ks, states md = sort_strings ks
      ∧ NoDup ks ∧ ∀ k, k ∈ ks ↔ k ∈ state_keys (features_of data).
Proof.
  intros (acc & Hloop & Hstates & _)%buildMetadata_fields.
  exists (acc_sa2ByState acc).*1. split; [done|].
  rewrite (meta_loop_keys _ _ _ Hloop). cbn [acc_sa2ByState fmap list_fmap].
  destruct (add_all_spec (state_keys (features_of data)) [] (NoDup_nil_2)) as [Hnd Hin].
  split; [done|]. intros k. rewrite Hin, elem_of_nil. tauto.
Qed.

(** The values kept for the colour ramp: every conversion that is not NaN. *)
Lemma meta_step_iradValues (acc acc' : MetaAcc) (f : GeoFeature) :
  meta_step acc f = Ok acc' → acc_iradValues acc' = acc_iradValues acc ++ irad_values [f].
Proof.
  unfold meta_step. cbv zeta.
  destruct (if truthy (get (props_of f) "STE_NAME21") then _ else _) as [d|e];
    cbn [mbind result_bind]; [|done].
  intros [= <-]. unfold irad_values. cbn [acc_iradValues]. fold (decile f).
  rewrite fmap_cons, fmap_nil, filter_cons, filter_nil.
  destruct (decide (Num.isNaN (decile f) = false)) as [E|E].
  - by rewrite E.
  - destruct (Num.isNaN (decile f)); [|done]. simpl. by rewrite app_nil_r.
Qed.

Lemma irad_values_app (fs fs' : list GeoFeature) :
  irad_values (fs ++ fs') = irad_values fs ++ irad_values fs'.
Proof. unfold irad_values. by rewrite fmap_app, filter_app. Qed.

Lemma meta_loop_iradValues (fs : list GeoFeature) (acc acc' : MetaAcc) :
  meta_loop acc fs = Ok acc' → acc_iradValues acc' = acc_iradValues acc ++ irad_values fs.
Proof.
  intros Hloop.
  apply (meta_loop_inv
           (λ seen a, acc_iradValues a = acc_iradValues acc ++ irad_values seen)
           fs [] acc acc'); [|by rewrite app_nil_r|done].
  intros seen a f a' Ha Hstep.
  by rewrite (meta_step_iradValues a a' f Hstep), Ha, irad_values_app, app_assoc.
Qed.

Lemma buildMetadata_iradRange (data : GeoCollection) (md : MapMetadata) :
  buildMetadata data = Ok md →
  iradRange md =
    match irad_values (features_of data) with
    | [] => None
    | vs => Some (Num.min_list vs, Num.max_list vs)
    end.
Proof.
  intros (acc & Hloop & _ & _ & _ & _ & _ & _ & Hrange & _)%buildMetadata_fields.
  by rewrite Hrange, (meta_loop_iradValues _ _ _ Hloop).
Qed.

(** C2, on the code: a decile that is [null] is converted to zero and
    counted, so an area without a decile pulls the range down to 0, and a
    collection with no decile but a [null] one has the range [0, 0]. *)
Lemma buildMetadata_null_decile_counted :
  decile null_decile_area = Fin 0
  ∧ irad_values [null_decile_area; decile_5_area] = [Fin 0; Fin 5]
  ∧ iradRange <$> buildMetadata (FeatureCollection [null_decile_area; decile_5_area])
    = Ok (Some (Fin 0, Fin 5))
  ∧ iradRange <$> buildMetadata (FeatureCollection [null_decile_area])
    = Ok (Some (Fin 0, Fin 0)).
Proof. repeat split; reflexivity. Qed.

Lemma state_keys_perm (fs fs' : list GeoFeature) (k : string) :
  fs' ≡ₚ fs → k ∈ state_keys fs' ↔ k ∈ state_keys fs.
Proof.
  intros Hp. unfold state_keys. rewrite !list_elem_of_omap.
  split; intros (f & Hf & Hk); exists f; split; try done.
  - by rewrite <- Hp.
  - by rewrite Hp.
Qed.

(** [buildMetadata] reads its argument through its list of features. *)
Lemma buildMetadata_features (data data' : GeoCollection) :
  features_of data' = features_of data → buildMetadata data' = buildMetadata data.
Proof.
  intros Hfs. unfold buildMetadata, center_step, computeBounds. by rewrite Hfs.
Qed.

(** C5. [buildMetadata] reads nothing but the features of its argument,
    so two invocations on the same collection end alike: both throw, which
    happens exactly when a polygon has a state named like a member every
    object inherits together with an SA2 name, or both return the same
    metadata.  Its set-to-sequence conversions are sorted: [states] lists
    the distinct state keys in increasing string order, every [sa2ByState]
    entry is in increasing order of string conversion, and [states] does
    not depend on the order of the features. *)
Theorem buildMetadata_deterministic (data : GeoCollection) :
  (∀ data', features_of data' = features_of data → buildMetadata data' = buildMetadata data)
  ∧ (returns (buildMetadata data) ↔ metadata_safe (features_of data))
  ∧ ∀ md, buildMetadata data = Ok md →
      Sorted String.le (states md)
      ∧ NoDup (states md)
      ∧ (∀ k, k ∈ states md ↔ k ∈ state_keys (features_of data))
      ∧ Forall (λ entry, Sorted (by_string ToString) entry.2) (sa2ByState md)
      ∧ ∀ data' md', features_of data' ≡ₚ features_of data →
          buildMetadata data' = Ok md' → states md' = states md.
Proof.
  split; [apply buildMetadata_features|]. split; [symmetry; apply buildMetadata_returns|].
  intros md Hmd.
  destruct (buildMetadata_state_keys data md Hmd) as (ks & Hstates & Hnd & Hin).
  destruct (sort_strings_spec ks) as [Hsorted Hperm].
  split; [by rewrite Hstates|].
  split; [by rewrite Hstates, Hperm|].
  split; [intros k; by rewrite Hstates, Hperm|].
  split.
  - apply buildMetadata_fields in Hmd as (acc & _ & _ & -> & _).
    apply Forall_fmap, Forall_forall.
    intros [state values] _. simpl. apply (sort_by_spec ToString).
  - intros data' md' Hp Hmd'.
    destruct (buildMetadata_state_keys data' md' Hmd') as (ks' & Hstates' & Hnd' & Hin').
    rewrite Hstates, Hstates'. apply sort_strings_perm.
    apply NoDup_Permutation; [done..|].
    intros k. rewrite Hin, Hin'. by apply state_keys_perm.
Qed.

Lemma buildMetadata_deterministic_witness :
  ∃ md md',
    buildMetadata
      (FeatureCollection
         [mkFeature None (Some [("STE_NAME21", VStr "Tasmania")]);
          mkFeature None (Some [("STE_NAME21", VStr "Western Australia")])]) = Ok md
    ∧ buildMetadata
        (FeatureCollection
           [mkFeature None (Some [("STE_NAME21", VStr "Western Australia")]);
            mkFeature None (Some [("STE_NAME21", VStr "Tasmania")])]) = Ok md'
    ∧ states md' = states md.
Proof.
  destruct (buildMetadata
              (FeatureCollection
                 [mkFeature None (Some [("STE_NAME21", VStr "Tasmania")]);
                  mkFeature None (Some [("STE_NAME21", VStr "Western Australia")])]))
    as [md|e] eqn:Hmd; [|vm_compute in Hmd; discriminate Hmd].
  destruct (buildMetadata
              (FeatureCollection
                 [mkFeature None (Some [("STE_NAME21", VStr "Western Australia")]);
                  mkFeature None (Some [("STE_NAME21", VStr "Tasmania")])]))
    as [md'|e] eqn:Hmd'; [|vm_compute in Hmd'; discriminate Hmd'].
  exists md, md'. split; [reflexivity|]. split; [reflexivity|].
  destruct (buildMetadata_deterministic
              (FeatureCollection
                 [mkFeature None (Some [("STE_NAME21", VStr "Tasmania")]);
                  mkFeature None (Some [("STE_NAME21", VStr "Western Australia")])]))
    as (_ & _ & H).
  destruct (H md Hmd) as (_ & _ & _ & _ & Hperm).
  eapply Hperm; [|exact Hmd']. apply Permutation_swap.
Defined.

(* ------------------------------------------------------------------ *)
(** * Properties of the load *)

(** Whatever goes wrong with a request, [fetchJson] yields [null]. *)
Lemma fetchJson_failure {T} (response : Fetch T) :
  (∀ payload, response ≠ Json (Some payload)) → fetchJson response = None.
Proof.
  destruct response as [| | |[p|]]; try done. intros H. by destruct (H p).
Qed.

Lemma staged_stage_typed (f f' : GeoFeature) :
  stage_typed f → staged f f' → stage_typed f'.
Proof.
  unfold stage_typed. intros Ht (_ & _ & Hkeep & Hnew).
  destruct (truthy (get (props_of f) "stage")) eqn:E.
  - by rewrite (Hkeep eq_refl).
  - destruct (Hnew eq_refl) as (s & _ & ->). done.
Qed.

Lemma ensureSchoolStages_typed (schools : option GeoCollection) :
  schools_typed schools →
  ∃ staged_schools, ensureSchoolStages schools = Ok staged_schools
    ∧ (schools = None ↔ staged_schools = None)
    ∧ Forall stage_typed (collection_features staged_schools).
Proof.
  intros Htyped. destruct schools as [c|].
  - unfold schools_typed in Htyped. simpl in Htyped.
    unfold ensureSchoolStages, features_of in *.
    destruct (features c) as [fs|]; simpl in *.
    + destruct (mapM_result ensure_stage (λ f f', stage_typed f ∧ staged f f') fs)
        as (fs' & Hfs' & HF).
      { eapply Forall_impl; [exact Htyped|]. intros f [Hs Hy].
        destruct (ensure_stage_staged f Hy) as (f' & Hf' & Hst). eauto. }
      rewrite Hfs'. simpl. eexists. split; [reflexivity|]. split; [done|].
      simpl. unfold features_of. simpl.
      clear Hfs' Htyped. induction HF as [|f f' fs fs' [Hs Hst] _ IH]; constructor; [|done].
      by apply (staged_stage_typed f).
    + eexists. split; [reflexivity|]. split; [done|]. constructor.
  - exists None. split; [reflexivity|]. split; [done|]. constructor.
Qed.

Lemma summarizeSchools_typed (collection : option GeoCollection) :
  Forall stage_typed (collection_features collection) →
  ∃ summary, summarizeSchools collection = Ok summary
    ∧ (collection = None → summary = None).
Proof.
  intros Htyped. unfold summarizeSchools, features_length.
  destruct collection as [c|]; [|by exists None].
  simpl in Htyped. destruct (features_of c) as [|f fs] eqn:Hfs.
  - by exists None.
  - destruct (summary_loop_returns (f :: fs)
                {| schools_count := length (f :: fs); sectorCounts := ∅; remoteCounts := ∅;
                   stageCounts := stageCounts_init |} Htyped) as [s Hs].
    rewrite Hs. simpl. by eexists.
Qed.

(** C6, as the code has it.  A request that fails in any way yields
    [null].  Without the primary dataset the load throws.  With it, with
    no polygon on which [buildMetadata] throws and with a schools feed
    whose stage and year codes are strings or blank, the load succeeds
    whatever became of the other requests: a missing transit, schools or
    catchment dataset leaves that part empty and its warning string in the
    snapshot (and a dataset that arrived leaves no "missing" warning),
    while a missing manifest is replaced by the empty manifest, for which
    the snapshot has no warning. *)
Theorem loadMapData_outcome (assets : Assets) :
  match fetchJson (SA1_FILE assets) with
  | None =>
      loadMapData assets
      = Throw (Error "SA1 dataset is required. Ensure assets are generated under /assets.")
  | Some primary =>
      metadata_safe (features_of primary) →
      schools_typed (fetchJson (SCHOOLS_FILE assets)) →
      ∃ m, loadMapData assets = Ok m
        ∧ sa1 m = primary
        ∧ match fetchJson (TRANSIT_FILE assets) with
          | None => transit m = no_layers
                    ∧ transitWarning m = Some "Transit GeoJSON missing from assets."
          | Some _ => transitWarning m = None
          end
        ∧ match fetchJson (SCHOOLS_FILE assets) with
          | None => schools m = None ∧ schoolsSummary m = None
                    ∧ schoolsWarning m = Some "Schools GeoJSON missing from assets."
          | Some _ => is_Some (schools m) ∧ schoolsWarning m = None
          end
        ∧ match fetchJson (CATCHMENTS_FILE assets) with
          | None => catchments m = ∅ ∧ catchmentsSummary m = None
                    ∧ catchmentsWarning m = Some "Catchment GeoJSON not found or empty."
          | Some _ => True
          end
        ∧ match fetchJson (ARCGIS_MANIFEST assets) with
          | None => arcgisManifest m = {| layers := [] |}
          | Some manifest => arcgisManifest m = manifest
          end
  end.
Proof.
  unfold loadMapData.
  destruct (fetchJson (SA1_FILE assets)) as [primary|]; [|done].
  intros [md Hmd]%buildMetadata_returns Htyped.
  destruct (ensureSchoolStages_typed _ Htyped) as (staged_schools & Hst & Hnone & Hty).
  destruct (summarizeSchools_typed _ Hty) as (summary & Hsum & Hsnone).
  rewrite Hmd. cbn [mbind result_bind]. rewrite Hst. simpl. rewrite Hsum. simpl.
  eexists. split; [reflexivity|]. cbn [sa1 transit transitWarning schools schoolsSummary
    schoolsWarning catchments catchmentsSummary catchmentsWarning arcgisManifest].
  split; [done|]. split; [|split; [|split]].
  - by destruct (fetchJson (TRANSIT_FILE assets)).
  - destruct (fetchJson (SCHOOLS_FILE assets)) as [s|].
    + destruct staged_schools as [c|]; [by eauto|]. discriminate (proj2 Hnone eq_refl).
    + rewrite (proj1 Hnone eq_refl) in *. by rewrite (Hsnone eq_refl).
  - by destruct (fetchJson (CATCHMENTS_FILE assets)).
  - unfold loadArcgisManifest. by destruct (fetchJson (ARCGIS_MANIFEST assets)).
Qed.

Lemma loadMapData_outcome_witness :
  ∃ m, loadMapData assets_without_manifest = Ok m
     ∧ sa1 m = FeatureCollection
         [mkFeature (Some (Point [Fin 115; Fin (-32)]))
                    (Some [("STE_NAME21", VStr "Western Australia");
                           ("SA2_NAME21", VStr "Perth"); ("IRAD_decile", VNum (Fin 7))])]
     ∧ transitWarning m = None
     ∧ (is_Some (schools m) ∧ schoolsWarning m = None)
     ∧ True
     ∧ arcgisManifest m = {| layers := [] |}.
Proof.
  apply (loadMapData_outcome assets_without_manifest).
  - repeat constructor.
  - repeat constructor.
Defined.

(** C6, as worded, fails: with the manifest missing and the rest in order
    the snapshot has no warning at all. *)
Lemma loadMapData_manifest_unwarned :
  fetchJson (ARCGIS_MANIFEST assets_without_manifest) = None
  ∧ (∃ m, loadMapData assets_without_manifest = Ok m ∧ warnings m = [])
  ∧ ¬ fails_only_without_primary_and_warns assets_without_manifest.
Proof.
  split; [reflexivity|].
  destruct (loadMapData assets_without_manifest) as [m|e] eqn:Hload;
    [|vm_compute in Hload; discriminate Hload].
  assert (Hw : warnings m = []).
  { vm_compute in Hload. injection Hload as <-. reflexivity. }
  split; [by exists m|].
  intros [_ H]. destruct (H m Hload) as (_ & _ & _ & Hm).
  by apply Hm.
Qed.

(** The load also fails, with the primary dataset in place, on a school
    whose year code is a number. *)
Lemma loadMapData_numeric_year_throws :
  is_Some (fetchJson (SA1_FILE assets_with_numeric_year))
  ∧ loadMapData assets_with_numeric_year
    = Throw (TypeError "toUpperCase is not a function").
Proof. split; [by eexists|reflexivity]. Qed.

(** ... and on a polygon whose state is named like an inherited member and
    which has an SA2 name: [buildMetadata] throws, and nothing catches it. *)
Lemma loadMapData_inherited_state_throws :
  is_Some (fetchJson (SA1_FILE assets_with_inherited_state))
  ∧ loadMapData assets_with_inherited_state
    = Throw (TypeError "sa2ByState[state].add is not a function")
  ∧ ∀ assets primary,
      fetchJson (SA1_FILE assets) = Some primary →
      ¬ metadata_safe (features_of primary) →
      ∃ e, loadMapData assets = Throw e.
Proof.
  split; [by eexists|]. split; [reflexivity|].
  intros assets primary Hsa1 Hunsafe. unfold loadMapData. rewrite Hsa1.
  destruct (buildMetadata primary) as [md|e] eqn:Hmd; cbn [mbind result_bind]; [|by eexists].
  destruct Hunsafe. apply buildMetadata_returns. by exists md.
Qed.

(* ------------------------------------------------------------------ *)
(** * Further properties: the transit groups *)

Lemma filter_ext_in {A} (P Q : A → Prop) `{∀ x, Decision (P x)} `{∀ x, Decision (Q x)}
    (l : list A) :
  (∀ x, x ∈ l → (P x ↔ Q x)) → filter P l = filter Q l.
Proof.
  induction l as [|x l IH]; intros Hext; [done|].
  rewrite !filter_cons.
  destruct (decide (P x)) as [HP|HP], (decide (Q x)) as [HQ|HQ].
  - f_equal. apply IH. intros y Hy. apply Hext. by right.
  - exfalso. apply HQ, (Hext x); [by left|done].
  - exfalso. apply HP, (Hext x); [by left|done].
  - apply IH. intros y Hy. apply Hext. by right.
Qed.

Lemma of_class_train (fs : list GeoFeature) :
  filter (λ f, bool_decide (routeType f = "train") = true) fs = of_class "train" fs.
Proof.
  apply filter_ext_in. intros f _. unfold transit_class.
  rewrite bool_decide_eq_true. case_bool_decide; [done|].
  split; [done|]. by destruct (Str.includes _ _).
Qed.

Lemma of_class_bus (fs : list GeoFeature) :
  filter (λ f, Str.includes ["standard"; "cat"; "school"] (routeType f) = true) fs
  = of_class "bus" fs.
Proof.
  apply filter_ext_in. intros f _. unfold transit_class, Str.includes.
  rewrite bool_decide_eq_true. case_bool_decide as Ht.
  - rewrite Ht. split; [|done]. rewrite !elem_of_cons, elem_of_nil.
    intros [H|[H|[H|[]]]]; discriminate H.
  - case_bool_decide; [done|]. split; [done|discriminate].
Qed.

Lemma of_class_other (fs : list GeoFeature) :
  filter (λ f, negb (Str.includes ["train"; "standard"; "cat"; "school"] (routeType f)) = true) fs
  = of_class "other" fs.
Proof.
  apply filter_ext_in. intros f _. unfold transit_class, Str.includes.
  rewrite negb_true_iff, bool_decide_eq_false, elem_of_cons.
  case_bool_decide as Ht.
  - split; [|discriminate]. intros H. exfalso. apply H. by left.
  - case_bool_decide as Hb.
    + split; [|discriminate]. intros H. exfalso. apply H. by right.
    + split; [done|]. intros _ [?|?]; done.
Qed.

Lemma transit_class_cases (f : GeoFeature) :
  transit_class f = "train" ∨ transit_class f = "bus" ∨ transit_class f = "other".
Proof.
  unfold transit_class. case_bool_decide; [by left|].
  destruct (Str.includes _ _); [right; by left|right; by right].
Qed.

Lemma of_class_partition (fs : list GeoFeature) :
  of_class "train" fs ++ of_class "bus" fs ++ of_class "other" fs ≡ₚ fs.
Proof.
  unfold of_class. induction fs as [|f fs IH]; [done|].
  rewrite !filter_cons.
  destruct (transit_class_cases f) as [H|[H|H]]; rewrite H; simpl.
  - by rewrite IH.
  - rewrite <- Permutation_middle. by rewrite IH.
  - rewrite app_assoc, <- Permutation_middle, <- app_assoc. by rewrite IH.
Qed.

(** X1. Whatever the feed, [groupTransitLayers] splits its features three
    ways by route type: each of [train], [bus] and [other] holds the
    features of its class in feed order and is absent when the class is
    empty, [all] is never set, and together the groups hold every feature
    of the feed exactly once. *)
Theorem groupTransitLayers_partition (data : option GeoCollection) :
  let layers := groupTransitLayers data in
  let fs := features_of <$> data in
  layer_features (train layers) = of_class "train" (default [] fs)
  ∧ layer_features (bus layers) = of_class "bus" (default [] fs)
  ∧ layer_features (other layers) = of_class "other" (default [] fs)
  ∧ (train layers = None ↔ of_class "train" (default [] fs) = [])
  ∧ (bus layers = None ↔ of_class "bus" (default [] fs) = [])
  ∧ (other layers = None ↔ of_class "other" (default [] fs) = [])
  ∧ all layers = None
  ∧ layer_features (train layers) ++ layer_features (bus layers)
      ++ layer_features (other layers) ≡ₚ default [] fs.
Proof.
  intros layers fs.
  assert (Hgroups :
    layer_features (train layers) = of_class "train" (default [] fs)
    ∧ layer_features (bus layers) = of_class "bus" (default [] fs)
    ∧ layer_features (other layers) = of_class "other" (default [] fs)
    ∧ (train layers = None ↔ of_class "train" (default [] fs) = [])
    ∧ (bus layers = None ↔ of_class "bus" (default [] fs) = [])
    ∧ (other layers = None ↔ of_class "other" (default [] fs) = [])).
  { subst layers fs. unfold groupTransitLayers, features_length.
    destruct data as [d|]; simpl; [|done].
    destruct (features_of d) as [|f l] eqn:Hfs; [done|].
    cbn [train bus other]. rewrite !layer_if_any_collection.
    rewrite of_class_train, of_class_bus, of_class_other.
    destruct (of_class "train" (f :: l)), (of_class "bus" (f :: l)),
      (of_class "other" (f :: l)); done. }
  destruct Hgroups as (Ht & Hb & Ho & Ht' & Hb' & Ho').
  repeat (split; [done|]).
  split; [apply groupTransitLayers_all_unreachable|].
  rewrite Ht, Hb, Ho. apply of_class_partition.
Qed.

(* ------------------------------------------------------------------ *)
(** * Further properties: property names and warnings *)

Lemma meta_step_propertyNames (acc acc' : MetaAcc) (f : GeoFeature) :
  meta_step acc f = Ok acc' →
  acc_propertyNames acc'
  = foldl (λ s name, set_add_string name s) (acc_propertyNames acc) (keys (props_of f)).
Proof.
  unfold meta_step. cbv zeta.
  destruct (if truthy (get (props_of f) "STE_NAME21") then _ else _) as [d|e];
    cbn [mbind result_bind]; [|done].
  by intros [= <-].
Qed.

Lemma meta_loop_propertyNames (fs : list GeoFeature) (acc acc' : MetaAcc) :
  meta_loop acc fs = Ok acc' →
  acc_propertyNames acc'
  = foldl (λ s name, set_add_string name s) (acc_propertyNames acc)
          (fs ≫= λ f, keys (props_of f)).
Proof.
  intros Hloop.
  apply (meta_loop_inv
           (λ seen a, acc_propertyNames a
                      = foldl (λ s name, set_add_string name s) (acc_propertyNames acc)
                              (seen ≫= λ f, keys (props_of f))) fs [] acc acc'); [|done..].
  intros seen a f a' Ha Hstep.
  rewrite (meta_step_propertyNames a a' f Hstep), Ha, bind_app, foldl_app.
  f_equal. change ([f] ≫= λ f, keys (props_of f)) with (keys (props_of f) ++ []).
  by rewrite app_nil_r.
Qed.

(** The property names and the SEIFA columns of a metadata. *)
Lemma buildMetadata_names (data : GeoCollection) (m : MapMetadata) :
  buildMetadata data = Ok m →
  NoDup (propertyNames m)
  ∧ (∀ k, k ∈ propertyNames m ↔ has_property (features_of data) k)
  ∧ seifaColumns m = filter (λ name, is_seifa_column name = true) (propertyNames m).
Proof.
  intros (acc & Hloop & _ & _ & _ & _ & Hnames & _ & _ & Hseifa)%buildMetadata_fields.
  rewrite Hseifa, Hnames, (meta_loop_propertyNames _ _ _ Hloop). cbn [acc_propertyNames].
  destruct (add_all_spec (features_of data ≫= λ f, keys (props_of f)) [] (NoDup_nil_2))
    as [Hnd Hin].
  split; [done|]. split; [|done]. intros k. rewrite Hin, elem_of_nil, list_elem_of_bind.
  unfold has_property. split.
  - intros [[]|(f & Hk & Hf)]. eauto.
  - intros (f & Hf & Hk). right. eauto.
Qed.

(** X2. The property names of the metadata are the keys that occur in some
    feature, each once; the SEIFA columns are those among them that start
    with one of the four index prefixes or are [URP], each once; and the
    count is the number of features. *)
Theorem buildMetadata_propertyNames (data : GeoCollection) (m : MapMetadata) :
  buildMetadata data = Ok m →
  NoDup (propertyNames m)
  ∧ (∀ k, k ∈ propertyNames m ↔ has_property (features_of data) k)
  ∧ NoDup (seifaColumns m)
  ∧ (∀ k, k ∈ seifaColumns m ↔
          has_property (features_of data) k ∧ is_seifa_column k = true)
  ∧ count m = length (features_of data).
Proof.
  intros Hm. destruct (buildMetadata_names data m Hm) as (Hnd & Hin & Hseifa).
  split; [done|]. split; [done|].
  split; [rewrite Hseifa; by apply NoDup_filter|].
  split.
  - intros k. rewrite Hseifa, list_elem_of_filter, Hin. tauto.
  - by apply buildMetadata_fields in Hm as (acc & _ & _ & _ & _ & _ & _ & Hcount & _).
Qed.

Lemma buildMetadata_propertyNames_witness :
  ∃ m, buildMetadata
         (FeatureCollection
            [mkFeature None (Some [("SA1_CODE21", VStr "50101100101"); ("IRAD_decile", VNum (Fin 3))]);
             mkFeature None (Some [("SA1_CODE21", VStr "50101100102"); ("URP", VNum (Fin 412))])])
       = Ok m
     ∧ NoDup (propertyNames m) ∧ NoDup (seifaColumns m) ∧ count m = 2.
Proof.
  destruct (buildMetadata _) as [m|e] eqn:Hm at 1; [|vm_compute in Hm; discriminate Hm].
  exists m. split; [reflexivity|].
  destruct (buildMetadata_propertyNames _ m Hm) as (Hnd & _ & Hnd' & _ & Hcount).
  by split; [|split].
Defined.

Lemma ensure_stage_frame (f f' : GeoFeature) :
  ensure_stage f = Ok f' →
  ∃ props, properties f' = Some props
    ∧ ∀ k, k ≠ "stage" → get props k = get (props_of f) k.
Proof.
  unfold ensure_stage.
  destruct (negb (truthy (get (props_of f) "stage"))).
  - destruct (computeStage _ _) as [s|e]; simpl; [|done].
    intros [= <-]. eexists. split; [reflexivity|]. intros k Hk. by apply get_set_ne.
  - intros [= <-]. eexists. split; [reflexivity|]. done.
Qed.

Lemma mapM_result_inv {A B} (f : A → result B) (l : list A) (k : list B) :
  mapM f l = Ok k → Forall2 (λ x y, f x = Ok y) l k.
Proof.
  revert k. induction l as [|x l IH]; intros k; simpl.
  - intros [= <-]. constructor.
  - destruct (f x) as [y|e] eqn:Hx; simpl; [|done].
    destruct (mapM f l) as [k'|e]; simpl; [|done].
    intros [= <-]. constructor; [done|]. by apply IH.
Qed.

(** The staged schools: as many as in the feed, each with properties and
    with the ranking it came with. *)
Lemma ensureSchoolStages_ranking (schools staged_schools : option GeoCollection) :
  ensureSchoolStages schools = Ok staged_schools →
  (collection_features staged_schools = [] ↔ collection_features schools = [])
  ∧ (existsb (λ feature,
                match properties feature with
                | Some props => negb (is_nullish (get props "ranking_rank"))
                | None => false
                end) (collection_features staged_schools) = false
     ↔ unranked (collection_features schools)).
Proof.
  unfold ensureSchoolStages. destruct schools as [c|];
    [|intros [= <-]; split; [done|split; [constructor|done]]].
  unfold collection_features, features_of.
  destruct (features c) as [fs|]; simpl.
  - destruct (mapM ensure_stage fs) as [fs'|e] eqn:HM; simpl; [|done].
    intros [= <-]. simpl. apply mapM_result_inv in HM.
    split.
    + split; intros ->; by inversion HM.
    + unfold unranked. induction HM as [|f f' fs fs' Hf _ IH]; simpl.
      * split; [constructor|done].
      * destruct (ensure_stage_frame f f' Hf) as (props & Hp & Hframe).
        rewrite Hp, (Hframe "ranking_rank") by done.
        rewrite orb_false_iff, negb_false_iff, IH, Forall_cons. done.
  - intros [= <-]. simpl. split; [done|]. split; [constructor|done].
Qed.

(** X3. In a snapshot, the SEIFA warning is absent exactly when some
    polygon has a property named as a SEIFA column, and the ranking warning
    is present exactly when the schools feed has features and none of them
    has a [ranking_rank]. *)
Theorem loadMapData_warnings (assets : Assets) (m : MapData) :
  loadMapData assets = Ok m →
  (seifaWarning m = None ↔
     ∃ k, has_property (features_of (sa1 m)) k ∧ is_seifa_column k = true)
  ∧ (is_Some (rankingWarning m) ↔
       collection_features (fetchJson (SCHOOLS_FILE assets)) ≠ []
       ∧ unranked (collection_features (fetchJson (SCHOOLS_FILE assets)))).
Proof.
  unfold loadMapData.
  destruct (fetchJson (SA1_FILE assets)) as [primary|]; [|done].
  destruct (buildMetadata primary) as [md|e] eqn:Hmd; cbn [mbind result_bind]; [|done].
  destruct (ensureSchoolStages _) as [staged_schools|e] eqn:Hst; simpl; [|done].
  destruct (summarizeSchools staged_schools) as [summary|e]; simpl; [|done].
  intros [= <-]. cbn [seifaWarning rankingWarning sa1].
  destruct (ensureSchoolStages_ranking _ _ Hst) as [Hempty Hrank].
  split.
  - destruct (buildMetadata_names primary md Hmd) as (_ & Hin & Hseifa).
    assert (Hcols : ∀ k, k ∈ seifaColumns md ↔
              has_property (features_of primary) k ∧ is_seifa_column k = true).
    { intros k. rewrite Hseifa, list_elem_of_filter, Hin. tauto. }
    destruct (seifaColumns md) as [|k0 ks] eqn:Hs.
    + split; [done|]. intros (k & Hk). apply Hcols in Hk. by apply elem_of_nil in Hk.
    + split; [|done]. intros _. exists k0. apply Hcols. by left.
  - unfold features_length.
    assert (Hlen : match staged_schools with
                   | Some d => length (features_of d)
                   | None => 0
                   end = length (collection_features staged_schools))
      by (by destruct staged_schools).
    rewrite Hlen.
    destruct (collection_features staged_schools) as [|f fs] eqn:Hfs.
    + simpl. split; [by intros [? ?]|]. intros [Hne _]. by destruct Hne, (proj1 Hempty).
    + destruct staged_schools as [s|]; [|done]. simpl in Hfs. rewrite Hfs.
      assert (Hne : collection_features (fetchJson (SCHOOLS_FILE assets)) ≠ []).
      { intros H. apply Hempty in H. done. }
      destruct (existsb _ (f :: fs)) eqn:Hex; simpl.
      * split; [by intros [? ?]|]. intros [_ Hun]. apply Hrank in Hun. congruence.
      * split; [|by eauto]. intros _. split; [done|]. by apply Hrank.
Qed.

Lemma loadMapData_warnings_witness :
  ∃ m, loadMapData assets_without_manifest = Ok m
     ∧ seifaWarning m = None ∧ rankingWarning m = None.
Proof.
  destruct (loadMapData assets_without_manifest) as [m|e] eqn:Hload;
    [|vm_compute in Hload; discriminate Hload].
  exists m. split; [done|].
  destruct (loadMapData_warnings assets_without_manifest m Hload) as [Hs Hr].
  split.
  - apply Hs. exists "IRAD_decile". split; [|reflexivity].
    vm_compute in Hload. injection Hload as <-.
    eexists. split; [by left|]. cbn. right. right. by left.
  - destruct (rankingWarning m) as [w|] eqn:Hw; [|done].
    exfalso. destruct (proj1 Hr (mk_is_Some _ _ eq_refl)) as [_ Hun].
    inversion Hun as [|? ? H _]. vm_compute in H. discriminate H.
Defined.

(* ------------------------------------------------------------------ *)
(** * Further properties: the range of the colour ramp *)

Lemma leb_trans (a b c : number) :
  Num.leb a b = true → Num.leb b c = true → Num.leb a c = true.
Proof.
  destruct a as [| |x|], b as [| |y|], c as [| |z|]; simpl; try done.
  rewrite !Qle_bool_iff. apply Qle_trans.
Qed.

Lemma leb_refl (a : number) : Num.isNaN a = false → Num.leb a a = true.
Proof.
  destruct a as [| |x|]; simpl; try done. intros _. apply Qle_bool_iff, Qle_refl.
Qed.

Lemma leb_total (a b : number) :
  Num.isNaN a = false → Num.isNaN b = false →
  Num.leb a b = true ∨ Num.leb b a = true.
Proof.
  destruct a as [| |x|], b as [| |y|]; simpl; try done; auto.
  intros _ _. destruct (Qle_bool x y) eqn:E; [by left|right].
  apply Qle_bool_iff. by apply Qle_bool_false.
Qed.

Lemma min2_spec (a b : number) :
  Num.isNaN a = false → Num.isNaN b = false →
  Num.isNaN (Num.min2 a b) = false
  ∧ (Num.min2 a b = a ∨ Num.min2 a b = b)
  ∧ Num.leb (Num.min2 a b) a = true ∧ Num.leb (Num.min2 a b) b = true.
Proof.
  intros Ha Hb.
  assert (Hm : Num.min2 a b = if Num.leb a b then a else b)
    by (by destruct a, b).
  rewrite Hm. destruct (Num.leb a b) eqn:E.
  - repeat split; auto using leb_refl.
  - destruct (leb_total a b Ha Hb) as [H|H]; [congruence|].
    repeat split; auto using leb_refl.
Qed.

Lemma max2_spec (a b : number) :
  Num.isNaN a = false → Num.isNaN b = false →
  Num.isNaN (Num.max2 a b) = false
  ∧ (Num.max2 a b = a ∨ Num.max2 a b = b)
  ∧ Num.leb a (Num.max2 a b) = true ∧ Num.leb b (Num.max2 a b) = true.
Proof.
  intros Ha Hb.
  assert (Hm : Num.max2 a b = if Num.leb a b then b else a)
    by (by destruct a, b).
  rewrite Hm. destruct (Num.leb a b) eqn:E.
  - repeat split; auto using leb_refl.
  - destruct (leb_total a b Ha Hb) as [H|H]; [congruence|].
    repeat split; auto using leb_refl.
Qed.

(** [Math.min(...vs)] on numbers none of which is NaN: the least of them,
    and [Infinity] when there is none. *)
Lemma min_list_spec (vs : list number) :
  Forall (λ v, Num.isNaN v = false) vs →
  (vs = [] ∨ Num.min_list vs ∈ vs)
  ∧ Num.isNaN (Num.min_list vs) = false
  ∧ ∀ v, v ∈ vs → Num.leb (Num.min_list vs) v = true.
Proof.
  unfold Num.min_list. intros Hvs.
  cut (∀ acc seen,
         Num.isNaN acc = false →
         (acc = PosInf ∧ seen = [] ∨ acc ∈ seen) →
         (∀ v, v ∈ seen → Num.leb acc v = true) →
         let r := foldl Num.min2 acc vs in
         (r = PosInf ∧ seen ++ vs = [] ∨ r ∈ seen ++ vs)
         ∧ Num.isNaN r = false
         ∧ ∀ v, v ∈ seen ++ vs → Num.leb r v = true).
  { intros H. destruct (H PosInf [] eq_refl) as (H1 & H2 & H3).
    - by left.
    - intros v Hv. by apply elem_of_nil in Hv.
    - simpl in *. split; [|done]. destruct H1 as [[_ ->]|H1]; auto. }
  induction Hvs as [|x vs Hx _ IH]; intros acc seen Hacc Hin Hle; simpl.
  - rewrite app_nil_r. done.
  - destruct (min2_spec acc x Hacc Hx) as (Hn & Hsel & Hla & Hlx).
    replace (seen ++ x :: vs) with ((seen ++ [x]) ++ vs) by (by rewrite <- app_assoc).
    apply IH; [done|..].
    + right. rewrite elem_of_app, list_elem_of_singleton.
      destruct Hin as [[-> ->]|Hin].
      * right. by destruct x.
      * destruct Hsel as [Hs|Hs]; rewrite Hs; [by left|by right].
    + intros v. rewrite elem_of_app, list_elem_of_singleton. intros [Hv| ->]; [|done].
      eapply leb_trans; [exact Hla|]. by apply Hle.
Qed.

Lemma max_list_spec (vs : list number) :
  Forall (λ v, Num.isNaN v = false) vs →
  (vs = [] ∨ Num.max_list vs ∈ vs)
  ∧ Num.isNaN (Num.max_list vs) = false
  ∧ ∀ v, v ∈ vs → Num.leb v (Num.max_list vs) = true.
Proof.
  unfold Num.max_list. intros Hvs.
  cut (∀ acc seen,
         Num.isNaN acc = false →
         (acc = NegInf ∧ seen = [] ∨ acc ∈ seen) →
         (∀ v, v ∈ seen → Num.leb v acc = true) →
         let r := foldl Num.max2 acc vs in
         (r = NegInf ∧ seen ++ vs = [] ∨ r ∈ seen ++ vs)
         ∧ Num.isNaN r = false
         ∧ ∀ v, v ∈ seen ++ vs → Num.leb v r = true).
  { intros H. destruct (H NegInf [] eq_refl) as (H1 & H2 & H3).
    - by left.
    - intros v Hv. by apply elem_of_nil in Hv.
    - simpl in *. split; [|done]. destruct H1 as [[_ ->]|H1]; auto. }
  induction Hvs as [|x vs Hx _ IH]; intros acc seen Hacc Hin Hle; simpl.
  - rewrite app_nil_r. done.
  - destruct (max2_spec acc x Hacc Hx) as (Hn & Hsel & Hla & Hlx).
    replace (seen ++ x :: vs) with ((seen ++ [x]) ++ vs) by (by rewrite <- app_assoc).
    apply IH; [done|..].
    + right. rewrite elem_of_app, list_elem_of_singleton.
      destruct Hin as [[-> ->]|Hin].
      * right. by destruct x.
      * destruct Hsel as [Hs|Hs]; rewrite Hs; [by left|by right].
    + intros v. rewrite elem_of_app, list_elem_of_singleton. intros [Hv| ->]; [|done].
      eapply leb_trans; [|exact Hla]. by apply Hle.
Qed.

Lemma irad_values_not_NaN (fs : list GeoFeature) :
  Forall (λ v, Num.isNaN v = false) (irad_values fs).
Proof.
  apply Forall_forall. intros v Hv. unfold irad_values in Hv.
  by apply list_elem_of_filter in Hv as [? _].
Qed.

(** X4. The range of the colour ramp is taken over the deciles as [Number]
    converts them, NaN left out: in a metadata that [buildMetadata] returns
    it is [null] exactly when there is no such value, and otherwise its ends
    are two of these values and bound them all.  A decile that is [null]
    converts to 0 and is one of them. *)
Theorem buildMetadata_iradRange_bounds (data : GeoCollection) :
  let vs := irad_values (features_of data) in
  (∀ md, buildMetadata data = Ok md →
     match iradRange md with
     | None => vs = []
     | Some (lo, hi) =>
         lo ∈ vs ∧ hi ∈ vs
         ∧ ∀ v, v ∈ vs → Num.leb lo v = true ∧ Num.leb v hi = true
     end)
  ∧ ∀ f, f ∈ features_of data → get (props_of f) "IRAD_decile" = VNull → Fin 0 ∈ vs.
Proof.
  intros vs. split.
  - intros md Hmd. rewrite (buildMetadata_iradRange data md Hmd). fold vs.
    pose proof (irad_values_not_NaN (features_of data)) as Hnn. fold vs in Hnn.
    destruct (min_list_spec vs Hnn) as (Hmin & _ & Hle).
    destruct (max_list_spec vs Hnn) as (Hmax & _ & Hge).
    destruct vs as [|v0 vs']; [done|].
    destruct Hmin as [?|Hmin]; [done|]. destruct Hmax as [?|Hmax]; [done|].
    split; [done|]. split; [done|]. intros v Hv. split; [by apply Hle|by apply Hge].
  - intros f Hf Hnull. subst vs. unfold irad_values.
    apply list_elem_of_filter. split; [done|].
    apply list_elem_of_fmap. exists f. split; [|done].
    unfold decile. by rewrite Hnull.
Qed.

Lemma buildMetadata_iradRange_bounds_witness :
  Fin 0 ∈ irad_values [null_decile_area; decile_5_area].
Proof.
  apply (proj2 (buildMetadata_iradRange_bounds
                  (FeatureCollection [null_decile_area; decile_5_area])) null_decile_area).
  - by left.
  - reflexivity.
Defined.

(* ------------------------------------------------------------------ *)
(** * Further properties: boxes of sub-collections, state centres *)

(** [computeBounds] in terms of the finite pairs of the collection. *)
Lemma computeBounds_finite_pairs (collection : GeoCollection + list GeoFeature) :
  match finite_pairs collection with
  | [] => computeBounds collection = None
  | ps => ∃ box, computeBounds collection = Some (fin_box box) ∧ envelope ps box
  end.
Proof.
  unfold computeBounds, finite_pairs.
  fold (bounds_features collection). rewrite flatten_features. simpl.
  set (pts := bounds_features collection ≫= feature_positions).
  pose proof (bounds_inv_fold pts [] bounds_init eq_refl) as Hinv. simpl in Hinv.
  destruct (omap finite_pair pts) as [|q ps] eqn:Hps.
  - simpl in Hinv. rewrite Hinv. simpl. by destruct pts.
  - destruct Hinv as ([[[a b] c] d] & Hfold & Henv). rewrite Hfold. simpl.
    destruct pts; [done|]. by exists (a, b, c, d).
Qed.

Lemma finite_pairs_subseteq (fs1 fs2 : list GeoFeature) :
  fs1 ⊆ fs2 → finite_pairs (inr fs1) ⊆ finite_pairs (inr fs2).
Proof.
  intros Hsub p. unfold finite_pairs, bounds_features.
  rewrite !list_elem_of_omap. intros (e & He & Hp). exists e. split; [|done].
  apply list_elem_of_bind in He as (f & He & Hf).
  apply list_elem_of_bind. exists f. split; [done|]. by apply Hsub.
Qed.

Lemma elem_of_fst_pairs (ps : list (Q * Q)) (x : Q) :
  x ∈ ps.*1 → ∃ y, (x, y) ∈ ps.
Proof.
  intros H. apply list_elem_of_fmap in H as ([a b] & -> & Hin). by exists b.
Qed.

Lemma elem_of_snd_pairs (ps : list (Q * Q)) (y : Q) :
  y ∈ ps.*2 → ∃ x, (x, y) ∈ ps.
Proof.
  intros H. apply list_elem_of_fmap in H as ([a b] & -> & Hin). by exists a.
Qed.

Lemma computeBounds_sub (fs1 fs2 : list GeoFeature) (inner : BBox) :
  fs1 ⊆ fs2 → computeBounds (inr fs1) = Some inner →
  ∃ outer, computeBounds (inr fs2) = Some outer ∧ bbox_within inner outer.
Proof.
  intros Hsub Hinner.
  pose proof (finite_pairs_subseteq fs1 fs2 Hsub) as Hps.
  pose proof (computeBounds_finite_pairs (inr fs1)) as H1.
  pose proof (computeBounds_finite_pairs (inr fs2)) as H2.
  destruct (finite_pairs (inr fs1)) as [|p1 ps1] eqn:E1; [congruence|].
  destruct H1 as ([[[a b] c] d] & Hb1 & Hall1 & Ha & Hc & Hb & Hd).
  rewrite Hb1 in Hinner. injection Hinner as <-.
  destruct (finite_pairs (inr fs2)) as [|p2 ps2] eqn:E2.
  { exfalso. eapply not_elem_of_nil, (Hps p1). by left. }
  destruct H2 as ([[[a' b'] c'] d'] & Hb2 & Hall2 & _).
  exists (fin_box (a', b', c', d')). split; [done|].
  apply elem_of_fst_pairs in Ha as [ya Ha], Hc as [yc Hc].
  apply elem_of_snd_pairs in Hb as [xb Hb], Hd as [xd Hd].
  apply Hps, Hall2 in Ha, Hc, Hb, Hd. simpl.
  rewrite !Qle_bool_iff. tauto.
Qed.

Lemma filter_subseteq {A} (P : A → Prop) `{∀ x, Decision (P x)} (l : list A) :
  filter P l ⊆ l.
Proof. intros x Hx. by apply list_elem_of_filter in Hx as [_ ?]. Qed.

(** X5. Bounds grow with the collection: when every feature of one list is
    in another and the first has bounds, the second has bounds that contain
    them.  So the box of the polygons of any one state lies within the
    [totalBounds] of the metadata that [buildMetadata] returns. *)
Theorem computeBounds_monotone :
  (∀ (fs1 fs2 : list GeoFeature) (inner : BBox),
     fs1 ⊆ fs2 → computeBounds (inr fs1) = Some inner →
     ∃ outer, computeBounds (inr fs2) = Some outer ∧ bbox_within inner outer)
  ∧ ∀ (data : GeoCollection) (md : MapMetadata) (s : string) (box : BBox),
      buildMetadata data = Ok md →
      computeBounds (inr (state_features data s)) = Some box →
      ∃ total, totalBounds md = Some total ∧ bbox_within box total.
Proof.
  split; [apply computeBounds_sub|].
  intros data md s box (acc & _ & _ & _ & -> & _)%buildMetadata_fields Hbox.
  apply (computeBounds_sub (state_features data s) (features_of data)); [|done].
  apply filter_subseteq.
Qed.

Lemma computeBounds_monotone_witness :
  ∃ outer,
    computeBounds (inr [mkFeature (Some (Point [Fin 1; Fin 2])) None;
                        mkFeature (Some (Point [Fin (-3); Fin 8])) None]) = Some outer
    ∧ bbox_within (Fin 1, Fin 2, Fin 1, Fin 2) outer.
Proof.
  apply (proj1 computeBounds_monotone [mkFeature (Some (Point [Fin 1; Fin 2])) None]).
  - intros f Hf. apply list_elem_of_singleton in Hf as ->. by left.
  - reflexivity.
Defined.

Lemma dict_get_set {A} (d : list (string * A)) (k k' : string) (a : A) :
  dict_get (dict_set d k a) k' = if decide (k = k') then Some a else dict_get d k'.
Proof.
  induction d as [|[k0 b] d IH]; simpl.
  - by destruct (decide (k = k')).
  - destruct (decide (k0 = k)) as [->|Hne]; simpl.
    + by destruct (decide (k = k')).
    + destruct (decide (k0 = k')) as [->|Hne'].
      * by rewrite decide_False by congruence.
      * apply IH.
Qed.

Lemma center_step_lookup (data : GeoCollection) (sc : list (string * (number * number)))
    (entry : string * list value) (s : string) :
  dict_get (center_step data sc entry) s =
    if decide (entry.1 = s) then
      match computeBounds (inr (state_features data s)) with
      | Some box => Some (center_of_box box)
      | None => dict_get sc s
      end
    else dict_get sc s.
Proof.
  destruct entry as [k vs]. unfold center_step. cbn [fst]. fold (state_features data k).
  destruct (decide (k = s)) as [->|Hne].
  - destruct (computeBounds (inr (state_features data s))) as [[[[a b] c] d]|]; [|done].
    rewrite dict_get_set. by rewrite decide_True.
  - destruct (computeBounds (inr (state_features data k))) as [[[[a b] c] d]|]; [|done].
    rewrite dict_get_set. by rewrite decide_False.
Qed.

(** The centre recorded for a state: that of the box of its polygons, when
    the state is a key of the grouping and its polygons have a box. *)
Lemma center_fold_lookup (data : GeoCollection) (entries : list (string * list value))
    (sc : list (string * (number * number))) (s : string) :
  dict_get (foldl (center_step data) sc entries) s =
    if bool_decide (s ∈ entries.*1) then
      match computeBounds (inr (state_features data s)) with
      | Some box => Some (center_of_box box)
      | None => dict_get sc s
      end
    else dict_get sc s.
Proof.
  revert sc. induction entries as [|entry entries IH]; intros sc.
  - reflexivity.
  - cbn [foldl]. rewrite IH, fmap_cons, center_step_lookup.
    destruct (decide (entry.1 = s)) as [Heq|Hne].
    + rewrite (bool_decide_eq_true_2 (s ∈ entry.1 :: entries.*1)) by (rewrite Heq; by left).
      destruct (computeBounds (inr (state_features data s))); [|by case_bool_decide].
      by case_bool_decide.
    + case_bool_decide as Hin.
      * by rewrite bool_decide_eq_true_2 by (by right).
      * rewrite bool_decide_eq_false_2; [done|].
        rewrite not_elem_of_cons. split; [congruence|done].
Qed.

Lemma state_features_key (data : GeoCollection) (s : string) (f : GeoFeature) :
  s ≠ "" → inherited s = false →
  f ∈ state_features data s → s ∈ state_keys (features_of data).
Proof.
  intros Hs Hown Hf. apply list_elem_of_filter in Hf as [Heq Hf].
  unfold state_keys. apply list_elem_of_omap. exists f. split; [done|].
  unfold state_key_of. destruct (get (props_of f) "STE_NAME21") as [| |b|n|s']; try done.
  simpl in Heq. apply bool_decide_eq_true in Heq as ->.
  cbn [truthy ToString]. rewrite Hown. by rewrite bool_decide_eq_false_2.
Qed.

Lemma computeBounds_nil : computeBounds (inr []) = None.
Proof. reflexivity. Qed.

Lemma stateCenters_lookup (data : GeoCollection) (md : MapMetadata) (s : string) :
  buildMetadata data = Ok md → s ≠ "" → inherited s = false →
  dict_get (stateCenters md) s
  = center_of_box <$> computeBounds (inr (state_features data s)).
Proof.
  intros (acc & Hloop & _ & _ & _ & -> & _)%buildMetadata_fields Hs Hown.
  rewrite center_fold_lookup. simpl.
  destruct (computeBounds (inr (state_features data s))) as [box|] eqn:Hbox;
    [|by case_bool_decide].
  rewrite bool_decide_eq_true_2; [done|].
  rewrite (meta_loop_keys _ _ _ Hloop). simpl.
  destruct (add_all_spec (state_keys (features_of data)) [] (NoDup_nil_2)) as [_ Hin].
  apply Hin. right.
  destruct (state_features data s) as [|f fs] eqn:Hfs.
  - by rewrite computeBounds_nil in Hbox.
  - apply (state_features_key data s f Hs Hown). rewrite Hfs. by left.
Qed.

(** X6. Where the map is centred.  With the metadata that [buildMetadata]
    returns for a collection, a state that has a capital is centred on it;
    any other named state (one not named like a member every object
    inherits) is centred on the middle of the box of its own polygons,
    rounded to six decimals, and, when they have no box, like no state at
    all: on the middle of the box of the whole collection or, without one,
    on the fixed centre of the continent.  Centres are latitude first, and
    a middle is the binary64 sum of the two ends, halved. *)
Theorem getMapCenter_chain (data : GeoCollection) (meta : MapMetadata) (s : string) :
  buildMetadata data = Ok meta →
  (∀ capital, dict_get STATE_CAPITALS s = Some capital →
              getMapCenter meta (Some s) = capital)
  ∧ (s ≠ "" → inherited s = false → dict_get STATE_CAPITALS s = None →
       getMapCenter meta (Some s) =
         match computeBounds (inr (state_features data s)) with
         | Some box => center_of_box box
         | None => getMapCenter meta None
         end)
  ∧ getMapCenter meta None =
      match computeBounds (inl data) with
      | Some box => midpoint_of_box box
      | None => DEFAULT_CENTER
      end
  ∧ getMapCenter meta (Some "") = getMapCenter meta None.
Proof.
  intros Hmeta. split; [|split; [|split]].
  - intros capital Hcap. unfold getMapCenter.
    rewrite bool_decide_eq_true_2; [by rewrite Hcap|].
    intros ->. vm_compute in Hcap. discriminate Hcap.
  - intros Hs Hown Hcap. unfold getMapCenter at 1.
    rewrite bool_decide_eq_true_2 by done. rewrite Hcap.
    rewrite (stateCenters_lookup data meta s Hmeta Hs Hown).
    by destruct (computeBounds (inr (state_features data s))).
  - destruct (buildMetadata_fields data meta Hmeta) as (acc & _ & _ & _ & Htotal & _).
    unfold getMapCenter. rewrite Htotal.
    by destruct (computeBounds (inl data)) as [[[[a b] c] d]|].
  - reflexivity.
Qed.

(** A state whose polygons span the latitudes -32.989686 and -29.521711:
    its centre is at -31.255699, the binary64 middle being just beyond
    -31.2556985. *)
Lemma getMapCenter_chain_witness :
  (λ meta, getMapCenter meta (Some "Other Territories"))
    <$> buildMetadata
          (FeatureCollection
             [mkFeature (Some (LineString [[Fin 115; Fin (-32989686 # 1000000)];
                                           [Fin 116; Fin (-29521711 # 1000000)]]))
                        (Some [("STE_NAME21", VStr "Other Territories")])])
  = Ok (Fin (-31255699 # 1000000), Fin (115500000 # 1000000)).
Proof.
  destruct (buildMetadata _) as [meta|e] eqn:Hmeta; [|vm_compute in Hmeta; discriminate Hmeta].
  cbn [fmap result_fmap]. f_equal.
  rewrite (proj1 (proj2 (getMapCenter_chain _ meta "Other Territories" Hmeta)));
    [vm_compute; reflexivity|done|reflexivity|reflexivity].
Defined.

(* ------------------------------------------------------------------ *)
(** * Further properties: stages *)

Lemma stage_of_label (p s : bool) : stage_of p s ∈ stage_names.
Proof.
  unfold stage_names. destruct p, s; simpl.
  - do 2 right. by left.
  - by left.
  - right. by left.
  - do 3 right. by left.
Qed.

Lemma stage_of_swap (a b c d e f g h : bool) :
  a = b → c = d → e = f → g = h →
  stage_of (a || c || e || g) (f || h) = stage_of (c || a || g || e) (h || f).
Proof. intros -> -> -> ->. by destruct b, d, f, h. Qed.

Lemma normalize_error (v : value) (e : error) :
  normalize v = Throw e → e = TypeError "toUpperCase is not a function".
Proof.
  unfold normalize. destruct (or_else v (VStr "")); simpl; congruence.
Qed.

(** X7. The stage does not depend on which of the two year codes is given
    as the low one, for codes of any type, and when [computeStage] returns
    it returns one of the four labels. *)
Theorem computeStage_symmetric (lowYear highYear : value) :
  computeStage lowYear highYear = computeStage highYear lowYear
  ∧ ∀ s, computeStage lowYear highYear = Ok s → s ∈ stage_names.
Proof.
  destruct (normalize lowYear) as [low|e1] eqn:Hl, (normalize highYear) as [high|e2] eqn:Hh.
  - rewrite (computeStage_table _ _ _ _ Hl Hh), (computeStage_table _ _ _ _ Hh Hl).
    split.
    + f_equal.
      destruct (Str.includes kinder_codes low), (Str.includes kinder_codes high),
        (toInt low) as [n|], (toInt high) as [m|]; simpl;
        try destruct (year_le_6 n); try destruct (year_ge_7 n);
        try destruct (year_le_6 m); try destruct (year_ge_7 m); reflexivity.
    + intros s [= <-]. apply stage_of_label.
  - unfold computeStage. rewrite Hl, Hh. simpl. split; [done|]. done.
  - unfold computeStage. rewrite Hl, Hh. simpl. split; [done|]. done.
  - unfold computeStage. rewrite Hl, Hh. simpl.
    apply normalize_error in Hl, Hh. subst. split; done.
Qed.

Lemma computeStage_truthy (lowYear highYear : value) (s : string) :
  computeStage lowYear highYear = Ok s → truthy (VStr s) = true.
Proof.
  intros H.
  destruct (normalize lowYear) as [low|e1] eqn:Hl; [|unfold computeStage in H; by rewrite Hl in H].
  destruct (normalize highYear) as [high|e2] eqn:Hh;
    [|unfold computeStage in H; by rewrite Hl, Hh in H].
  rewrite (computeStage_table _ _ _ _ Hl Hh) in H. injection H as <-.
  unfold stage_of. by repeat case_match.
Qed.

Lemma ensure_stage_fixed (f f' : GeoFeature) :
  ensure_stage f = Ok f' →
  truthy (get (props_of f') "stage") = true
  ∧ is_Some (properties f')
  ∧ ensure_stage f' = Ok f'.
Proof.
  unfold ensure_stage at 1.
  destruct (truthy (get (props_of f) "stage")) eqn:Hstage; cbn [negb].
  - intros [= <-].
    assert (Hp : props_of {| geometry := geometry f; properties := Some (props_of f) |}
                 = props_of f) by reflexivity.
    unfold ensure_stage. rewrite !Hp, Hstage. cbn [negb geometry properties].
    split; [done|]. split; [by eexists|]. done.
  - destruct (computeStage _ _) as [s|e] eqn:Hs; cbn [mbind result_bind]; [|done].
    intros [= <-].
    assert (Hp : props_of {| geometry := geometry f;
                             properties := Some (set (props_of f) "stage" (VStr s)) |}
                 = set (props_of f) "stage" (VStr s)) by reflexivity.
    assert (Ht : truthy (get (set (props_of f) "stage" (VStr s)) "stage") = true).
    { rewrite get_set_eq. by apply (computeStage_truthy _ _ _ Hs). }
    unfold ensure_stage. rewrite !Hp, Ht. cbn [negb geometry properties].
    split; [done|]. split; [by eexists|]. done.
Qed.

Lemma mapM_fixed {A} (f : A → result A) (l : list A) :
  Forall (λ x, f x = Ok x) l → mapM f l = Ok l.
Proof.
  induction 1 as [|x l Hx _ IH]; simpl; [done|]. by rewrite Hx, IH.
Qed.

(** X8. Staging is idempotent: in what [ensureSchoolStages] returns every
    school has properties and a truthy stage, and staging it again returns
    it unchanged. *)
Theorem ensureSchoolStages_idempotent (collection staged_schools : option GeoCollection) :
  ensureSchoolStages collection = Ok staged_schools →
  ensureSchoolStages staged_schools = Ok staged_schools
  ∧ Forall (λ f, truthy (get (props_of f) "stage") = true ∧ is_Some (properties f))
           (collection_features staged_schools).
Proof.
  unfold ensureSchoolStages at 1. destruct collection as [c|]; [|by intros [= <-]].
  destruct (features c) as [fs|] eqn:Hfs; simpl.
  - destruct (mapM ensure_stage fs) as [fs'|e] eqn:HM; simpl; [|done].
    intros [= <-]. apply mapM_result_inv in HM.
    assert (Hfixed : Forall (λ f', truthy (get (props_of f') "stage") = true
                                   ∧ is_Some (properties f')
                                   ∧ ensure_stage f' = Ok f') fs').
    { clear Hfs. induction HM as [|f f' fs fs' Hf _ IH]; constructor; [|done].
      by apply (ensure_stage_fixed f). }
    split.
    + unfold ensureSchoolStages. simpl. rewrite mapM_fixed; [done|].
      eapply Forall_impl; [exact Hfixed|]. by intros f' (_ & _ & ?).
    + simpl. unfold features_of. simpl.
      eapply Forall_impl; [exact Hfixed|]. by intros f' (? & ? & _).
  - intros [= <-]. split; [done|]. constructor.
Qed.

Lemma ensureSchoolStages_idempotent_witness :
  ensureSchoolStages
    (Some (FeatureCollection
             [mkFeature None (Some [("stage", VStr "primary"); ("lowyear", VStr "PP");
                                    ("highyear", VStr "Y06")])]))
  = Ok (Some (FeatureCollection
                [mkFeature None (Some [("stage", VStr "primary"); ("lowyear", VStr "PP");
                                       ("highyear", VStr "Y06")])])).
Proof.
  apply (ensureSchoolStages_idempotent (Some (FeatureCollection [blank_stage_school]))).
  reflexivity.
Defined.

(* ------------------------------------------------------------------ *)
(** * Further properties: the histograms of the school summary *)


Lemma default_tally_entry (n : nat) : default 0 (tally_entry n) = n.
Proof. by destruct n. Qed.











(* ------------------------------------------------------------------ *)
(** * Further properties: the summary of the catchments *)

Lemma level_group_size (data : GeoCollection) (level : string) :
  (λ layer, length (features_of layer)) <$> level_group data level
  = tally_entry (level_size (features_of data) level).
Proof.
  unfold level_group, level_size.
  by destruct (filter _ (features_of data)).
Qed.

Lemma levelled_sizes (fs : list GeoFeature) :
  level_size fs "primary" + level_size fs "high" + level_size fs "other"
  = length (filter (λ f, levelled f = true) fs).
Proof.
  unfold level_size. induction fs as [|f fs IH]; [done|].
  rewrite !filter_cons.
  remember (levelled f) as b eqn:Hl. unfold levelled in Hl.
  destruct (has_level "primary" f) eqn:Hp, (has_level "high" f) eqn:Hh,
    (has_level "other" f) eqn:Ho;
    try discriminate (has_level_inj _ _ _ Hp Hh);
    try discriminate (has_level_inj _ _ _ Hp Ho);
    try discriminate (has_level_inj _ _ _ Hh Ho);
    cbn [orb] in Hl; subst b; simpl; lia.
Qed.

(** X10. [summarizeCatchments] on a missing or empty feed gives no layer,
    no summary and the warning.  On any other feed it gives no warning and
    a summary whose [count] is the number of features and whose [levels]
    has, for each of [primary], [high] and [other], the number of features
    of exactly that level, with no entry for a level without features; the
    level counts add up to the number of features that have one of the three
    levels, so to [count] at most: a feature with another level, or none, is
    counted in [count] only. *)
Theorem summarizeCatchments_summary (data : option GeoCollection) :
  let r := summarizeCatchments data in
  let fs := collection_features data in
  (fs = [] →
     cr_layers r = ∅ ∧ cr_summary r = None
     ∧ cr_warning r = Some "Catchment GeoJSON not found or empty.")
  ∧ (fs ≠ [] →
     cr_warning r = None
     ∧ ∃ s, cr_summary r = Some s
       ∧ catchments_count s = length fs
       ∧ (∀ level, levels s !! level =
            if bool_decide (level ∈ catchment_levels)
            then tally_entry (level_size fs level) else None)
       ∧ default 0 (levels s !! "primary") + default 0 (levels s !! "high")
         + default 0 (levels s !! "other")
         = length (filter (λ f, levelled f = true) fs)
       ∧ length (filter (λ f, levelled f = true) fs) ≤ catchments_count s).
Proof.
  intros r fs. subst r fs. unfold summarizeCatchments, features_length, collection_features.
  destruct data as [data|]; [|by split].
  destruct (features_of data) as [|f fs0] eqn:Hfs; [by split|].
  split; [done|]. intros _. split; [done|].
  eexists. split; [reflexivity|]. cbn [catchments_count levels].
  assert (Hlookup : ∀ level,
    ((λ layer, length (features_of layer)) <$>
       collect data "other" (collect data "high" (collect data "primary" ∅))) !! level
    = if bool_decide (level ∈ catchment_levels)
      then tally_entry (level_size (f :: fs0) level) else None).
  { intros level. rewrite lookup_fmap, !collect_lookup, lookup_empty, <- Hfs.
    rewrite <- level_group_size. unfold catchment_levels.
    destruct (decide ("other" = level)) as [<-|H1]; [by destruct (level_group data "other")|].
    destruct (decide ("high" = level)) as [<-|H2]; [by destruct (level_group data "high")|].
    destruct (decide ("primary" = level)) as [<-|H3];
      [by destruct (level_group data "primary")|].
    rewrite bool_decide_eq_false_2; [done|].
    rewrite !elem_of_cons, elem_of_nil. intros [?|[?|[?|[]]]]; congruence. }
  split; [done|]. split; [exact Hlookup|]. split.
  - rewrite !Hlookup.
    rewrite !bool_decide_eq_true_2 by (unfold catchment_levels; rewrite !elem_of_cons; tauto).
    rewrite !default_tally_entry. apply levelled_sizes.
  - apply length_filter.
Qed.

(* ------------------------------------------------------------------ *)
(** * Further properties: the display helpers *)

Lemma append_empty (a b : string) : a +:+ b = "" → a = "" ∧ b = "".
Proof. by destruct a. Qed.

Lemma nat_digits_nonempty (fuel : nat) (n : Z) (acc : string) :
  (fuel = O → acc ≠ "") → Str.nat_digits fuel n acc ≠ "".
Proof.
  revert n acc. induction fuel as [|fuel IH]; intros n acc Hacc; simpl.
  - by apply Hacc.
  - destruct (n <? 10)%Z; [done|]. by apply IH.
Qed.

Lemma Z_digits_nonempty (n : Z) : Str.Z_digits n ≠ "".
Proof. unfold Str.Z_digits. by apply nat_digits_nonempty. Qed.

Lemma NumberToString_nonempty (n : number) : Str.NumberToString n ≠ "".
Proof.
  destruct n as [| |q|]; try done.
  unfold Str.NumberToString. intros [_ H]%append_empty.
  apply append_empty in H as [H _]. by apply Z_digits_nonempty in H.
Qed.

Lemma NumberToString_Some (n : number) : Some (Str.NumberToString n) ≠ Some "".
Proof. intros H. apply (NumberToString_nonempty n). congruence. Qed.

Lemma toFixed2_nonempty (n : number) : toFixed2 n ≠ "".
Proof.
  destruct n as [| |q|]; try done. unfold toFixed2.
  destruct (Qle_bool _ _); [apply NumberToString_nonempty|].
  intros [_ H]%append_empty. apply append_empty in H as [_ H]. done.
Qed.

Lemma nonempty_Some (text r : string) : nonempty text = Some r → r ≠ "".
Proof. unfold nonempty. case_bool_decide; [done|]. by intros [= <-]. Qed.

Lemma StringToNumber_blank (s : string) :
  Str.trim s = "" → Str.StringToNumber s = Num.zero.
Proof. unfold Str.StringToNumber. by intros ->. Qed.

(** The digits of a whole number do not depend on the fraction it is
    written as. *)
Lemma NumberToString_whole (q : Q) :
  Qeq_bool (inject_Z (Qfloor q)) q = true →
  Str.NumberToString (Math_trunc (Fin q)) = Str.NumberToString (Fin q).
Proof.
  intros Hq%Qeq_bool_iff. destruct q as [n d]. unfold Qeq in Hq.
  cbn [Qfloor Qnum Qden inject_Z] in Hq. rewrite Z.mul_1_r in Hq.
  assert (Hn : n = (Z.pos d * (n / Z.pos d))%Z) by lia.
  set (k := (n / Z.pos d)%Z) in *.
  unfold Math_trunc, Str.NumberToString. cbn [Qnum Qden inject_Z].
  assert (Hquot : (n ÷ Z.pos d = k)%Z).
  { rewrite Hn. rewrite Z.mul_comm. apply Z.quot_mul. lia. }
  rewrite Hquot, Z.mod_1_r, Z.div_1_r.
  assert (Habs : (Z.abs n = Z.abs k * Z.pos d)%Z) by (rewrite Hn at 1; rewrite Z.abs_mul; lia).
  rewrite Habs, Z.mod_mul, Z.div_mul by lia.
  replace (n <? 0)%Z with (k <? 0)%Z; [done|].
  destruct (Z.ltb_spec k 0), (Z.ltb_spec n 0); try done; nia.
Qed.

(** X11. [formatSchoolCode] returns null for null and undefined only: the
    final [text || null] never gives null, since a text that is not a number
    is not blank, and a blank text is the number zero, printed as [0].  The
    text it returns is never empty, and on a whole number it is the text
    [formatValue] gives. *)
Theorem formatSchoolCode_result (v : value) :
  (formatSchoolCode v = None ↔ is_nullish v = true)
  ∧ formatSchoolCode v ≠ Some ""
  ∧ (∀ s, v = VStr s → Str.trim s = "" → formatSchoolCode v = Some "0")
  ∧ (∀ n, v = VNum n → Number_isInteger n = true → formatSchoolCode v = formatValue v).
Proof.
  assert (Htext : ∀ t,
    let numeric := Str.StringToNumber (Str.trim t) in
    let r := if negb (Num.isNaN numeric)
             then Some (Str.NumberToString (Math_trunc numeric))
             else nonempty (Str.trim t) in
    r ≠ None ∧ r ≠ Some "").
  { intros t numeric r. subst r numeric.
    destruct (Str.StringToNumber (Str.trim t)) eqn:Hnum; cbn [Num.isNaN negb];
      try (split; [done|apply NumberToString_Some]).
    unfold nonempty. case_bool_decide as Hblank.
    - rewrite StringToNumber_blank in Hnum by (by rewrite Hblank). done.
    - split; [done|]. by intros [= H]. }
  split; [|split; [|split]].
  - destruct v as [| |b|n|s]; [by split..| | |];
      (split; [intros H; exfalso; revert H|intros H; discriminate H]).
    + apply (Htext (ToString (VBool b))).
    + unfold formatSchoolCode. cbn [is_nullish]. discriminate.
    + apply (Htext s).
  - destruct v as [| |b|n|s]; [discriminate..| | |].
    + apply (Htext (ToString (VBool b))).
    + apply NumberToString_Some.
    + apply (Htext s).
  - intros s -> Hblank. unfold formatSchoolCode. cbn [is_nullish ToString].
    rewrite StringToNumber_blank by (by rewrite Hblank). reflexivity.
  - intros n -> Hint. unfold formatSchoolCode, formatValue. cbn [is_nullish].
    rewrite Hint. destruct n as [| |q|]; try done. cbn [Num.isFinite negb].
    f_equal. by apply NumberToString_whole.
Qed.

(** ** Facts on [trim] *)

Lemma append_assoc (a b c : string) : (a +:+ b) +:+ c = a +:+ (b +:+ c).
Proof. induction a as [|x a IH]; [done|]. by rewrite !append_cons, IH. Qed.

Lemma append_nil_r (a : string) : a +:+ "" = a.
Proof. induction a as [|x a IH]; [done|]. by rewrite append_cons, IH. Qed.

Lemma rev_app_spec (s acc : string) : String.rev_app s acc = String.rev s +:+ acc.
Proof.
  unfold String.rev. revert acc. induction s as [|c s IH]; intros acc; [done|].
  cbn [String.rev_app]. rewrite (IH (String c acc)), (IH (String c "")).
  by rewrite append_assoc.
Qed.

Lemma rev_cons (c : ascii) (s : string) :
  String.rev (String c s) = String.rev s +:+ String c "".
Proof. unfold String.rev at 1. cbn [String.rev_app]. apply rev_app_spec. Qed.

Lemma rev_snoc (s : string) (c : ascii) :
  String.rev (s +:+ String c "") = String c (String.rev s).
Proof.
  induction s as [|x s IH]; [done|].
  by rewrite append_cons, !rev_cons, IH, append_cons.
Qed.

Lemma rev_involutive (s : string) : String.rev (String.rev s) = s.
Proof.
  induction s as [|c s IH]; [done|]. by rewrite rev_cons, rev_snoc, IH.
Qed.

Lemma rev_empty (s : string) : String.rev s = "" → s = "".
Proof. intros H. by rewrite <- (rev_involutive s), H. Qed.

Lemma trimStart_snoc (a : string) (c : ascii) :
  Str.trimStart (a +:+ String c "") =
    if decide (Str.trimStart a = "")
    then (if Str.is_space c then "" else String c "")
    else Str.trimStart a +:+ String c "".
Proof.
  induction a as [|x a IH]; [done|].
  rewrite append_cons. cbn [Str.trimStart].
  destruct (Str.is_space x); [done|]. by rewrite decide_False, append_cons.
Qed.

Lemma trimEnd_cons (c : ascii) (s : string) :
  Str.trimEnd (String c s) =
    if decide (Str.trimEnd s = "")
    then (if Str.is_space c then "" else String c "")
    else String c (Str.trimEnd s).
Proof.
  unfold Str.trimEnd. rewrite rev_cons, trimStart_snoc.
  destruct (decide (Str.trimStart (String.rev s) = "")) as [->|Hne].
  - rewrite decide_True by done. by destruct (Str.is_space c).
  - rewrite decide_False by (by intros ?%rev_empty). apply rev_snoc.
Qed.

Lemma trimStart_clean (s : string) : starts_clean (Str.trimStart s) = true.
Proof.
  induction s as [|c s IH]; [done|]. cbn [Str.trimStart].
  destruct (Str.is_space c) eqn:E; [done|]. by cbn [starts_clean]; rewrite E.
Qed.

Lemma trimStart_fixed (s : string) : starts_clean s = true → Str.trimStart s = s.
Proof. destruct s as [|c s]; [done|]. cbn. by destruct (Str.is_space c). Qed.

Lemma trimEnd_clean (s : string) : starts_clean s = true → starts_clean (Str.trimEnd s) = true.
Proof.
  destruct s as [|c s]; [done|]. rewrite trimEnd_cons. cbn [starts_clean].
  intros Hc. destruct (decide _); [|done].
  destruct (Str.is_space c) eqn:E; [discriminate Hc|]. cbn [starts_clean]. by rewrite E.
Qed.

Lemma trimEnd_idempotent (s : string) : Str.trimEnd (Str.trimEnd s) = Str.trimEnd s.
Proof.
  induction s as [|c s IH]; [done|]. rewrite trimEnd_cons.
  destruct (decide (Str.trimEnd s = "")) as [He|Hne].
  - destruct (Str.is_space c) eqn:E; [done|].
    rewrite trimEnd_cons, decide_True by done. by rewrite E.
  - by rewrite trimEnd_cons, IH, decide_False.
Qed.

Lemma trim_clean (s : string) : starts_clean (Str.trim s) = true.
Proof. apply trimEnd_clean, trimStart_clean. Qed.

Lemma trim_idempotent (s : string) : Str.trim (Str.trim s) = Str.trim s.
Proof.
  unfold Str.trim at 1. rewrite trimStart_fixed by apply trim_clean.
  apply trimEnd_idempotent.
Qed.

(** X12. [formatValue] returns null exactly for null, undefined, a number
    that is not finite, and a value whose text is blank; the text it returns
    is never empty.  On a string it returns the trimmed text, which it then
    leaves as it is: formatting a formatted text changes nothing. *)
Theorem formatValue_result (v : value) :
  (formatValue v = None ↔
     is_nullish v = true
     ∨ (∃ n, v = VNum n ∧ Num.isFinite n = false)
     ∨ ((∀ n, v ≠ VNum n) ∧ Str.trim (ToString v) = ""))
  ∧ formatValue v ≠ Some ""
  ∧ (∀ s r, v = VStr s → formatValue v = Some r →
       r = Str.trim s ∧ Str.trim r = r ∧ formatValue (VStr r) = Some r).
Proof.
  assert (Htext : ∀ t, nonempty (Str.trim t) = None ↔ Str.trim t = "").
  { intros t. unfold nonempty. by case_bool_decide. }
  split; [|split].
  - destruct v as [| |b|n|s].
    + split; [by left|done].
    + split; [by left|done].
    + change (formatValue (VBool b)) with (nonempty (Str.trim (ToString (VBool b)))).
      rewrite Htext. split; [by destruct b|].
      intros [H|[(n & H & _)|[_ H]]]; [discriminate H..|done].
    + unfold formatValue. cbn [is_nullish]. split.
      * intros H. right. left. exists n. split; [done|].
        destruct (Num.isFinite n); [|done]. cbn [negb] in H.
        by destruct (Number_isInteger n).
      * intros [H|[(n' & [= <-] & ->)|[H _]]]; [discriminate H|done|].
        by destruct (H n).
    + change (formatValue (VStr s)) with (nonempty (Str.trim s)).
      rewrite Htext. split; [intros H; right; right; by split|].
      intros [H|[(n & H & _)|[_ H]]]; [discriminate H..|done].
  - destruct v as [| |b|n|s]; [done..| | |].
    + intros H. by apply nonempty_Some in H.
    + unfold formatValue. cbn [is_nullish].
      destruct (negb (Num.isFinite n)); [done|].
      destruct (Number_isInteger n); [apply NumberToString_Some|].
      intros [= H]. by apply toFixed2_nonempty in H.
    + intros H. by apply nonempty_Some in H.
  - intros s r -> Hr.
    change (formatValue (VStr s)) with (nonempty (Str.trim s)) in Hr.
    change (formatValue (VStr r)) with (nonempty (Str.trim r)).
    unfold nonempty in Hr. case_bool_decide as Hblank; [done|].
    injection Hr as <-. rewrite trim_idempotent. split; [done|]. split; [done|].
    unfold nonempty. by rewrite bool_decide_eq_false_2.
Qed.

(* ------------------------------------------------------------------ *)
(** * Further properties: the URL of an ArcGIS query *)

Lemma length_append (a b : string) :
  String.length (a +:+ b) = String.length a + String.length b.
Proof. induction a as [|c a IH]; [done|]. rewrite append_cons. simpl. by rewrite IH. Qed.

Lemma drop_append (a b : string) : Str.drop (String.length a) (a +:+ b) = b.
Proof. induction a as [|c a IH]; [by destruct b|]. by rewrite append_cons. Qed.

Lemma endsWith_append (a b : string) : endsWith b (a +:+ b) = true.
Proof.
  unfold endsWith. apply bool_decide_eq_true_2. rewrite length_append. split; [lia|].
  replace (String.length a + String.length b - String.length b) with (String.length a) by lia.
  apply drop_append.
Qed.

Lemma take_clean (n : nat) (s : string) :
  starts_clean s = true → starts_clean (Str.take n s) = true.
Proof. by destruct n, s. Qed.

Lemma append_clean (a b : string) :
  starts_clean a = true → starts_clean b = true → starts_clean (a +:+ b) = true.
Proof. by destruct a. Qed.

Lemma trimEnd_append (a b : string) :
  b ≠ "" → Str.trimEnd b = b → Str.trimEnd (a +:+ b) = a +:+ b.
Proof.
  intros Hb Hfix. induction a as [|c a IH]; [done|].
  rewrite append_cons, trimEnd_cons, IH. rewrite decide_False; [done|].
  by intros [_ ?]%append_empty.
Qed.

Lemma strip_final_slash_clean (s : string) :
  starts_clean s = true → starts_clean (strip_final_slash s) = true.
Proof. unfold strip_final_slash. destruct (endsWith _ _); [apply take_clean|done]. Qed.

Lemma query_target_trimmed (url : string) : Str.trim (query_target url) = query_target url.
Proof.
  unfold query_target. destruct (endsWith _ _); [apply trim_idempotent|].
  unfold Str.trim. rewrite trimStart_fixed
    by (apply append_clean; [apply strip_final_slash_clean, trim_clean|done]).
  by apply trimEnd_append.
Qed.

(** X13. The target of an ArcGIS query always ends in [/query], and a
    target is its own target: a URL that already ends in [/query], white
    space around it apart, gets no second [/query]. *)
Theorem query_target_idempotent (url : string) :
  endsWith "/query" (query_target url) = true
  ∧ query_target (query_target url) = query_target url
  ∧ (endsWith "/query" (Str.trim url) = true → query_target url = Str.trim url).
Proof.
  assert (Hends : endsWith "/query" (query_target url) = true).
  { unfold query_target.
    destruct (endsWith "/query" (Str.trim url)) eqn:E; [done|apply endsWith_append]. }
  split; [done|]. split.
  - unfold query_target at 1. by rewrite query_target_trimmed, Hends.
  - intros H. unfold query_target. by rewrite H.
Qed.

Lemma all_chars_append (p : ascii → bool) (a b : string) :
  all_chars p (a +:+ b) = all_chars p a && all_chars p b.
Proof.
  induction a as [|c a IH]; [done|]. rewrite append_cons. simpl.
  by rewrite IH, andb_assoc.
Qed.

Lemma count_char_append (c : ascii) (a b : string) :
  count_char c (a +:+ b) = count_char c a + count_char c b.
Proof.
  induction a as [|x a IH]; [done|]. rewrite append_cons. simpl. rewrite IH. lia.
Qed.

Lemma count_char_none (p : ascii → bool) (c : ascii) (s : string) :
  p c = false → all_chars p s = true → count_char c s = 0.
Proof.
  intros Hc. induction s as [|x s IH]; [done|]. simpl.
  intros [Hx Hs]%andb_true_iff. rewrite (IH Hs).
  destruct (decide (x = c)) as [->|]; [congruence|done].
Qed.

Lemma form_encode_char_encoded (c : ascii) :
  all_chars encoded_char (form_encode_char c) = true.
Proof.
  destruct c as [[] [] [] [] [] [] [] []]; vm_compute; reflexivity.
Qed.

Lemma form_encode_encoded (s : string) : all_chars encoded_char (form_encode s) = true.
Proof.
  induction s as [|c s IH]; [done|]. cbn [form_encode].
  by rewrite all_chars_append, form_encode_char_encoded, IH.
Qed.

Lemma form_encode_count (c : ascii) (s : string) :
  encoded_char c = false → count_char c (form_encode s) = 0.
Proof. intros Hc. by apply (count_char_none encoded_char), form_encode_encoded. Qed.

(** X14. Whatever the [where] clause and the field list are, the query
    string of an ArcGIS request has exactly three parameters: it has two
    [&] and three [=], and no [?], [#], [/] or space, because each of these
    characters of a value is percent-encoded (a space as [+]). *)
Theorem query_params_three (where_ outFields : string) :
  count_char "&" (query_params where_ outFields) = 2
  ∧ count_char "=" (query_params where_ outFields) = 3
  ∧ count_char "?" (query_params where_ outFields) = 0
  ∧ count_char "#" (query_params where_ outFields) = 0
  ∧ count_char "/" (query_params where_ outFields) = 0
  ∧ count_char " " (query_params where_ outFields) = 0.
Proof.
  unfold query_params.
  repeat split; rewrite !count_char_append, !form_encode_count by reflexivity; reflexivity.
Qed.

(* ------------------------------------------------------------------ *)
(** * Further properties: the tooltip fields *)

Lemma add_pick_ok (names : list string) (picks : list (string * string))
    (field label : string) :
  score_field field = false → label ∉ score_labels →
  Forall (pick_ok names) picks → Forall (pick_ok names) (add_pick names picks field label).
Proof.
  intros Hfield Hlabel Hpicks. unfold add_pick, Str.includes.
  case_bool_decide as Hin; [|done].
  apply Forall_app. split; [done|]. by apply Forall_singleton.
Qed.

Lemma colon_label (field : string) : field +:+ ":" ∉ score_labels.
Proof.
  intros Hin. pose proof (endsWith_append field ":") as Hends.
  unfold score_labels in Hin. rewrite !elem_of_cons, elem_of_nil in Hin.
  destruct Hin as [H|[H|[H|[H|[]]]]]; rewrite H in Hends; discriminate Hends.
Qed.

Lemma alias_label (field : string) :
  score_field field = false →
  default (field +:+ ":") (dict_get SEIFA_DISPLAY field) ∉ score_labels.
Proof.
  intros Hfield. unfold SEIFA_DISPLAY. cbn [dict_get].
  repeat (destruct (decide (_ = field)) as [<-|_];
          [first [discriminate Hfield
                 | cbn [default]; unfold score_labels;
                   rewrite !elem_of_cons, elem_of_nil;
                   intros [H|[H|[H|[H|[]]]]]; discriminate H]|]).
  apply colon_label.
Qed.

Lemma extra_picks_ok (names extra : list string) (picks : list (string * string)) :
  Forall (pick_ok names) picks →
  Forall (pick_ok names)
    (foldl (λ picks field,
              if existsb (λ suffix, endsWith suffix field) SCORE_SUFFIXES then picks
              else add_pick names picks field
                     (default (field +:+ ":") (dict_get SEIFA_DISPLAY field)))
           picks extra).
Proof.
  revert picks. induction extra as [|field extra IH]; intros picks Hpicks; [done|].
  cbn [foldl]. apply IH. fold (score_field field).
  destruct (score_field field) eqn:Hfield; [done|].
  apply add_pick_ok; [done|by apply alias_label|done].
Qed.

(** X15. [buildTooltipFields] gives as many aliases as fields and at least
    one field.  With no property names at all it gives the single field
    [SA1_CODE21]; otherwise every field is one of the property names.  A
    field that ends in [_score] or [_Score] is never picked from the extra
    columns: it can only be the first property name, taken alone when
    nothing else was picked.  So the labels that [SEIFA_DISPLAY] holds for
    the score columns are never used. *)
Theorem buildTooltipFields_fields (propertyNames : list string) (extra : option (list string)) :
  let t := buildTooltipFields propertyNames extra in
  length (fields t) = length (aliases t)
  ∧ fields t ≠ []
  ∧ (propertyNames = [] → fields t = ["SA1_CODE21"] ∧ aliases t = ["SA1 code:"])
  ∧ (propertyNames ≠ [] → ∀ f, f ∈ fields t → f ∈ propertyNames)
  ∧ (∀ f, f ∈ fields t → score_field f = true →
       fields t = [f] ∧ head propertyNames = Some f)
  ∧ (∀ a, a ∈ aliases t → a ∉ score_labels).
Proof.
  intros t. subst t. unfold buildTooltipFields.
  set (picks := match extra with Some _ => _ | None => _ end).
  assert (Hpicks : Forall (pick_ok propertyNames) picks).
  { assert (Hfixed : Forall (pick_ok propertyNames)
      (add_pick propertyNames
         (add_pick propertyNames
            (add_pick propertyNames (add_pick propertyNames [] "SA1_NAME21" "SA1:")
               "SA2_NAME21" "SA2:") "SA3_NAME21" "SA3:") "STE_NAME21" "State:")).
    { apply add_pick_ok; [reflexivity|apply (colon_label "State")|].
      apply add_pick_ok; [reflexivity|apply (colon_label "SA3")|].
      apply add_pick_ok; [reflexivity|apply (colon_label "SA2")|].
      apply add_pick_ok; [reflexivity|apply (colon_label "SA1")|]. done. }
    subst picks. destruct extra as [extra|]; [|done]. by apply extra_picks_ok. }
  clearbody picks.
  destruct picks as [|pick picks].
  - destruct propertyNames as [|fallback names]; cbn [app fmap list_fmap fields aliases fst snd].
    + split; [done|]. split; [done|]. split; [done|]. split; [done|]. split.
      * intros f ->%list_elem_of_singleton Hscore. discriminate Hscore.
      * intros a ->%list_elem_of_singleton. apply (colon_label "SA1 code").
    + split; [done|]. split; [done|]. split; [done|]. split.
      * intros _ f ->%list_elem_of_singleton. by left.
      * split; [by intros f ->%list_elem_of_singleton _|].
        intros a ->%list_elem_of_singleton. apply colon_label.
  - cbn [fields aliases]. rewrite Forall_forall in Hpicks.
    split; [by rewrite !length_fmap|]. split; [done|]. split.
    { intros ->. destruct (Hpicks pick) as [Hin _]; [by left|]. by apply elem_of_nil in Hin. }
    split; [|split].
    + intros _ f [p [-> Hp]]%list_elem_of_fmap. by apply Hpicks.
    + intros f [p [-> Hp]]%list_elem_of_fmap Hscore.
      destruct (Hpicks p Hp) as (_ & Hno & _). congruence.
    + intros a [p [-> Hp]]%list_elem_of_fmap. by apply Hpicks.
Qed.
(* ------------------------------------------------------------------ *)
(** * Properties of the rounding to binary64 *)

Lemma pow2_pos (e : Z) : (0 < Num.pow2 e)%Q.
Proof. apply Qpower_0_lt. reflexivity. Qed.

Lemma pow2_le (a b : Z) : (a ≤ b)%Z → (Num.pow2 a <= Num.pow2 b)%Q.
Proof. intros H. apply Qpower_le_compat_l; [done|]. apply Qle_bool_iff. reflexivity. Qed.

Lemma pow2_lt_inv (a b : Z) : (Num.pow2 a < Num.pow2 b)%Q → (a < b)%Z.
Proof. intros H. apply (Qpower_lt_compat_l_inv 2); [done|reflexivity]. Qed.

Lemma pow2_plus (a b : Z) : (Num.pow2 (a + b) == Num.pow2 a * Num.pow2 b)%Q.
Proof. apply Qpower_plus. intros H. discriminate H. Qed.

Lemma pow2_Z (n : Z) : (0 ≤ n)%Z → (Num.pow2 n == inject_Z (2 ^ n))%Q.
Proof. intros H. unfold Num.pow2. by rewrite Zpower_Qpower. Qed.

(** The exponent of a positive rational. *)
Lemma ilog2_spec (q : Q) :
  (0 < q)%Q → (Num.pow2 (Num.ilog2 q) <= q)%Q ∧ (q < Num.pow2 (Num.ilog2 q + 1))%Q.
Proof.
  intros Hq. unfold Num.ilog2.
  destruct q as [n d]. cbn [Qnum Qden].
  assert (Hn : (0 < n)%Z) by (unfold Qlt in Hq; cbn in Hq; lia).
  set (a := Z.log2 n). set (b := Z.log2 (Z.pos d)).
  destruct (Z.log2_spec n Hn) as [Ha1 Ha2]. fold a in Ha1, Ha2.
  destruct (Z.log2_spec (Z.pos d) eq_refl) as [Hb1 Hb2]. fold b in Hb1, Hb2.
  assert (Ha0 : (0 ≤ a)%Z) by apply Z.log2_nonneg.
  assert (Hb0 : (0 ≤ b)%Z) by apply Z.log2_nonneg.
  assert (Hq' : (n # d == inject_Z n / inject_Z (Z.pos d))%Q) by apply Qmake_Qdiv.
  assert (Hd : (0 < inject_Z (Z.pos d))%Q) by (by apply Qlt_alt).
  assert (Hpa : (Num.pow2 a <= inject_Z n)%Q) by (rewrite pow2_Z by done; by rewrite <- Zle_Qle).
  assert (Hpa' : (inject_Z n < Num.pow2 (a + 1))%Q)
    by (rewrite pow2_Z by lia; rewrite <- Zlt_Qlt; by rewrite Z.add_1_r).
  assert (Hpb : (Num.pow2 b <= inject_Z (Z.pos d))%Q) by (rewrite pow2_Z by done; by rewrite <- Zle_Qle).
  assert (Hpb' : (inject_Z (Z.pos d) < Num.pow2 (b + 1))%Q)
    by (rewrite pow2_Z by lia; rewrite <- Zlt_Qlt; by rewrite Z.add_1_r).
  (* n/d < 2^(a+1) / 2^b and n/d > 2^a / 2^(b+1) *)
  assert (Hup : (n # d < Num.pow2 (a - b + 1))%Q).
  { rewrite Hq'. apply Qlt_shift_div_r; [done|].
    assert (E : (Num.pow2 (a + 1) == Num.pow2 (a - b + 1) * Num.pow2 b)%Q).
    { rewrite <- pow2_plus. f_equiv. lia. }
    pose proof (pow2_pos (a - b + 1)). nra. }
  assert (Hdn : (Num.pow2 (a - b - 1) <= n # d)%Q).
  { rewrite Hq'. apply Qle_shift_div_l; [done|].
    assert (E : (Num.pow2 a == Num.pow2 (a - b - 1) * Num.pow2 (b + 1))%Q).
    { rewrite <- pow2_plus. f_equiv. lia. }
    pose proof (pow2_pos (a - b - 1)). nra. }
  destruct (Qle_bool (Num.pow2 (a - b)) (n # d)) eqn:E.
  - apply Qle_bool_iff in E. done.
  - assert (Hlt : (n # d < Num.pow2 (a - b))%Q).
    { apply Qnot_le_lt. intros H%Qle_bool_iff. congruence. }
    split; [done|]. by replace (a - b - 1 + 1)%Z with (a - b)%Z by lia.
Qed.

Lemma ilog2_mono (x y : Q) : (0 < x)%Q → (x <= y)%Q → (Num.ilog2 x ≤ Num.ilog2 y)%Z.
Proof.
  intros Hx Hxy. destruct (ilog2_spec x Hx) as [H1 _].
  destruct (ilog2_spec y ltac:(lra)) as [_ H2].
  assert (H : (Num.pow2 (Num.ilog2 x) < Num.pow2 (Num.ilog2 y + 1))%Q) by lra.
  apply pow2_lt_inv in H. lia.
Qed.

Lemma ilog2_comp (x y : Q) : (0 < x)%Q → (x == y)%Q → Num.ilog2 x = Num.ilog2 y.
Proof.
  intros Hx Hxy. apply Z.le_antisymm; apply ilog2_mono; lra.
Qed.

Lemma Qfloor_frac (q : Q) : (0 <= q - inject_Z (Qfloor q) < 1)%Q.
Proof.
  pose proof (Qfloor_le q) as Hl. pose proof (Qlt_floor q) as Hu.
  rewrite inject_Z_plus in Hu. change (inject_Z 1) with 1%Q in Hu. lra.
Qed.

Lemma rne_bounds (q : Q) : (Qfloor q ≤ Num.rne q ≤ Qfloor q + 1)%Z.
Proof.
  unfold Num.rne. destruct (_ ?= _)%Q; [destruct (Z.even _)| |]; lia.
Qed.

Lemma rne_Z (n : Z) : Num.rne (inject_Z n) = n.
Proof.
  unfold Num.rne. rewrite Qfloor_Z.
  assert (H : (inject_Z n - inject_Z n ?= 1 # 2)%Q = Lt).
  { apply (proj1 (Qlt_alt _ _)). generalize (inject_Z n). intros x. lra. }
  by rewrite H.
Qed.

Lemma rne_comp (x y : Q) : (x == y)%Q → Num.rne x = Num.rne y.
Proof.
  intros H. unfold Num.rne. rewrite (Qfloor_comp _ _ H).
  assert (E : (x - inject_Z (Qfloor y) == y - inject_Z (Qfloor y))%Q) by lra.
  by rewrite E.
Qed.

Lemma rne_mono (x y : Q) : (x <= y)%Q → (Num.rne x ≤ Num.rne y)%Z.
Proof.
  intros Hxy. pose proof (Qfloor_resp_le _ _ Hxy) as Hf.
  destruct (Z.eq_dec (Qfloor x) (Qfloor y)) as [E|E].
  - unfold Num.rne. rewrite E. generalize (inject_Z (Qfloor y)). intros f.
    destruct (y - f ?= 1 # 2)%Q eqn:Hy;
      [apply (proj2 (Qeq_alt _ _)) in Hy|apply (proj2 (Qlt_alt _ _)) in Hy
       |apply (proj2 (Qgt_alt _ _)) in Hy];
      (destruct (x - f ?= 1 # 2)%Q eqn:Hx;
       [apply (proj2 (Qeq_alt _ _)) in Hx|apply (proj2 (Qlt_alt _ _)) in Hx
        |apply (proj2 (Qgt_alt _ _)) in Hx]);
      try destruct (Z.even _); try lia; exfalso; lra.
  - pose proof (rne_bounds x). pose proof (rne_bounds y). lia.
Qed.

Lemma ulp_expo (q : Q) : Num.ulp q = Num.pow2 (Num.expo q - 52).
Proof. reflexivity. Qed.

Lemma ulp_pos (q : Q) : (0 < Num.ulp q)%Q.
Proof. apply pow2_pos. Qed.

Lemma Qabs_pos_iff (q : Q) : ¬ (q == 0)%Q → (0 < Qabs q)%Q.
Proof.
  intros Hq. destruct (Qlt_le_dec 0 (Qabs q)) as [|Hle]; [done|].
  destruct Hq. apply Qabs_Qle_condition in Hle. lra.
Qed.

Lemma expo_comp (x y : Q) : ¬ (x == 0)%Q → (x == y)%Q → Num.expo x = Num.expo y.
Proof.
  intros Hx Hxy. unfold Num.expo. f_equal. apply ilog2_comp; [by apply Qabs_pos_iff|].
  by rewrite Hxy.
Qed.

Lemma binary64_value (q : Q) :
  (Num.binary64 q == inject_Z (Num.rne (q / Num.ulp q)) * Num.ulp q)%Q.
Proof.
  unfold Num.binary64. destruct (Qeq_bool q 0) eqn:E0.
  - apply Qeq_bool_iff in E0.
    assert (H : (q / Num.ulp q == inject_Z 0)%Q).
    { generalize (Num.ulp q). intros u. rewrite E0. unfold Qdiv.
      change (inject_Z 0) with 0%Q. ring. }
    rewrite (rne_comp _ _ H), rne_Z. transitivity 0%Q; [done|].
    change (inject_Z 0) with 0%Q. ring.
  - destruct (Qeq_bool _ q) eqn:E.
    + apply Qeq_bool_iff in E. by rewrite E.
    + apply Qred_correct.
Qed.

Lemma binary64_comp (x y : Q) : (x == y)%Q → (Num.binary64 x == Num.binary64 y)%Q.
Proof.
  intros Hxy. destruct (Qeq_dec x 0) as [Hx|Hx].
  - unfold Num.binary64.
    rewrite (proj2 (Qeq_bool_iff x 0) Hx), (proj2 (Qeq_bool_iff y 0)); [done|]. lra.
  - rewrite !binary64_value, !ulp_expo, <- (expo_comp x y Hx Hxy).
    assert (H : (x / Num.pow2 (Num.expo x - 52) == y / Num.pow2 (Num.expo x - 52))%Q)
      by (generalize (Num.pow2 (Num.expo x - 52)); intros u; by rewrite Hxy).
    by rewrite (rne_comp _ _ H).
Qed.

Lemma scaled_le (x y u : Q) : (0 < u)%Q → (x <= y)%Q → (x / u <= y / u)%Q.
Proof.
  intros Hu Hxy. unfold Qdiv. pose proof (Qinv_lt_0_compat u Hu). nra.
Qed.

Lemma binary64_same_expo (x y : Q) :
  Num.expo x = Num.expo y → (x <= y)%Q → (Num.binary64 x <= Num.binary64 y)%Q.
Proof.
  intros E Hxy. rewrite !binary64_value, !ulp_expo, E.
  pose proof (pow2_pos (Num.expo y - 52)) as Hu.
  pose proof (rne_mono _ _ (scaled_le x y _ Hu Hxy)) as H.
  rewrite Zle_Qle in H. nra.
Qed.

Lemma pow2_53 (e : Z) : (Num.pow2 (e + 1) == inject_Z (2 ^ 53) * Num.pow2 (e - 52))%Q.
Proof.
  rewrite <- (pow2_Z 53) by done. rewrite <- pow2_plus. f_equiv. lia.
Qed.

Lemma pow2_52 (e : Z) : (Num.pow2 e == inject_Z (2 ^ 52) * Num.pow2 (e - 52))%Q.
Proof.
  rewrite <- (pow2_Z 52) by done. rewrite <- pow2_plus. f_equiv. lia.
Qed.

Lemma abs_below (q : Q) : ¬ (q == 0)%Q → (Qabs q < Num.pow2 (Num.expo q + 1))%Q.
Proof.
  intros Hq. destruct (ilog2_spec (Qabs q) (Qabs_pos_iff q Hq)) as [_ H].
  eapply Qlt_le_trans; [exact H|]. apply pow2_le. unfold Num.expo. lia.
Qed.

(** A rounded value does not leave the binade of its argument. *)
Lemma binary64_within (q : Q) :
  (- Num.pow2 (Num.expo q + 1) <= Num.binary64 q <= Num.pow2 (Num.expo q + 1))%Q.
Proof.
  destruct (Qeq_dec q 0) as [Hq|Hq].
  - pose proof (pow2_pos (Num.expo q + 1)).
    rewrite (binary64_comp q 0 Hq). change (Num.binary64 0) with 0%Q. lra.
  - pose proof (abs_below q Hq) as Habs. rewrite pow2_53 in *.
    rewrite binary64_value, ulp_expo.
    pose proof (pow2_pos (Num.expo q - 52)) as Hu. set (u := Num.pow2 (Num.expo q - 52)) in *.
    destruct (proj1 (Qabs_Qle_condition q (Qabs q)) (Qle_refl _)) as [Hl Hr].
    assert (Hq1 : (inject_Z (- 2 ^ 53) <= q / u)%Q).
    { apply Qle_shift_div_l; [done|]. rewrite inject_Z_opp. lra. }
    assert (Hq2 : (q / u <= inject_Z (2 ^ 53))%Q).
    { apply Qle_shift_div_r; [done|]. lra. }
    apply rne_mono in Hq1, Hq2. rewrite rne_Z in Hq1, Hq2.
    rewrite Zle_Qle in Hq1, Hq2. rewrite inject_Z_opp in Hq1. nra.
Qed.

(** In the normal range a rounded value keeps the exponent as a bound. *)
Lemma binary64_above (q : Q) :
  (0 < q)%Q → (-1022 ≤ Num.ilog2 q)%Z → (Num.pow2 (Num.expo q) <= Num.binary64 q)%Q.
Proof.
  intros Hq Hn. assert (Habs : (Qabs q == q)%Q) by (apply Qabs_pos; lra).
  assert (He : Num.expo q = Num.ilog2 q).
  { unfold Num.expo. rewrite (ilog2_comp (Qabs q) q) by (done || lra). lia. }
  destruct (ilog2_spec q Hq) as [Hlo _]. rewrite <- He in Hlo.
  rewrite pow2_52 in *. rewrite binary64_value, ulp_expo.
  pose proof (pow2_pos (Num.expo q - 52)) as Hu. set (u := Num.pow2 (Num.expo q - 52)) in *.
  assert (Hq1 : (inject_Z (2 ^ 52) <= q / u)%Q) by (by apply Qle_shift_div_l).
  apply rne_mono in Hq1. rewrite rne_Z in Hq1. rewrite Zle_Qle in Hq1. nra.
Qed.

Lemma binary64_below (q : Q) :
  (q < 0)%Q → (-1022 ≤ Num.ilog2 (- q))%Z → (Num.binary64 q <= - Num.pow2 (Num.expo q))%Q.
Proof.
  intros Hq Hn. assert (Habs : (Qabs q == - q)%Q) by (apply Qabs_neg; lra).
  assert (He : Num.expo q = Num.ilog2 (- q)).
  { unfold Num.expo. rewrite (ilog2_comp (Qabs q) (- q)) by (done || lra). lia. }
  destruct (ilog2_spec (- q) ltac:(lra)) as [Hlo _]. rewrite <- He in Hlo.
  rewrite pow2_52 in *. rewrite binary64_value, ulp_expo.
  pose proof (pow2_pos (Num.expo q - 52)) as Hu. set (u := Num.pow2 (Num.expo q - 52)) in *.
  assert (Hq1 : (q / u <= inject_Z (- 2 ^ 52))%Q).
  { apply Qle_shift_div_r; [done|]. rewrite inject_Z_opp. lra. }
  apply rne_mono in Hq1. rewrite rne_Z in Hq1. rewrite Zle_Qle, inject_Z_opp in Hq1. nra.
Qed.

Lemma binary64_nonneg (q : Q) : (0 <= q)%Q → (0 <= Num.binary64 q)%Q.
Proof.
  intros Hq. rewrite binary64_value. pose proof (ulp_pos q) as Hu.
  assert (H : (inject_Z 0 <= q / Num.ulp q)%Q).
  { apply Qle_shift_div_l; [done|]. change (inject_Z 0) with 0%Q. lra. }
  apply rne_mono in H. rewrite rne_Z in H. rewrite Zle_Qle in H.
  change (inject_Z 0) with 0%Q in H. nra.
Qed.

Lemma binary64_nonpos (q : Q) : (q <= 0)%Q → (Num.binary64 q <= 0)%Q.
Proof.
  intros Hq. rewrite binary64_value. pose proof (ulp_pos q) as Hu.
  assert (H : (q / Num.ulp q <= inject_Z 0)%Q).
  { apply Qle_shift_div_r; [done|]. change (inject_Z 0) with 0%Q. lra. }
  apply rne_mono in H. rewrite rne_Z in H. rewrite Zle_Qle in H.
  change (inject_Z 0) with 0%Q in H. nra.
Qed.

(** Rounding keeps the order. *)
Lemma binary64_mono (x y : Q) : (x <= y)%Q → (Num.binary64 x <= Num.binary64 y)%Q.
Proof.
  intros Hxy.
  destruct (Qlt_le_dec 0 x) as [Hx|Hx].
  - (* 0 < x <= y *)
    assert (Hy : (0 < y)%Q) by lra.
    assert (Hax : (Qabs x == x)%Q) by (apply Qabs_pos; lra).
    assert (Hay : (Qabs y == y)%Q) by (apply Qabs_pos; lra).
    assert (Hil : (Num.ilog2 (Qabs x) ≤ Num.ilog2 (Qabs y))%Z) by (apply ilog2_mono; lra).
    destruct (Z.eq_dec (Num.expo x) (Num.expo y)) as [E|E]; [by apply binary64_same_expo|].
    assert (Hlt : (Num.expo x < Num.expo y)%Z) by (unfold Num.expo in *; lia).
    assert (Hn : (-1022 ≤ Num.ilog2 y)%Z).
    { rewrite <- (ilog2_comp (Qabs y) y) by (done || lra). unfold Num.expo in *. lia. }
    pose proof (binary64_above y Hy Hn) as Hb.
    destruct (binary64_within x) as [_ Ha].
    pose proof (pow2_le (Num.expo x + 1) (Num.expo y) ltac:(lia)). lra.
  - destruct (Qlt_le_dec y 0) as [Hy|Hy].
    + (* x <= y < 0 *)
      assert (Hx' : (x < 0)%Q) by lra.
      assert (Hax : (Qabs x == - x)%Q) by (apply Qabs_neg; lra).
      assert (Hay : (Qabs y == - y)%Q) by (apply Qabs_neg; lra).
      assert (Hil : (Num.ilog2 (Qabs y) ≤ Num.ilog2 (Qabs x))%Z) by (apply ilog2_mono; lra).
      destruct (Z.eq_dec (Num.expo x) (Num.expo y)) as [E|E]; [by apply binary64_same_expo|].
      assert (Hlt : (Num.expo y < Num.expo x)%Z) by (unfold Num.expo in *; lia).
      assert (Hn : (-1022 ≤ Num.ilog2 (- x))%Z).
      { rewrite <- (ilog2_comp (Qabs x) (- x)) by (done || lra). unfold Num.expo in *. lia. }
      pose proof (binary64_below x Hx' Hn) as Hb.
      destruct (binary64_within y) as [Ha _].
      pose proof (pow2_le (Num.expo y + 1) (Num.expo x) ltac:(lia)). lra.
    + pose proof (binary64_nonpos x Hx). pose proof (binary64_nonneg y Hy). lra.
Qed.

Lemma rne_near (x : Q) : (x - (1 # 2) <= inject_Z (Num.rne x) <= x + (1 # 2))%Q.
Proof.
  pose proof (Qfloor_frac x) as [Hf0 Hf1]. unfold Num.rne.
  destruct (x - inject_Z (Qfloor x) ?= 1 # 2)%Q eqn:E;
    [apply (proj2 (Qeq_alt _ _)) in E|apply (proj2 (Qlt_alt _ _)) in E
     |apply (proj2 (Qgt_alt _ _)) in E];
    try destruct (Z.even _); rewrite ?inject_Z_plus; change (inject_Z 1) with 1%Q;
    generalize dependent (inject_Z (Qfloor x)); intros f; intros; lra.
Qed.

(** The bytes, and the differences of two bytes, are binary64 values. *)
Lemma binary64_byte (n : Z) : (-255 ≤ n ≤ 255)%Z → Num.binary64 (inject_Z n) = inject_Z n.
Proof.
  intros Hn.
  assert (Hall : forallb (λ k, let q := Num.binary64 (inject_Z (Z.of_nat k - 255)) in
                               (Qnum q =? Z.of_nat k - 255)%Z && (Qden q =? 1)%positive)
                         (seq 0 511) = true) by (vm_compute; reflexivity).
  rewrite forallb_forall in Hall.
  assert (Hin : In (Z.to_nat (n + 255)) (seq 0 511)) by (apply in_seq; lia).
  apply Hall in Hin. rewrite Z2Nat.id in Hin by lia.
  replace (n + 255 - 255)%Z with n in Hin by lia.
  destruct (Num.binary64 (inject_Z n)) as [a d]. cbn [Qnum Qden] in Hin. cbv zeta in Hin.
  apply andb_true_iff in Hin as [->%Z.eqb_eq ->%Pos.eqb_eq]. reflexivity.
Qed.

Lemma binary64_byte_eq (n : Z) (q : Q) :
  (-255 ≤ n ≤ 255)%Z → (q == inject_Z n)%Q → (Num.binary64 q == inject_Z n)%Q.
Proof. intros Hn Hq. by rewrite (binary64_comp _ _ Hq), binary64_byte. Qed.

Lemma binary64_half : Num.binary64 (1 # 2) = (1 # 2)%Q.
Proof. vm_compute. reflexivity. Qed.

(** Rounding keeps a value between two binary64 bounds. *)
Lemma binary64_between (l h q : Q) :
  Num.is_binary64 l = true → Num.is_binary64 h = true →
  (l <= q <= h)%Q → (l <= Num.binary64 q <= h)%Q.
Proof.
  intros Hl%Qeq_bool_iff Hh%Qeq_bool_iff [H1 H2].
  apply binary64_mono in H1, H2. lra.
Qed.

Lemma is_binary64_byte (n : Z) : (-255 ≤ n ≤ 255)%Z → Num.is_binary64 (inject_Z n) = true.
Proof.
  intros Hn. unfold Num.is_binary64. rewrite binary64_byte by done.
  apply Qeq_bool_iff. reflexivity.
Qed.

Lemma threshold_pos : (0 < Num.overflow_threshold)%Q.
Proof. apply (proj2 (Qlt_alt _ _)). by vm_compute. Qed.

Lemma big_bound : (1000 < Num.overflow_threshold)%Q.
Proof. apply (proj2 (Qlt_alt _ _)). by vm_compute. Qed.

Lemma fl64_cases (q : Q) :
  (Num.fl64 q = Fin (Num.binary64 q)
   ∧ (- Num.overflow_threshold < q < Num.overflow_threshold)%Q)
  ∨ (Num.fl64 q = PosInf ∧ (Num.overflow_threshold <= q)%Q)
  ∨ (Num.fl64 q = NegInf ∧ (q <= - Num.overflow_threshold)%Q).
Proof.
  unfold Num.fl64. pose proof threshold_pos as Hth.
  destruct (Qle_bool Num.overflow_threshold (Qabs q)) eqn:E.
  - apply Qle_bool_iff in E. right.
    destruct (Qle_bool 0 q) eqn:E0.
    + left. split; [done|]. apply Qle_bool_iff in E0. by rewrite Qabs_pos in E.
    + right. split; [done|]. apply Qle_bool_false in E0.
      rewrite Qabs_neg in E by done. lra.
  - left. split; [done|].
    assert (Hlt : (Qabs q < Num.overflow_threshold)%Q).
    { apply Qnot_le_lt. intros H%Qle_bool_iff. congruence. }
    destruct (proj1 (Qabs_Qle_condition q (Qabs q)) (Qle_refl _)). lra.
Qed.

Lemma fl64_bounded (q : Q) : (-1000 <= q <= 1000)%Q → Num.fl64 q = Fin (Num.binary64 q).
Proof.
  intros Hq. pose proof big_bound as Hbig.
  destruct (fl64_cases q) as [[H _]|[[_ H]|[_ H]]]; [done|lra..].
Qed.

Lemma expo_top (q : Q) :
  (- Num.overflow_threshold < q < Num.overflow_threshold)%Q → (Num.expo q ≤ 1023)%Z.
Proof.
  intros Hq. unfold Num.expo. apply Z.max_lub; [|done].
  destruct (Qeq_dec q 0) as [H0|H0].
  - assert (Hle : (Num.ilog2 (Qabs q) < 1)%Z); [|lia].
    unfold Num.ilog2. destruct q as [n d]. unfold Qeq in H0. cbn [Qnum Qden] in H0.
    assert (n = 0%Z) as -> by lia. change (Qabs (0 # d)) with (0 # d)%Q.
    cbn [Qnum Qden]. change (Z.log2 0) with 0%Z.
    pose proof (Z.log2_nonneg (Z.pos d)). destruct (Qle_bool _ _); lia.
  - destruct (ilog2_spec (Qabs q) (Qabs_pos_iff q H0)) as [Hlo _].
    assert (Habs : (Qabs q < Num.pow2 1024)%Q).
    { assert (Hth : (Num.overflow_threshold < Num.pow2 1024)%Q)
        by (apply (proj2 (Qlt_alt _ _)); by vm_compute).
      assert (Hq' : (Qabs q <= Num.overflow_threshold)%Q)
        by (apply Qabs_Qle_condition; lra).
      lra. }
    assert (H : (Num.pow2 (Num.ilog2 (Qabs q)) < Num.pow2 1024)%Q) by lra.
    apply pow2_lt_inv in H. lia.
Qed.

(** A value rounded within the range stays within it. *)
Lemma binary64_range (q : Q) :
  (- Num.overflow_threshold < q < Num.overflow_threshold)%Q →
  (- Num.overflow_threshold < Num.binary64 q < Num.overflow_threshold)%Q.
Proof.
  intros Hq. pose proof (expo_top q Hq) as Htop.
  destruct (Z.eq_dec (Num.expo q) 1023%Z) as [E|E].
  - rewrite binary64_value, ulp_expo, E.
    change (1023 - 52)%Z with 971%Z.
    assert (Hth : (Num.overflow_threshold == (inject_Z (2 ^ 53) - (1 # 2)) * Num.pow2 971)%Q)
      by (apply Qeq_bool_iff; by vm_compute).
    pose proof (pow2_pos 971) as Hu. set (u := Num.pow2 971) in *.
    pose proof (rne_near (q / u)) as [Hn1 Hn2].
    assert (Hq1 : (q / u < inject_Z (2 ^ 53) - (1 # 2))%Q).
    { apply Qlt_shift_div_r; [done|]. lra. }
    assert (Hq2 : (- (inject_Z (2 ^ 53) - (1 # 2)) < q / u)%Q).
    { apply Qlt_shift_div_l; [done|]. lra. }
    assert (Hr1 : (Num.rne (q / u) < 2 ^ 53)%Z) by (rewrite Zlt_Qlt; lra).
    assert (Hr2 : (- 2 ^ 53 < Num.rne (q / u))%Z) by (rewrite Zlt_Qlt, inject_Z_opp; lra).
    assert (Hr1' : (Num.rne (q / u) ≤ 2 ^ 53 + -1)%Z) by lia.
    assert (Hr2' : (- 2 ^ 53 + 1 ≤ Num.rne (q / u))%Z) by lia.
    rewrite Zle_Qle, inject_Z_plus in Hr1', Hr2'. rewrite inject_Z_opp in Hr2'.
    change (inject_Z 1) with 1%Q in Hr2'. change (inject_Z (-1)) with (-1 # 1)%Q in Hr1'.
    rewrite Hth. generalize dependent (inject_Z (Num.rne (q / u))). intros r. intros.
    generalize dependent (inject_Z (2 ^ 53)). intros c. intros.
    assert (H1 : (0 <= (c - 1 - r) * u)%Q) by (apply Qmult_le_0_compat; lra).
    assert (H2 : (0 <= (r + c - 1) * u)%Q) by (apply Qmult_le_0_compat; lra).
    split; lra.
  - destruct (binary64_within q) as [H1 H2].
    pose proof (pow2_le (Num.expo q + 1) 1023%Z ltac:(lia)) as Hle.
    assert (Hth : (Num.pow2 1023 < Num.overflow_threshold)%Q)
      by (apply (proj2 (Qlt_alt _ _)); by vm_compute).
    lra.
Qed.

(** What an operation returns is stored as it is. *)
Lemma stored_fl64 (q x : Q) :
  Num.fl64 q = Fin x → Num.stored (Fin x) = Fin (Num.binary64 x).
Proof.
  intros H. destruct (fl64_cases q) as [[Hq Hr]|[[Hq _]|[Hq _]]]; rewrite Hq in H; try done.
  injection H as <-. apply binary64_range in Hr.
  destruct (fl64_cases (Num.binary64 q)) as [[Hb _]|[[_ Hb]|[_ Hb]]]; [done|lra..].
Qed.

(** The binary64 values are multiples of the least of them. *)
Lemma binary64_grid (q : Q) :
  Num.is_binary64 q = true → ∃ k : Z, (q == inject_Z k * Num.pow2 (-1074))%Q.
Proof.
  intros Hq%Qeq_bool_iff. rewrite binary64_value, ulp_expo in Hq.
  exists (Num.rne (q / Num.ulp q) * 2 ^ (Num.expo q + 1022))%Z.
  assert (He : (0 ≤ Num.expo q + 1022)%Z) by (unfold Num.expo; lia).
  rewrite inject_Z_mult, <- (pow2_Z _ He), <- Qmult_assoc, <- pow2_plus.
  replace (Num.expo q + 1022 + -1074)%Z with (Num.expo q - 52)%Z by lia.
  by rewrite ulp_expo in *.
Qed.
(* ------------------------------------------------------------------ *)
(** * Further properties: the colour ramp *)

Lemma stored_small (q : Q) : (-1000 <= q <= 1000)%Q → Num.stored (Fin q) = Fin (Num.binary64 q).
Proof. apply fl64_bounded. Qed.

Lemma byte_small (n : Z) : (-255 ≤ n ≤ 255)%Z → (-255 <= inject_Z n <= 255)%Q.
Proof.
  intros Hn. change (-255)%Q with (inject_Z (-255)). change 255%Q with (inject_Z 255).
  rewrite <- !Zle_Qle. lia.
Qed.

Lemma stored_byte (n : Z) : (-255 ≤ n ≤ 255)%Z → Num.stored (Fin (inject_Z n)) = Fin (inject_Z n).
Proof.
  intros Hn. pose proof (byte_small n Hn).
  rewrite stored_small by lra. by rewrite binary64_byte.
Qed.

Lemma Qfloor_half (n : Z) (q : Q) : (q == inject_Z n)%Q → Qfloor (q + (1 # 2)) = n.
Proof.
  intros Hq. assert (H : (q + (1 # 2) == inject_Z n + (1 # 2))%Q) by lra.
  rewrite (Qfloor_comp _ _ H). apply Z.le_antisymm.
  - assert (Hlt : (inject_Z (Qfloor (inject_Z n + (1 # 2))) < inject_Z (n + 1))%Q).
    { pose proof (Qfloor_le (inject_Z n + (1 # 2))) as Hf. rewrite inject_Z_plus.
      change (inject_Z 1) with 1%Q. lra. }
    rewrite <- Zlt_Qlt in Hlt. lia.
  - rewrite <- (Qfloor_Z n) at 1. apply Qfloor_resp_le. lra.
Qed.

Lemma Qfloor_half_between (l h : Z) (q : Q) :
  (inject_Z l <= q <= inject_Z h)%Q → (l ≤ Qfloor (q + (1 # 2)) ≤ h)%Z.
Proof.
  intros [Hl Hh]. split.
  - rewrite <- (Qfloor_Z l). apply Qfloor_resp_le. lra.
  - assert (Hlt : (inject_Z (Qfloor (q + (1 # 2))) < inject_Z (h + 1))%Q).
    { pose proof (Qfloor_le (q + (1 # 2))) as Hf. rewrite inject_Z_plus.
      change (inject_Z 1) with 1%Q. lra. }
    rewrite <- Zlt_Qlt in Hlt. lia.
Qed.

Lemma binary64_unit (t : Q) : (0 <= t <= 1)%Q → (0 <= Num.binary64 t <= 1)%Q.
Proof. by apply binary64_between. Qed.

Lemma binary64_bytes (l h : Z) (q : Q) :
  (-255 ≤ l ≤ 255)%Z → (-255 ≤ h ≤ 255)%Z →
  (inject_Z l <= q <= inject_Z h)%Q → (inject_Z l <= Num.binary64 q <= inject_Z h)%Q.
Proof. intros Hl Hh. apply binary64_between; by apply is_binary64_byte. Qed.

(** One channel of [interpolateColor], between two bytes. *)
Lemma channel_byte (a b : Z) (t : Q) :
  (0 ≤ a ≤ 255)%Z → (0 ≤ b ≤ 255)%Z → (0 <= t <= 1)%Q →
  ∃ c : Z,
    NumOps.round
      (Num.add (Fin (inject_Z a))
         (NumOps.mul (NumOps.sub (Fin (inject_Z b)) (Fin (inject_Z a))) (Fin t)))
    = Fin (inject_Z c)
    ∧ (Z.min a b ≤ c ≤ Z.max a b)%Z
    ∧ ((t == 0)%Q → c = a)
    ∧ ((t == 1)%Q → c = b).
Proof.
  intros Ha Hb Ht.
  pose proof (byte_small a ltac:(lia)) as Ha'. pose proof (byte_small b ltac:(lia)) as Hb'.
  pose proof (byte_small (b - a) ltac:(lia)) as Hd'.
  assert (Hd : (inject_Z b - inject_Z a == inject_Z (b - a))%Q).
  { unfold Qminus, Z.sub. by rewrite inject_Z_plus, inject_Z_opp. }
  unfold NumOps.sub. rewrite !stored_byte by lia. rewrite fl64_bounded by lra.
  set (d1 := Num.binary64 (inject_Z b - inject_Z a)).
  assert (Hd1 : (d1 == inject_Z (b - a))%Q) by (apply binary64_byte_eq; [lia|done]).
  unfold NumOps.mul. rewrite (stored_small d1), (stored_small t) by lra.
  assert (Hd2 : (Num.binary64 d1 == inject_Z (b - a))%Q) by (apply binary64_byte_eq; [lia|done]).
  pose proof (binary64_unit t Ht) as Ht'.
  set (d2 := Num.binary64 d1) in *. set (t' := Num.binary64 t) in *.
  set (l := Z.min 0 (b - a)). set (h := Z.max 0 (b - a)).
  assert (Hl : (-255 ≤ l ≤ 255)%Z) by lia. assert (Hh : (-255 ≤ h ≤ 255)%Z) by lia.
  pose proof (byte_small l Hl) as Hl'. pose proof (byte_small h Hh) as Hh'.
  assert (Hp : (inject_Z l <= d2 * t' <= inject_Z h)%Q).
  { destruct (Z.le_ge_cases 0 (b - a)) as [E|E].
    - subst l h. rewrite Z.min_l, Z.max_r by done. rewrite Zle_Qle in E.
      change (inject_Z 0) with 0%Q in *. nra.
    - subst l h. rewrite Z.min_r, Z.max_l by done. rewrite Zle_Qle in E.
      change (inject_Z 0) with 0%Q in *. nra. }
  rewrite fl64_bounded by lra.
  pose proof (binary64_bytes l h _ Hl Hh Hp) as Hp1.
  set (p1 := Num.binary64 (d2 * t')) in *.
  unfold Num.add. rewrite stored_byte by lia. rewrite (stored_small p1) by lra.
  pose proof (binary64_bytes l h _ Hl Hh Hp1) as Hp2.
  set (p2 := Num.binary64 p1) in *.
  assert (Hs : (inject_Z (Z.min a b) <= inject_Z a + p2 <= inject_Z (Z.max a b))%Q).
  { assert (E1 : (inject_Z (Z.min a b) == inject_Z a + inject_Z l)%Q).
    { rewrite <- inject_Z_plus. f_equiv. lia. }
    assert (E2 : (inject_Z (Z.max a b) == inject_Z a + inject_Z h)%Q).
    { rewrite <- inject_Z_plus. f_equiv. lia. }
    lra. }
  pose proof (byte_small (Z.min a b) ltac:(lia)) as Hmin.
  pose proof (byte_small (Z.max a b) ltac:(lia)) as Hmax.
  rewrite fl64_bounded by lra.
  pose proof (binary64_bytes (Z.min a b) (Z.max a b) _ ltac:(lia) ltac:(lia) Hs) as Hs1.
  set (s1 := Num.binary64 (inject_Z a + p2)) in *.
  exists (Qfloor (s1 + (1 # 2))). split; [reflexivity|].
  split; [by apply Qfloor_half_between|]. split.
  - intros Hzero. apply Qfloor_half. apply binary64_byte_eq; [lia|].
    assert (Hz : (p2 == inject_Z 0)%Q).
    { apply binary64_byte_eq; [lia|]. apply binary64_byte_eq; [lia|].
      assert (Ht0 : (t' == 0)%Q) by (subst t'; by rewrite (binary64_comp _ _ Hzero)).
      rewrite Ht0. change (inject_Z 0) with 0%Q. ring. }
    rewrite Hz. change (inject_Z 0) with 0%Q. ring.
  - intros Hone. apply Qfloor_half. apply binary64_byte_eq; [lia|].
    assert (Hz : (p2 == inject_Z (b - a))%Q).
    { apply binary64_byte_eq; [lia|]. apply binary64_byte_eq; [lia|].
      assert (Ht1 : (t' == 1)%Q) by (subst t'; by rewrite (binary64_comp _ _ Hone)).
      rewrite Ht1, Hd2. ring. }
    rewrite Hz, <- Hd. ring.
Qed.

Lemma interpolateColor_bytes (a0 a1 a2 b0 b1 b2 : Z) (t : Q) :
  (0 ≤ a0 ≤ 255)%Z → (0 ≤ a1 ≤ 255)%Z → (0 ≤ a2 ≤ 255)%Z →
  (0 ≤ b0 ≤ 255)%Z → (0 ≤ b1 ≤ 255)%Z → (0 ≤ b2 ≤ 255)%Z → (0 <= t <= 1)%Q →
  ∃ r g b : Z,
    interpolateColor (Fin (inject_Z a0), Fin (inject_Z a1), Fin (inject_Z a2))
                     (Fin (inject_Z b0), Fin (inject_Z b1), Fin (inject_Z b2)) (Fin t)
    = (Fin (inject_Z r), Fin (inject_Z g), Fin (inject_Z b))
    ∧ ((0 ≤ r ≤ 255) ∧ (0 ≤ g ≤ 255) ∧ (0 ≤ b ≤ 255))%Z
    ∧ ((t == 0)%Q → (r, g, b) = (a0, a1, a2))
    ∧ ((t == 1)%Q → (r, g, b) = (b0, b1, b2)).
Proof.
  intros Ha0 Ha1 Ha2 Hb0 Hb1 Hb2 Ht.
  destruct (channel_byte a0 b0 t Ha0 Hb0 Ht) as (r & Hr & Hr' & Hr0 & Hr1).
  destruct (channel_byte a1 b1 t Ha1 Hb1 Ht) as (g & Hg & Hg' & Hg0 & Hg1).
  destruct (channel_byte a2 b2 t Ha2 Hb2 Ht) as (b & Hb & Hb' & Hb0' & Hb1').
  exists r, g, b. unfold interpolateColor. rewrite Hr, Hg, Hb.
  split; [done|]. split; [lia|]. split.
  - intros H. by rewrite (Hr0 H), (Hg0 H), (Hb0' H).
  - intros H. by rewrite (Hr1 H), (Hg1 H), (Hb1' H).
Qed.

Lemma div_half (q : Q) :
  (0 <= q <= 1 # 2)%Q →
  ∃ t, NumOps.div (Fin q) (Fin (1 # 2)) = Fin t ∧ (0 <= t <= 1)%Q
       ∧ ((q == 0)%Q → (t == 0)%Q) ∧ ((q == 1 # 2)%Q → (t == 1)%Q).
Proof.
  intros Hq. unfold NumOps.div. rewrite !stored_small by lra. rewrite binary64_half.
  change (Qeq_bool (1 # 2) 0) with false. cbv iota.
  assert (Hb : (0 <= Num.binary64 q <= 1 # 2)%Q) by (by apply binary64_between).
  set (q' := Num.binary64 q) in *.
  assert (Hd : (q' / (1 # 2) == q' * 2)%Q) by (unfold Qdiv; change (/ (1 # 2))%Q with 2%Q; ring).
  rewrite fl64_bounded by lra.
  exists (Num.binary64 (q' / (1 # 2))). split; [done|].
  split; [apply binary64_unit; lra|]. split.
  - intros H0. rewrite (binary64_comp (q' / (1 # 2)) 0); [done|].
    subst q'. rewrite Hd, (binary64_comp _ _ H0). reflexivity.
  - intros H1. rewrite (binary64_comp (q' / (1 # 2)) 1); [done|].
    subst q'. rewrite Hd, (binary64_comp _ _ H1). reflexivity.
Qed.

(** The colour of a ratio between 0 and 1. *)
Lemma ramp_unit (ρ : Q) :
  (0 <= ρ <= 1)%Q →
  ∃ r g b, ramp (Fin ρ) = (Fin (inject_Z r), Fin (inject_Z g), Fin (inject_Z b))
    ∧ ((0 ≤ r ≤ 255) ∧ (0 ≤ g ≤ 255) ∧ (0 ≤ b ≤ 255))%Z
    ∧ ((ρ == 0)%Q → (r, g, b) = (215, 48, 39)%Z)
    ∧ ((ρ == 1)%Q → (r, g, b) = (26, 152, 80)%Z).
Proof.
  intros [H0 H1]. unfold ramp. cbn [Num.leb].
  destruct (Qle_bool ρ (1 # 2)) eqn:E.
  - apply Qle_bool_iff in E.
    destruct (div_half ρ ltac:(lra)) as (t & -> & Ht & Ht0 & _).
    destruct (interpolateColor_bytes 215 48 39 254 224 139 t) as (r & g & b & Hc & Hb & Hz & _);
      [lia..|done|].
    exists r, g, b. split; [exact Hc|]. split; [done|]. split.
    + intros Hρ. by apply Hz, Ht0.
    + intros Hρ. lra.
  - assert (Hgt : (1 # 2 < ρ)%Q).
    { apply Qnot_le_lt. intros H%Qle_bool_iff. congruence. }
    unfold NumOps.sub. rewrite !stored_small by lra. rewrite binary64_half.
    assert (Hb : (1 # 2 <= Num.binary64 ρ <= 1)%Q) by (apply binary64_between; (done || lra)).
    set (ρ' := Num.binary64 ρ) in *.
    rewrite fl64_bounded by lra.
    assert (Hw : (0 <= Num.binary64 (ρ' - (1 # 2)) <= 1 # 2)%Q)
      by (apply binary64_between; (done || lra)).
    destruct (div_half _ Hw) as (t & -> & Ht & _ & Ht1).
    destruct (interpolateColor_bytes 254 224 139 26 152 80 t) as (r & g & b & Hc & Hb' & _ & Hz);
      [lia..|done|].
    exists r, g, b. split; [exact Hc|]. split; [done|]. split.
    + intros Hρ. lra.
    + intros Hρ. apply Hz, Ht1.
      rewrite (binary64_comp (ρ' - (1 # 2)) (1 # 2)); [by rewrite binary64_half|].
      subst ρ'. rewrite (binary64_comp _ _ Hρ). reflexivity.
Qed.

Lemma tiny_pos : (0 < Num.pow2 (-1074))%Q.
Proof. apply pow2_pos. Qed.

Lemma binary64_tiny_pos (q : Q) :
  (Num.pow2 (-1074) <= q)%Q → (Num.pow2 (-1074) <= Num.binary64 q)%Q.
Proof.
  intros H%binary64_mono.
  assert (Hc : (Num.binary64 (Num.pow2 (-1074)) == Num.pow2 (-1074))%Q)
    by (apply Qeq_bool_iff; by vm_compute).
  lra.
Qed.

Lemma binary64_tiny_neg (q : Q) :
  (q <= - Num.pow2 (-1074))%Q → (Num.binary64 q <= - Num.pow2 (-1074))%Q.
Proof.
  intros H%binary64_mono.
  assert (Hc : (Num.binary64 (- Num.pow2 (-1074)) == - Num.pow2 (-1074))%Q)
    by (apply Qeq_bool_iff; by vm_compute).
  lra.
Qed.

(** Two binary64 values that differ are at least [2^-1074] apart. *)
Lemma binary64_gap (x y : Q) :
  Num.is_binary64 x = true → Num.is_binary64 y = true → (x < y)%Q →
  (Num.pow2 (-1074) <= y - x)%Q.
Proof.
  intros [kx Hx]%binary64_grid [ky Hy]%binary64_grid Hlt.
  pose proof tiny_pos as Hu. set (u := Num.pow2 (-1074)) in *.
  assert (Hk : (kx < ky)%Z).
  { destruct (Z.lt_ge_cases kx ky) as [|Hge]; [done|]. exfalso.
    rewrite Zle_Qle in Hge.
    assert (H : (0 <= (inject_Z kx - inject_Z ky) * u)%Q) by (apply Qmult_le_0_compat; lra).
    lra. }
  assert (Hk' : (inject_Z kx + 1 <= inject_Z ky)%Q).
  { change 1%Q with (inject_Z 1). rewrite <- inject_Z_plus, <- Zle_Qle. lia. }
  assert (H : (0 <= (inject_Z ky - inject_Z kx - 1) * u)%Q) by (apply Qmult_le_0_compat; lra).
  lra.
Qed.

(** A finite width: both ends are within the range, and the width is what
    their difference rounds to. *)
Lemma sub_finite (hi lo : Q) :
  Num.isFinite (NumOps.sub (Fin hi) (Fin lo)) = true →
  Num.stored (Fin hi) = Fin (Num.binary64 hi)
  ∧ Num.stored (Fin lo) = Fin (Num.binary64 lo)
  ∧ (- Num.overflow_threshold < hi < Num.overflow_threshold)%Q
  ∧ (- Num.overflow_threshold < lo < Num.overflow_threshold)%Q
  ∧ NumOps.sub (Fin hi) (Fin lo) = Fin (Num.binary64 (Num.binary64 hi - Num.binary64 lo))
  ∧ Num.stored (NumOps.sub (Fin hi) (Fin lo))
    = Fin (Num.binary64 (Num.binary64 (Num.binary64 hi - Num.binary64 lo))).
Proof.
  unfold NumOps.sub. cbn [Num.stored].
  destruct (fl64_cases hi) as [[Hh Rh]|[[Hh _]|[Hh _]]]; rewrite Hh;
    (destruct (fl64_cases lo) as [[Hl Rl]|[[Hl _]|[Hl _]]]; rewrite Hl);
    try (intros H; discriminate H).
  destruct (fl64_cases (Num.binary64 hi - Num.binary64 lo)) as [[Hd Rd]|[[Hd _]|[Hd _]]];
    rewrite Hd; try (intros H; discriminate H).
  intros _. split; [reflexivity|]. split; [reflexivity|]. split; [exact Rh|].
  split; [exact Rl|]. split; [reflexivity|]. apply (stored_fl64 _ _ Hd).
Qed.

Lemma clamp_unit (r : number) :
  r ≠ NaN →
  ∃ ρ, Num.min2 (Fin 1) (Num.max2 (Fin 0) r) = Fin ρ
    ∧ (0 <= ρ <= 1)%Q
    ∧ (Num.leb r (Fin 0) = true → (ρ == 0)%Q)
    ∧ (Num.leb (Fin 1) r = true → (ρ == 1)%Q).
Proof.
  intros Hr. destruct r as [| |x|]; [done| | |].
  - exists 0%Q. split; [reflexivity|]. split; [lra|]. split; [done|]. intros H. discriminate H.
  - cbn [Num.max2 Num.leb]. destruct (Qle_bool 0 x) eqn:E0.
    + apply Qle_bool_iff in E0. cbn [Num.min2 Num.leb].
      destruct (Qle_bool 1 x) eqn:E1.
      * exists 1%Q. split; [done|]. split; [lra|]. split; [|done].
        intros H%Qle_bool_iff. apply Qle_bool_iff in E1. lra.
      * exists x. apply Qle_bool_false in E1. split; [done|]. split; [lra|]. split.
        -- intros H%Qle_bool_iff. lra.
        -- intros H. discriminate H.
    + apply Qle_bool_false in E0. exists 0%Q. split; [reflexivity|]. split; [lra|].
      split; [done|]. intros H%Qle_bool_iff. lra.
  - exists 1%Q. split; [reflexivity|]. split; [lra|]. split; [|done]. intros H. discriminate H.
Qed.

(** A quotient by a positive binary64 value. *)
Lemma div_positive (a : number) (y : Q) :
  a ≠ NaN → Num.stored (Fin y) = Fin (Num.binary64 y) → (0 < Num.binary64 y)%Q →
  let r := NumOps.div a (Fin y) in
  r ≠ NaN
  ∧ (Num.leb (Num.stored a) (Fin 0) = true → Num.leb r (Fin 0) = true)
  ∧ (Num.leb (Fin (Num.binary64 y)) (Num.stored a) = true → Num.leb (Fin 1) r = true).
Proof.
  intros Ha Hy Hpos r. subst r. unfold NumOps.div. rewrite Hy.
  set (y' := Num.binary64 y) in *.
  assert (Hz : Qeq_bool y' 0 = false).
  { destruct (Qeq_bool y' 0) eqn:E; [|done]. apply Qeq_bool_iff in E. lra. }
  assert (Hsgn : (y' ?= 0)%Q = Gt) by (by apply (proj1 (Qgt_alt _ _))).
  assert (Hinv : (0 < / y')%Q) by (by apply Qinv_lt_0_compat).
  assert (Hone : (y' * / y' == 1)%Q) by (apply Qmult_inv_r; lra).
  assert (Hs : Num.stored a ≠ NaN).
  { destruct a as [| |x|]; try done. cbn [Num.stored].
    by destruct (fl64_cases x) as [[-> _]|[[-> _]|[-> _]]]. }
  pose proof threshold_pos as Hth.
  destruct (Num.stored a) as [| |x|]; [done| | |].
  - rewrite Hz. cbn [NumOps.sgn]. rewrite Hsgn. cbn.
    split; [discriminate|]. split; [reflexivity|discriminate].
  - rewrite Hz. unfold Qdiv. set (q := (x * / y')%Q).
    destruct (fl64_cases q) as [[-> _]|[[-> Hq]|[-> Hq]]]; (split; [discriminate|]);
      cbn [Num.leb]; split; intros H%Qle_bool_iff; try reflexivity; subst q.
    + apply Qle_bool_iff. apply binary64_nonpos. nra.
    + apply Qle_bool_iff.
      assert (Hq : (1 <= x * / y')%Q) by nra.
      apply binary64_mono in Hq. by change (Num.binary64 1) with 1%Q in Hq.
    + exfalso. nra.
    + exfalso. nra.
  - rewrite Hz. cbn [NumOps.sgn]. rewrite Hsgn. cbn.
    split; [discriminate|]. split; [discriminate|reflexivity].
Qed.

Lemma stored_defined (a : number) : a ≠ NaN → Num.stored a ≠ NaN.
Proof.
  intros Ha. destruct a as [| |x|]; try done. cbn [Num.stored].
  by destruct (fl64_cases x) as [[-> _]|[[-> _]|[-> _]]].
Qed.

(** A quotient by a binary64 value that is not zero. *)
Lemma div_defined (a : number) (y : Q) :
  a ≠ NaN → Num.stored (Fin y) = Fin (Num.binary64 y) → ¬ (Num.binary64 y == 0)%Q →
  NumOps.div a (Fin y) ≠ NaN.
Proof.
  intros Ha%stored_defined Hy Hne. unfold NumOps.div. rewrite Hy.
  set (y' := Num.binary64 y) in *.
  assert (Hz : Qeq_bool y' 0 = false).
  { destruct (Qeq_bool y' 0) eqn:E; [|done]. by apply Qeq_bool_iff in E. }
  assert (Hsgn : (y' ?= 0)%Q ≠ Eq) by (by intros H%Qeq_alt).
  destruct (Num.stored a) as [| |x|]; [done| | |]; rewrite Hz.
  - cbn [NumOps.sgn]. by destruct (y' ?= 0)%Q.
  - by destruct (fl64_cases (x / y')) as [[-> _]|[[-> _]|[-> _]]].
  - cbn [NumOps.sgn]. by destruct (y' ?= 0)%Q.
Qed.

(** The difference between a value and the least of a range, as the
    quotient takes it, against zero and against the width. *)
Lemma sub_cases (value : number) (lo hi : Q) :
  value ≠ NaN →
  Num.isFinite (NumOps.sub (Fin hi) (Fin lo)) = true →
  let x := Num.stored (NumOps.sub value (Fin lo)) in
  let y := Num.binary64 (Num.binary64 (Num.binary64 hi - Num.binary64 lo)) in
  NumOps.sub value (Fin lo) ≠ NaN
  ∧ (Num.leb value (Fin lo) = true → Num.leb x (Fin 0) = true)
  ∧ (Num.leb (Fin hi) value = true → Num.leb (Fin y) x = true).
Proof.
  intros Hnan (Hh & Hl & Rh & Rl & Hw & _)%sub_finite x y. subst x y.
  assert (Rw : (- Num.overflow_threshold < Num.binary64 hi - Num.binary64 lo
                < Num.overflow_threshold)%Q).
  { unfold NumOps.sub in Hw. rewrite Hh, Hl in Hw.
    by destruct (fl64_cases (Num.binary64 hi - Num.binary64 lo))
      as [[_ R]|[[E _]|[E _]]]; [|rewrite E in Hw..]. }
  pose proof threshold_pos as Hth.
  unfold NumOps.sub at 1 2 3. rewrite Hl.
  destruct value as [| |v|]; [done| | |].
  - cbn. done.
  - cbn [Num.stored].
    destruct (fl64_cases v) as [[-> Rv]|[[-> Rv]|[-> Rv]]].
    + set (d := (Num.binary64 v - Num.binary64 lo)%Q).
      destruct (fl64_cases d) as [[Hd Rd]|[[Hd Rd]|[Hd Rd]]]; rewrite Hd.
      * rewrite (stored_fl64 _ _ Hd). split; [done|]. cbn [Num.leb]. split.
        -- intros H%Qle_bool_iff%binary64_mono. apply Qle_bool_iff.
           do 2 apply binary64_nonpos. subst d. lra.
        -- intros H%Qle_bool_iff%binary64_mono. apply Qle_bool_iff.
           do 2 apply binary64_mono. subst d. lra.
      * cbn [Num.stored Num.leb]. split; [done|]. split; [|done].
        intros H%Qle_bool_iff%binary64_mono. exfalso. subst d. lra.
      * cbn [Num.stored Num.leb]. split; [done|]. split; [done|].
        intros H%Qle_bool_iff%binary64_mono. exfalso. subst d. lra.
    + cbn [Num.stored Num.leb]. split; [done|]. split; [|done].
      intros H%Qle_bool_iff. exfalso. lra.
    + cbn [Num.stored Num.leb]. split; [done|]. split; [done|].
      intros H%Qle_bool_iff. exfalso. lra.
  - cbn. done.
Qed.

(** The ratio of [colorForIradDecile] before it is clamped, over a range
    of two binary64 values whose width is finite and not zero. *)
Lemma ratio_cases (value : number) (lo hi : Q) :
  value ≠ NaN → Qeq_bool lo hi = false →
  Num.is_binary64 lo = true → Num.is_binary64 hi = true →
  Num.isFinite (NumOps.sub (Fin hi) (Fin lo)) = true →
  let r := NumOps.div (NumOps.sub value (Fin lo)) (NumOps.sub (Fin hi) (Fin lo)) in
  r ≠ NaN
  ∧ ((lo < hi)%Q → Num.leb value (Fin lo) = true → Num.leb r (Fin 0) = true)
  ∧ ((lo < hi)%Q → Num.leb (Fin hi) value = true → Num.leb (Fin 1) r = true).
Proof.
  intros Hnan Hne Hlo Hhi Hfin r. subst r.
  destruct (sub_cases value lo hi Hnan Hfin) as (Hx & Hlow & Hhigh).
  destruct (sub_finite hi lo Hfin) as (_ & _ & _ & _ & Hw & Hs). rewrite Hw in *.
  pose proof tiny_pos as Htiny.
  pose proof (proj1 (Qeq_bool_iff _ _) Hlo) as Elo.
  pose proof (proj1 (Qeq_bool_iff _ _) Hhi) as Ehi.
  set (w := (Num.binary64 hi - Num.binary64 lo)%Q) in *.
  assert (Hpos : (lo < hi)%Q → (0 < Num.binary64 (Num.binary64 w))%Q).
  { intros Hlt. pose proof (binary64_gap lo hi Hlo Hhi Hlt) as Hgap.
    assert (H : (Num.pow2 (-1074) <= Num.binary64 (Num.binary64 w))%Q)
      by (do 2 apply binary64_tiny_pos; subst w; lra).
    lra. }
  split; [|split].
  - apply div_defined; [done..|].
    destruct (Qlt_le_dec lo hi) as [Hlt|Hge]; [specialize (Hpos Hlt); lra|].
    assert (Hlt : (hi < lo)%Q).
    { destruct (Qle_lt_or_eq _ _ Hge) as [|Heq]; [done|].
      symmetry in Heq. apply Qeq_bool_iff in Heq. congruence. }
    pose proof (binary64_gap hi lo Hhi Hlo Hlt) as Hgap.
    assert (H : (Num.binary64 (Num.binary64 w) <= - Num.pow2 (-1074))%Q)
      by (do 2 apply binary64_tiny_neg; subst w; lra).
    lra.
  - intros Hlt Hle.
    destruct (div_positive (NumOps.sub value (Fin lo)) (Num.binary64 w) Hx Hs (Hpos Hlt))
      as (_ & H & _).
    by apply H, Hlow.
  - intros Hlt Hle.
    destruct (div_positive (NumOps.sub value (Fin lo)) (Num.binary64 w) Hx Hs (Hpos Hlt))
      as (_ & _ & H).
    by apply H, Hhigh.
Qed.

Lemma hex_byte_range (z : Z) : (0 ≤ z ≤ 255)%Z → hex_byte z = true.
Proof.
  intros Hz.
  assert (Hall : forallb (λ n, hex_byte (Z.of_nat n)) (seq 0 256) = true)
    by (vm_compute; reflexivity).
  rewrite forallb_forall in Hall.
  rewrite <- (Z2Nat.id z) by lia. apply Hall, in_seq. lia.
Qed.

Lemma rgb_hex_colour (r g b : Z) :
  (0 ≤ r ≤ 255)%Z → (0 ≤ g ≤ 255)%Z → (0 ≤ b ≤ 255)%Z →
  hex_colour (rgb_hex (Fin (inject_Z r), Fin (inject_Z g), Fin (inject_Z b))) = true.
Proof.
  intros Hr%hex_byte_range Hg%hex_byte_range Hb%hex_byte_range.
  unfold hex_byte in *. unfold rgb_hex.
  destruct (padStart2 (toString16 (Fin (inject_Z r)))) as [|r1 [|r2 [|]]]; try done.
  destruct (padStart2 (toString16 (Fin (inject_Z g)))) as [|g1 [|g2 [|]]]; try done.
  destruct (padStart2 (toString16 (Fin (inject_Z b)))) as [|b1 [|b2 [|]]]; try done.
  apply andb_true_iff in Hr as [Hr1 Hr2], Hg as [Hg1 Hg2], Hb as [Hb1 Hb2].
  change (bool_decide (6 = 6)
          && all_chars is_hex
               (String r1 (String r2 (String g1 (String g2 (String b1 (String b2 ""))))))
          = true).
  cbn [all_chars]. by rewrite Hr1, Hr2, Hg1, Hg2, Hb1, Hb2.
Qed.

(** X16. Over a range of two binary64 values whose width is finite,
    [colorForIradDecile] always returns a colour written [#] and six
    hexadecimal digits: each channel stays between the channels of the two
    ends of its half of the gradient.  A missing decile, or one that is not
    a number, has the grey of no data; a range of one value gives the yellow
    of the middle; a decile at or below the least has the red end and one
    at or above the greatest the green end. *)
Theorem colorForIradDecile_colour (decile : value) (lo hi : Q) :
  Num.is_binary64 lo = true → Num.is_binary64 hi = true →
  Num.isFinite (NumOps.sub (Fin hi) (Fin lo)) = true →
  let c := colorForIradDecile decile (Some (Fin lo, Fin hi)) in
  let v := ToNumber decile in
  hex_colour c = true
  ∧ (is_nullish decile = true ∨ Num.isNaN v = true → c = NO_DATA_COLOR)
  ∧ (is_nullish decile = false → Num.isNaN v = false →
       ((lo == hi)%Q → c = "#fee08b")
       ∧ ((lo < hi)%Q → Num.leb v (Fin lo) = true → c = "#d73027")
       ∧ ((lo < hi)%Q → Num.leb (Fin hi) v = true → c = "#1a9850")).
Proof.
  intros Hlo Hhi Hfin c v. subst c v. unfold colorForIradDecile.
  destruct (is_nullish decile) eqn:Hnull.
  { split; [reflexivity|]. split; [done|]. intros H. discriminate H. }
  destruct (Num.isNaN (ToNumber decile)) eqn:Hnan.
  { split; [reflexivity|]. split; [done|]. intros _ H. discriminate H. }
  cbn [Num.eqb]. destruct (Qeq_bool lo hi) eqn:Heq.
  { apply Qeq_bool_iff in Heq.
    assert (Hmid : rgb_hex (ramp (Fin (1 # 2))) = "#fee08b") by (vm_compute; reflexivity).
    rewrite Hmid. split; [reflexivity|]. split; [by intros [H|H]|]. intros _ _.
    split; [done|]. split; intros Hlt; lra. }
  assert (Hv : ToNumber decile ≠ NaN) by (intros H; by rewrite H in Hnan).
  destruct (ratio_cases (ToNumber decile) lo hi Hv Heq Hlo Hhi Hfin) as (Hr & Hlow & Hhigh).
  destruct (clamp_unit _ Hr) as (ρ & -> & Hρ & Hzero & Hone).
  destruct (ramp_unit ρ Hρ) as (r & g & b & -> & (Hr' & Hg' & Hb') & Hred & Hgreen).
  split; [by apply rgb_hex_colour|]. split; [by intros [H|H]|]. intros _ _.
  split; [|split].
  - intros H%Qeq_bool_iff. congruence.
  - intros Hlt Hle. injection (Hred (Hzero (Hlow Hlt Hle))) as -> -> ->.
    vm_compute. reflexivity.
  - intros Hlt Hle. injection (Hgreen (Hone (Hhigh Hlt Hle))) as -> -> ->.
    vm_compute. reflexivity.
Qed.

Lemma colorForIradDecile_colour_witness :
  hex_colour (colorForIradDecile (VNum (Fin 5)) (Some (Fin 1, Fin 10))) = true.
Proof.
  apply (colorForIradDecile_colour (VNum (Fin 5)) 1 10); vm_compute; reflexivity.
Defined.

(** The channels are rounded from the binary64 result of the interpolation:
    at 1.15 over the range from 1 to 5 the last channel is [2e], where the
    exact quotient would round to [2f]; likewise at 2.01, read from text. *)
Lemma colorForIradDecile_rounded :
  colorForIradDecile (VNum (Fin (115 # 100))) (Some (Fin 1, Fin 5)) = "#da3d2e"
  ∧ colorForIradDecile (VStr "2.01") (Some (Fin 1, Fin 5)) = "#eb8959".
Proof. split; vm_compute; reflexivity. Qed.

(* ------------------------------------------------------------------ *)
(** * Further properties: the percentile slider *)






(* ------------------------------------------------------------------ *)
(** * Further properties: the state selector *)

Lemma buildMetadata_states (data : GeoCollection) (md : MapMetadata) :
  buildMetadata data = Ok md →
  Sorted String.le (states md)
  ∧ ∀ k, k ∈ states md ↔ k ∈ state_keys (features_of data).
Proof.
  intros (ks & -> & _ & Hks)%buildMetadata_state_keys.
  destruct (sort_strings_spec ks) as [Hsorted Hperm].
  split; [done|]. intros k. by rewrite Hperm.
Qed.

Lemma state_key_own (f : GeoFeature) (s : string) :
  state_key_of f = Some s → s ≠ "" ∧ inherited s = false.
Proof.
  unfold state_key_of.
  destruct (truthy (get (props_of f) "STE_NAME21")) eqn:Ht; [|discriminate].
  destruct (inherited (ToString (get (props_of f) "STE_NAME21"))) eqn:Hi; [discriminate|].
  cbn [andb negb]. intros H. apply (inj Some) in H. subst s. split; [|done].
  destruct (get (props_of f) "STE_NAME21") as [| |b|n|t].
  - discriminate.
  - discriminate.
  - by destruct b.
  - apply NumberToString_nonempty.
  - cbn [truthy] in Ht. cbn [ToString]. by apply negb_true_iff, bool_decide_eq_false in Ht.
Qed.

Lemma filteredSa1_features (data : GeoCollection) (s : string) :
  s ≠ "" → features_of (filteredSa1 data (Some s)) = state_features data s.
Proof.
  intros Hs. unfold filteredSa1, state_features, features_of.
  destruct (features data) as [fs|] eqn:Hfs; [|by rewrite Hfs].
  by rewrite bool_decide_eq_false_2.
Qed.

(** X18. The state selector and the polygons it shows.  An empty
    selection, which the view takes for none, shows every polygon, and any
    other shows the polygons whose state is that very string.  In the
    metadata that [buildMetadata] returns no listed state is the empty
    string, and none is the name of a member every object inherits
    ([constructor], [toString] and the like): the polygons of a state so
    named are shown when it is selected, but the state is never listed.
    The state the view starts on is Western Australia when it is listed and
    the least state otherwise, and there is none exactly when no polygon has
    a state that can be listed.  A state that shows a polygon is listed,
    unless its name is an inherited one; and when the state of every
    polygon is a string or falsy, every listed state shows a polygon.  A
    state that is not a string (a number, say) is listed under its text and
    shows none. *)
Theorem filteredSa1_states (data : GeoCollection) :
  features_of (filteredSa1 data None) = features_of data
  ∧ features_of (filteredSa1 data (Some "")) = features_of data
  ∧ (∀ s, s ≠ "" → features_of (filteredSa1 data (Some s)) = state_features data s)
  ∧ ∀ md, buildMetadata data = Ok md →
      let sts := states md in
      ("" ∉ sts)
      ∧ (∀ s, inherited s = true → s ∉ sts)
      ∧ (defaultState sts = None ↔ state_keys (features_of data) = [])
      ∧ (∀ s, defaultState sts = Some s →
           s ∈ sts
           ∧ (s = "Western Australia"
              ∨ ("Western Australia" ∉ sts) ∧ ∀ k, k ∈ sts → String.le s k))
      ∧ (∀ s, s ≠ "" → inherited s = false →
           features_of (filteredSa1 data (Some s)) ≠ [] → s ∈ sts)
      ∧ (states_typed data →
           ∀ s, s ∈ sts → features_of (filteredSa1 data (Some s)) ≠ [])
      ∧ (∀ s f, s ∈ sts → f ∈ features_of (filteredSa1 data (Some s)) →
           get (props_of f) "STE_NAME21" = VStr s).
Proof.
  assert (Hall : ∀ sel, (sel = None ∨ sel = Some "") →
            features_of (filteredSa1 data sel) = features_of data).
  { intros sel Hsel. unfold filteredSa1, features_of.
    destruct (features data) as [fs|] eqn:Hfs; [|by rewrite Hfs].
    cbn [features FeatureCollection default]. apply filter_all.
    apply Forall_forall. intros f _. by destruct Hsel as [->| ->]. }
  split; [apply Hall; by left|]. split; [apply Hall; by right|].
  split; [intros s Hs; by apply filteredSa1_features|].
  intros md Hmd sts.
  destruct (buildMetadata_states data md Hmd) as [Hsorted Hin]. fold sts in Hsorted, Hin.
  assert (Hown : ∀ s, s ∈ sts → s ≠ "" ∧ inherited s = false).
  { intros s (f & _ & Hf)%Hin%list_elem_of_omap. by apply state_key_own in Hf. }
  split; [intros H; by apply Hown in H as [? _]|].
  split; [intros s Hs H; apply Hown in H as [_ H]; congruence|].
  split; [|split; [|split; [|split]]].
  - unfold defaultState. split.
    + destruct sts as [|s0 sts0] eqn:Hsts; [|done]. intros _.
      destruct (state_keys (features_of data)) as [|k ks] eqn:Hks; [done|].
      exfalso. apply (elem_of_nil k), Hin. by left.
    + intros Hks. destruct sts as [|s0 sts0] eqn:Hsts; [done|].
      exfalso. apply (elem_of_nil s0). rewrite <- Hks. apply Hin. by left.
  - intros s. unfold defaultState, Str.includes.
    destruct sts as [|s0 sts0] eqn:Hsts; [done|].
    case_bool_decide as Hwa; intros [= <-].
    + split; [done|by left].
    + split; [by left|]. right. split; [done|].
      intros k [->|Hk]%elem_of_cons; [done|].
      apply Sorted_extends in Hsorted; [|by intros x y z; apply transitivity].
      rewrite Forall_forall in Hsorted. by apply Hsorted.
  - intros s Hs Hinh. rewrite filteredSa1_features by done.
    destruct (state_features data s) as [|f fs] eqn:Hfs; [done|]. intros _.
    apply Hin. apply (state_features_key data s f Hs Hinh). rewrite Hfs. by left.
  - intros Htyped s Hs.
    assert (Hs' : s ≠ "") by (by apply Hown in Hs as [? _]).
    rewrite filteredSa1_features by done.
    apply Hin, list_elem_of_omap in Hs as (f & Hf & Hkey).
    assert (Hmem : f ∈ state_features data s).
    { apply list_elem_of_filter. split; [|done].
      unfold states_typed in Htyped. rewrite Forall_forall in Htyped.
      specialize (Htyped f Hf). unfold state_key_of in Hkey.
      destruct (get (props_of f) "STE_NAME21") as [| |b|n|t]; try done.
      - by destruct b.
      - cbn [string_or_falsy] in Htyped. apply negb_true_iff in Htyped.
        by rewrite Htyped in Hkey.
      - destruct (truthy (VStr t) && negb (inherited (ToString (VStr t)))); [|done].
        injection Hkey as <-. cbn. by apply bool_decide_eq_true_2. }
    intros Hnil. rewrite Hnil in Hmem. by apply elem_of_nil in Hmem.
  - intros s f Hs Hf.
    assert (Hs' : s ≠ "") by (by apply Hown in Hs as [? _]).
    rewrite filteredSa1_features in Hf by done.
    apply list_elem_of_filter in Hf as [Heq _].
    destruct (get (props_of f) "STE_NAME21") as [| |b|n|t]; try done.
    cbn in Heq. by apply bool_decide_eq_true in Heq as ->.
Qed.

(** A polygon whose state is named [constructor] and has no SA2 name:
    [buildMetadata] returns and lists no state, and the selection of that
    state shows the polygon. *)
Lemma filteredSa1_inherited_state_unlisted :
  let data := FeatureCollection
                [mkFeature None (Some [("STE_NAME21", VStr "constructor")])] in
  (states <$> buildMetadata data) = Ok []
  ∧ features_of (filteredSa1 data (Some "constructor")) = features_of data.
Proof. split; vm_compute; reflexivity. Qed.

(* ------------------------------------------------------------------ *)
(** * Further properties: the hook *)

Lemma hook_run_cancelled (h : Hook) (evs : list HookEvent) :
  cancelled h = true →
  cancelled (hook_run h evs) = true ∧ published (hook_run h evs) = published h.
Proof.
  revert h. induction evs as [|ev evs IH]; intros h Hc; [done|].
  unfold hook_run in *. cbn [foldl].
  assert (Hstep : cancelled (hook_step h ev) = true ∧ published (hook_step h ev) = published h).
  { destruct ev as [[d|e]|]; cbn [hook_step]; rewrite ?Hc; by split. }
  destruct Hstep as [Hc' Hp']. destruct (IH _ Hc') as [Hc'' Hp'']. split; [done|congruence].
Qed.

Lemma hook_step_shape (h : Hook) (ev : HookEvent) :
  state_shape (published h) → state_shape (published (hook_step h ev)).
Proof.
  intros Hh. destruct ev as [[d|e]|]; cbn [hook_step]; [| |done].
  - destruct (negb (cancelled h)); [|done]. right. left. by split; [|split; [eexists|]].
  - destruct (negb (cancelled h)); [|done]. right. right. by split; [|split; [|eexists]].
Qed.

Lemma hook_run_shape (h : Hook) (evs : list HookEvent) :
  state_shape (published h) → state_shape (published (hook_run h evs)).
Proof.
  revert h. induction evs as [|ev evs IH]; intros h Hh; [done|].
  apply IH. by apply hook_step_shape.
Qed.

Lemma hook_run_app (h : Hook) (evs evs' : list HookEvent) :
  hook_run h (evs ++ evs') = hook_run (hook_run h evs) evs'.
Proof. apply foldl_app. Qed.

(** X19. The state the hook publishes is always of one of three shapes:
    loading with nothing else, the data with no error, or an error message
    with no data.  Once the effect is cleaned up nothing more is published,
    whatever settles afterwards; and when the load settles before any
    clean-up the state is that of its outcome. *)
Theorem useMapData_cancellation (before after : list HookEvent) (outcome : result MapData) :
  state_shape (published (hook_run mount before))
  ∧ published (hook_run mount (before ++ Cleanup :: after))
    = published (hook_run mount before)
  ∧ published (hook_run mount (Cleanup :: after)) = published mount
  ∧ loading (published (hook_run mount (Cleanup :: after))) = true
  ∧ (forallb is_settled before = true →
     published (hook_run mount (before ++ [Settled outcome])) = state_of outcome).
Proof.
  assert (Hcancel : ∀ h, published (hook_run h (Cleanup :: after)) = published h).
  { intros h.
    change (published (hook_run {| cancelled := true; published := published h |} after)
            = published h).
    by destruct (hook_run_cancelled {| cancelled := true; published := published h |} after
                   eq_refl) as [_ ->]. }
  split; [|split; [|split; [|split]]].
  - apply hook_run_shape. by left.
  - by rewrite hook_run_app, Hcancel.
  - apply Hcancel.
  - by rewrite Hcancel.
  - intros Hsettled. rewrite hook_run_app.
    assert (Hlive : cancelled (hook_run mount before) = false).
    { assert (Hgen : ∀ h, cancelled h = false → cancelled (hook_run h before) = false).
      { induction before as [|ev evs IH]; intros h Hh; [done|].
        cbn [forallb] in Hsettled. apply andb_true_iff in Hsettled as [Hev Hevs].
        unfold hook_run in *. cbn [foldl]. apply (IH Hevs).
        destruct ev as [[d|e]|]; [| |done]; cbn [hook_step]; by rewrite Hh. }
      by apply Hgen. }
    unfold hook_run at 1. cbn [foldl hook_step].
    by destruct outcome; rewrite Hlive.
Qed.

(* ------------------------------------------------------------------ *)
(** * Further properties: uploaded layers *)

Lemma drop_count (k : nat) (s r : string) (c : ascii) :
  Str.drop k s = String c r → count_char c s ≠ 0.
Proof.
  revert s. induction k as [|k IH]; intros s.
  - cbn [Str.drop]. intros ->. cbn [count_char]. by rewrite decide_True.
  - destruct s as [|a s]; [done|]. cbn [Str.drop count_char]. intros H%IH. lia.
Qed.

Lemma take_append (a b : string) : Str.take (String.length a) (a +:+ b) = a.
Proof.
  induction a as [|c a IH]; [by destruct b|].
  rewrite append_cons. cbn [String.length Str.take]. by rewrite IH.
Qed.

(** X21. The name under which an uploaded layer is listed.  The pattern
    that should remove the extension asks for a backslash in front of it,
    so a file name without a backslash is listed as it is, extension
    included.  The extension goes only together with a backslash and the
    character after it, and only when something is left in front. *)
Theorem kmz_layer_name_extension (file_name : string) :
  (count_char "\" file_name = 0 → kmz_layer_name file_name = file_name)
  ∧ (∀ base c ext,
       file_name = base +:+ String "\" (String c ext) →
       c ≠ "010"%char → c ≠ "013"%char →
       Str.includes ["kmz"; "kml"] (Str.toLowerCase ext) = true →
       kmz_layer_name file_name = if bool_decide (base = "") then file_name else base).
Proof.
  split.
  - intros Hnone. unfold kmz_layer_name.
    assert (Hno : kmz_pattern_matches
                    (Str.drop (String.length file_name - 5) file_name) = false).
    { destruct (Str.drop _ file_name) as [|c0 [|c1 ext]] eqn:Hdrop; [done..|].
      cbn [kmz_pattern_matches]. rewrite bool_decide_eq_false_2; [done|].
      intros ->. by apply drop_count in Hdrop. }
    rewrite Hno, andb_false_r. by case_bool_decide.
  - intros base c ext -> Hn Hr Hext. unfold kmz_layer_name.
    assert (Hlen : String.length ext = 3).
    { unfold Str.includes in Hext. apply bool_decide_eq_true in Hext.
      rewrite <- (map_chars_length Str.lower_char ext). fold (Str.toLowerCase ext).
      rewrite !elem_of_cons, elem_of_nil in Hext. by destruct Hext as [->|[->|[]]]. }
    rewrite length_append. cbn [String.length]. rewrite Hlen.
    replace (String.length base + 5 - 5) with (String.length base) by lia.
    rewrite drop_append, take_append. cbn [kmz_pattern_matches].
    rewrite (bool_decide_eq_true_2 (String.length base + 5 ≥ 5)) by lia.
    rewrite (bool_decide_eq_true_2 ("\"%char = "\"%char)) by done.
    rewrite (bool_decide_eq_false_2 (c = "010"%char ∨ c = "013"%char)) by tauto.
    rewrite Hext. done.
Qed.

Lemma parseKmlText_Ok (kmlToGeojson : string → option GeoCollection) (text : string)
    (g : GeoCollection) :
  parseKmlText kmlToGeojson text = Ok g → kmlToGeojson text = Some g ∧ is_Some (features g).
Proof.
  unfold parseKmlText. destruct (kmlToGeojson text) as [g'|]; [|done].
  destruct (features g') as [fs|] eqn:Hfs; [|done]. intros [= <-]. by rewrite Hfs.
Qed.

(** X20. [loadKmzLayer] goes by the file name alone, whatever its case: a
    name that ends neither in [.kmz] nor in [.kml] is refused whatever the
    file holds; a [.kmz] file is never read as text, and is refused when
    its archive has no entry ending in [.kml].  A layer it returns is what
    the converter made of some text, and always has a [features] member. *)
Theorem loadKmzLayer_outcome (kmlToGeojson : string → option GeoCollection) (file : File) :
  let name := Str.toLowerCase (file_name file) in
  (endsWith ".kmz" name = false → endsWith ".kml" name = false →
     loadKmzLayer kmlToGeojson file = Throw (Error "Only KMZ or KML files are supported."))
  ∧ (∀ g, loadKmzLayer kmlToGeojson file = Ok g →
       is_Some (features g)
       ∧ (endsWith ".kmz" name = true ∨ endsWith ".kml" name = true)
       ∧ ∃ text, kmlToGeojson text = Some g)
  ∧ (endsWith ".kmz" name = true →
     (∀ zip, file_archive file = Ok zip →
        Forall (λ entry, endsWith ".kml" (Str.toLowerCase entry.1) = false) zip →
        loadKmzLayer kmlToGeojson file
        = Throw (Error "KMZ archive does not contain a KML file."))
     ∧ (∀ e, file_archive file = Throw e → loadKmzLayer kmlToGeojson file = Throw e)
     ∧ ∀ text, loadKmzLayer kmlToGeojson file
               = loadKmzLayer kmlToGeojson
                   {| file_name := file_name file; file_archive := file_archive file;
                      file_text := text |}).
Proof.
  intros name. subst name. unfold loadKmzLayer. cbn [file_name].
  destruct (endsWith ".kmz" (Str.toLowerCase (file_name file))) eqn:Hkmz.
  - split; [done|]. split.
    + intros g. destruct (extractKmlFromKmz file) as [kmlText|e]; cbn [mbind result_bind]; [|done].
      intros [Hconv Hfs]%parseKmlText_Ok. split; [done|]. split; [by left|by exists kmlText].
    + intros _. unfold extractKmlFromKmz. cbn [file_archive]. split; [|split; [|done]].
      * intros zip -> Hnone. cbn [mbind result_bind].
        rewrite filter_none; [done|].
        apply Forall_forall. intros entry Hentry. rewrite Forall_forall in Hnone.
        by rewrite (Hnone entry Hentry).
      * by intros e ->.
  - destruct (endsWith ".kml" (Str.toLowerCase (file_name file))) eqn:Hkml.
    + split; [done|]. split; [|done].
      intros g [Hconv Hfs]%parseKmlText_Ok. split; [done|]. split; [by right|by eexists].
    + by split; [|split].
Qed.

(* ------------------------------------------------------------------ *)
(** * Further properties: the tooltip of the polygons *)





(* ------------------------------------------------------------------ *)
(** * Further properties: the SA2 names of a state *)

Lemma same_value_zero_refl (v : value) : same_value_zero v v = true.
Proof.
  destruct v as [| |b|n|s]; try done.
  - by apply bool_decide_eq_true_2.
  - destruct n as [| |q|]; try done. cbn. apply Qeq_bool_iff. reflexivity.
  - by apply bool_decide_eq_true_2.
Qed.

Lemma same_value_zero_string (t : string) (v : value) :
  same_value_zero (VStr t) v = true → v = VStr t.
Proof. destruct v as [| |b|n|s]; try done. cbn. by intros ->%bool_decide_eq_true. Qed.

Lemma existsb_elem (v : value) (vs : list value) :
  v ∈ vs → existsb (same_value_zero v) vs = true.
Proof.
  intros Hv. apply existsb_exists. exists v. split; [by apply list_elem_of_In|].
  apply same_value_zero_refl.
Qed.

Lemma existsb_app_l (v : value) (vs ws : list value) :
  existsb (same_value_zero v) vs = true → existsb (same_value_zero v) (vs ++ ws) = true.
Proof. intros H. rewrite existsb_app, H. done. Qed.

Lemma state_key_of_elem (seen : list GeoFeature) (f : GeoFeature) (k : string) :
  f ∈ seen → state_key_of f = Some k → k ∈ state_keys seen.
Proof. intros Hf Hk. apply list_elem_of_omap. by exists f. Qed.

(** The entry of the state of [f] after the step on [f]. *)
Lemma meta_step_sa2 (acc acc' : MetaAcc) (f : GeoFeature) (k : string) :
  meta_step acc f = Ok acc' →
  dict_get (acc_sa2ByState acc') k =
    match state_key_of f with
    | Some key =>
        if decide (key = k)
        then Some (let vs := default [] (dict_get (acc_sa2ByState acc) key) in
                   if truthy (sa2_of f) then set_add_value (sa2_of f) vs else vs)
        else dict_get (acc_sa2ByState acc) k
    | None => dict_get (acc_sa2ByState acc) k
    end.
Proof.
  unfold meta_step, state_key_of, sa2_of. cbv zeta.
  destruct (truthy (get (props_of f) "STE_NAME21")); [|by intros [= <-]].
  destruct (inherited (ToString (get (props_of f) "STE_NAME21"))); cbn [andb negb].
  { destruct (truthy (get (props_of f) "SA2_NAME21")); [done|by intros [= <-]]. }
  cbn [mbind result_bind]. intros [= <-]. cbn [acc_sa2ByState].
  generalize (ToString (get (props_of f) "STE_NAME21")) (acc_sa2ByState acc).
  intros key d.
  assert (Hd : ∀ k', dict_get (match dict_get d key with
                               | None => dict_set d key []
                               | Some _ => d
                               end) k'
                     = if decide (key = k') then Some (default [] (dict_get d key))
                       else dict_get d k').
  { intros k'. destruct (dict_get d key) as [vs|] eqn:Hget.
    - destruct (decide (key = k')) as [<-|]; [by rewrite Hget|done].
    - by rewrite dict_get_set. }
  destruct (truthy (get (props_of f) "SA2_NAME21")).
  - rewrite dict_get_set, (Hd key), (decide_True (P := key = key)) by done. cbn [default].
    destruct (decide (key = k)); [done|]. by rewrite Hd, decide_False.
  - by rewrite Hd.
Qed.

Lemma sa2_names_nil (seen : list GeoFeature) (k : string) :
  k ∉ state_keys seen → sa2_names seen k [].
Proof.
  intros Hk. split; [constructor|]. split.
  - by intros v Hv%elem_of_nil.
  - intros f Hf Hkey _. destruct Hk. by apply (state_key_of_elem seen f).
Qed.

Lemma sa2_names_step (seen : list GeoFeature) (f : GeoFeature) (k : string) (vs : list value) :
  state_key_of f = Some k → sa2_names seen k vs →
  sa2_names (seen ++ [f]) k
    (if truthy (sa2_of f) then set_add_value (sa2_of f) vs else vs).
Proof.
  intros Hkey (Hnd & Hfrom & Hcover).
  assert (Hold : ∀ v, v ∈ vs →
            ∃ f', f' ∈ seen ++ [f] ∧ state_key_of f' = Some k
                  ∧ truthy (sa2_of f') = true ∧ sa2_of f' = v).
  { intros v (f' & Hf' & H)%Hfrom. exists f'. split; [|done]. apply elem_of_app. by left. }
  destruct (truthy (sa2_of f)) eqn:Hsa2.
  - unfold set_add_value. destruct (existsb (same_value_zero (sa2_of f)) vs) eqn:Hex.
    + split; [done|]. split; [done|].
      intros f' [Hf'|Hf']%elem_of_app Hk' Ht';
        [|apply list_elem_of_singleton in Hf' as ->]; [by apply Hcover|done].
    + split; [|split].
      * apply NoDup_app. split; [done|]. split; [|apply NoDup_singleton].
        intros v Hv ->%list_elem_of_singleton. apply existsb_elem in Hv. congruence.
      * intros v [Hv|Hv]%elem_of_app; [|apply list_elem_of_singleton in Hv as ->]; [by apply Hold|].
        exists f. split; [|done]. apply elem_of_app. right. by apply list_elem_of_singleton.
      * intros f' [Hf'|Hf']%elem_of_app Hk' Ht';
        [|apply list_elem_of_singleton in Hf' as ->].
        -- by apply existsb_app_l, Hcover.
        -- rewrite existsb_app. cbn. by rewrite same_value_zero_refl, orb_true_r.
  - split; [done|]. split; [done|].
    intros f' [Hf'|Hf']%elem_of_app Hk' Ht';
        [|apply list_elem_of_singleton in Hf' as ->]; [by apply Hcover|congruence].
Qed.

Lemma sa2_names_other (seen : list GeoFeature) (f : GeoFeature) (k : string) (vs : list value) :
  state_key_of f ≠ Some k → sa2_names seen k vs → sa2_names (seen ++ [f]) k vs.
Proof.
  intros Hkey (Hnd & Hfrom & Hcover). split; [done|]. split.
  - intros v (f' & Hf' & H)%Hfrom. exists f'. split; [|done]. apply elem_of_app. by left.
  - intros f' [Hf'|Hf']%elem_of_app Hk' Ht';
        [|apply list_elem_of_singleton in Hf' as ->]; [by apply Hcover|done].
Qed.

Lemma meta_step_sa2_inv (seen : list GeoFeature) (acc acc' : MetaAcc) (f : GeoFeature) :
  sa2_inv seen (acc_sa2ByState acc) → meta_step acc f = Ok acc' →
  sa2_inv (seen ++ [f]) (acc_sa2ByState acc').
Proof.
  intros Hinv Hstep k. rewrite (meta_step_sa2 acc acc' f k Hstep), state_keys_snoc.
  destruct (state_key_of f) as [key|] eqn:Hkey.
  - destruct (decide (key = k)) as [->|Hne].
    + split; [apply elem_of_app; right; by apply list_elem_of_singleton|].
      cbv zeta. specialize (Hinv k).
      destruct (dict_get (acc_sa2ByState acc) k) as [vs|]; cbn [default].
      * apply sa2_names_step; [done|]. by destruct Hinv.
      * apply sa2_names_step; [done|]. by apply sa2_names_nil.
    + specialize (Hinv k). destruct (dict_get (acc_sa2ByState acc) k) as [vs|].
      * destruct Hinv as [Hk Hnames]. split; [apply elem_of_app; by left|].
        apply sa2_names_other; [congruence|done].
      * rewrite elem_of_app, list_elem_of_singleton. intros [?|?]; [done|congruence].
  - rewrite app_nil_r. specialize (Hinv k).
    destruct (dict_get (acc_sa2ByState acc) k) as [vs|]; [|done].
    destruct Hinv as [Hk Hnames]. split; [done|].
    apply sa2_names_other; [by rewrite Hkey|done].
Qed.

Lemma meta_loop_sa2_inv (fs : list GeoFeature) (acc : MetaAcc) :
  meta_loop (mkAcc [] [] []) fs = Ok acc → sa2_inv fs (acc_sa2ByState acc).
Proof.
  intros Hloop.
  apply (meta_loop_inv (λ seen a, sa2_inv seen (acc_sa2ByState a)) fs []
           (mkAcc [] [] []) acc); [|by intros k; cbn; apply not_elem_of_nil|done].
  intros seen a f a'. apply meta_step_sa2_inv.
Qed.

Lemma dict_get_fmap {A B} (g : A → B) (d : list (string * A)) (k : string) :
  dict_get (prod_map id g <$> d) k = g <$> dict_get d k.
Proof.
  induction d as [|[k' a] d IH]; [done|]. cbn. by destruct (decide (k' = k)).
Qed.

(** X23. The SA2 names that the metadata returned by [buildMetadata]
    lists for a state.  A state has an entry exactly when it is one of the
    states; the names of its entry are sorted, none is there twice, each is
    the truthy SA2 name of a polygon of that state, and the name of each
    polygon of that state, when it is a non-empty string, is in the list. *)
Theorem buildMetadata_sa2ByState (data : GeoCollection) (md : MapMetadata) (s : string) :
  buildMetadata data = Ok md →
  match dict_get (sa2ByState md) s with
  | None => s ∉ states md
  | Some vs =>
      s ∈ states md
      ∧ Sorted (by_string ToString) vs
      ∧ NoDup vs
      ∧ (∀ v, v ∈ vs →
           ∃ f, f ∈ features_of data ∧ state_key_of f = Some s
                ∧ truthy (sa2_of f) = true ∧ sa2_of f = v)
      ∧ (∀ f t, f ∈ features_of data → state_key_of f = Some s →
           sa2_of f = VStr t → t ≠ "" → VStr t ∈ vs)
  end.
Proof.
  intros Hmd.
  destruct (buildMetadata_states data md Hmd) as [_ Hstates].
  destruct (buildMetadata_fields data md Hmd) as (acc & Hloop & _ & -> & _).
  pose proof (meta_loop_sa2_inv _ _ Hloop s) as Hinv.
  rewrite dict_get_fmap.
  destruct (dict_get _ s) as [vs|]; cbn [fmap option_fmap option_map].
  - destruct Hinv as [Hs (Hnd & Hfrom & Hcover)].
    destruct (sort_by_spec ToString vs) as [Hsorted Hperm]. fold sort_values in Hsorted, Hperm.
    split; [by apply Hstates|]. split; [done|]. split; [by rewrite Hperm|]. split.
    + intros v Hv. apply Hfrom. by rewrite <- Hperm.
    + intros f t Hf Hkey Hsa2 Ht. rewrite Hperm.
      assert (Htruthy : truthy (sa2_of f) = true).
      { rewrite Hsa2. cbn. by rewrite bool_decide_eq_false_2. }
      specialize (Hcover f Hf Hkey Htruthy). rewrite Hsa2 in Hcover.
      apply existsb_exists in Hcover as (v & Hv & Heq).
      apply same_value_zero_string in Heq as ->. by apply list_elem_of_In.
  - intros Hs. by apply Hinv, Hstates.
Qed.

Lemma buildMetadata_sa2ByState_witness :
  ∃ md,
    buildMetadata
      (FeatureCollection
         [mkFeature None (Some [("STE_NAME21", VStr "Tasmania");
                                ("SA2_NAME21", VStr "Hobart")])]) = Ok md
    ∧ dict_get (sa2ByState md) "Tasmania" = Some [VStr "Hobart"]
    ∧ "Tasmania" ∈ states md.
Proof.
  eexists. split; [vm_compute; reflexivity|]. split; [vm_compute; reflexivity|].
  apply (buildMetadata_sa2ByState
           (FeatureCollection
              [mkFeature None (Some [("STE_NAME21", VStr "Tasmania");
                                     ("SA2_NAME21", VStr "Hobart")])])
           _ "Tasmania" eq_refl).
Defined.

(* ------------------------------------------------------------------ *)
(** * Further properties: two decimals *)

Lemma digit_char_decimal (n : Z) : is_decimal (Str.digit_char (n mod 10)) = true.
Proof.
  pose proof (Z.mod_pos_bound n 10 ltac:(lia)) as Hd.
  assert (H : (n mod 10 = 0 ∨ n mod 10 = 1 ∨ n mod 10 = 2 ∨ n mod 10 = 3 ∨ n mod 10 = 4
               ∨ n mod 10 = 5 ∨ n mod 10 = 6 ∨ n mod 10 = 7 ∨ n mod 10 = 8
               ∨ n mod 10 = 9)%Z) by lia.
  repeat (destruct H as [->|H]; [reflexivity|]). by rewrite H.
Qed.

Lemma nat_digits_decimal (fuel : nat) (n : Z) (acc : string) :
  all_chars is_decimal acc = true → all_chars is_decimal (Str.nat_digits fuel n acc) = true.
Proof.
  revert n acc. induction fuel as [|fuel IH]; intros n acc Hacc; [done|].
  cbn [Str.nat_digits].
  assert (Hacc' : all_chars is_decimal (String (Str.digit_char (n mod 10)) acc) = true)
    by (cbn [all_chars]; by rewrite digit_char_decimal).
  destruct (n <? 10)%Z; [done|]. by apply IH.
Qed.

Lemma all_chars_string_of_list (p : ascii → bool) (l : list ascii) :
  Forall (λ c, p c = true) l → all_chars p (String.string_of_list_ascii l) = true.
Proof. induction 1 as [|c l Hc _ IH]; [done|]. cbn. by rewrite Hc, IH. Qed.

Lemma length_string_of_list (l : list ascii) :
  String.length (String.string_of_list_ascii l) = length l.
Proof. induction l as [|c l IH]; [done|]. cbn. by rewrite IH. Qed.

Lemma padded_digits_spec (width : nat) (n : Z) :
  all_chars is_decimal (padded_digits width n) = true
  ∧ width ≤ String.length (padded_digits width n).
Proof.
  unfold padded_digits. split.
  - rewrite all_chars_append. apply andb_true_iff. split.
    + apply all_chars_string_of_list, Forall_replicate. reflexivity.
    + by apply nat_digits_decimal.
  - rewrite length_append, length_string_of_list, length_replicate. lia.
Qed.

Lemma take_drop (n : nat) (s : string) : Str.take n s +:+ Str.drop n s = s.
Proof.
  revert s. induction n as [|n IH]; intros s; [by destruct s|].
  destruct s as [|c s]; [done|]. cbn [Str.take Str.drop]. by rewrite append_cons, IH.
Qed.

Lemma length_drop (n : nat) (s : string) :
  String.length (Str.drop n s) = String.length s - n.
Proof.
  revert s. induction n as [|n IH]; intros s; [cbn; lia|].
  destruct s as [|c s]; [done|]. cbn [Str.drop String.length]. by rewrite IH.
Qed.

(** X24. A finite number that is not whole and is below [1e21] in
    magnitude is shown by [formatValue] with two decimals: a sign when it is
    negative, at least one digit, a point, and exactly two digits. *)
Theorem formatValue_two_decimals (q : Q) :
  Number_isInteger (Fin q) = false →
  Qle_bool (inject_Z (10 ^ 21)) (Qabs q) = false →
  ∃ whole frac,
    formatValue (VNum (Fin q))
    = Some ((if Qle_bool 0 q then "" else "-") +:+ whole +:+ "." +:+ frac)
    ∧ whole ≠ "" ∧ String.length frac = 2
    ∧ all_chars is_decimal whole = true ∧ all_chars is_decimal frac = true.
Proof.
  intros Hint Hsmall. unfold formatValue. cbn [is_nullish Num.isFinite negb].
  rewrite Hint. unfold toFixed2. rewrite Hsmall.
  set (m := padded_digits 3 _).
  destruct (padded_digits_spec 3 (Qfloor (Qabs q * inject_Z 100 + (1 # 2)))) as [Hdec Hlen].
  fold m in Hdec, Hlen.
  exists (Str.take (String.length m - 2) m), (Str.drop (String.length m - 2) m).
  split; [done|].
  assert (Hfrac : String.length (Str.drop (String.length m - 2) m) = 2)
    by (rewrite length_drop; lia).
  rewrite <- (take_drop (String.length m - 2) m), all_chars_append in Hdec.
  apply andb_true_iff in Hdec as [Hwhole Hdrop].
  split; [|done].
  intros Hempty.
  pose proof (f_equal String.length (take_drop (String.length m - 2) m)) as Hsum.
  rewrite length_append, Hempty, Hfrac in Hsum. cbn in Hsum. lia.
Qed.

Lemma formatValue_two_decimals_witness :
  ∃ whole frac,
    formatValue (VNum (Fin (-314159 # 100000)))
    = Some ((if Qle_bool 0 (-314159 # 100000) then "" else "-") +:+ whole +:+ "." +:+ frac)
    ∧ whole ≠ "" ∧ String.length frac = 2
    ∧ all_chars is_decimal whole = true ∧ all_chars is_decimal frac = true.
Proof.
  apply (formatValue_two_decimals (-314159 # 100000)); vm_compute; reflexivity.
Defined.
